(** * Blueprint composition (operations.go): a shallow embedding

    The Go package keeps a blueprint as a graph of heap objects: slices
    (a header pointing into a backing array), pointers to small structs
    and pointers to scalars.  The composition operations copy struct
    values and write through pointers, so the embedding keeps an explicit
    heap of typed cells and passes it through every operation. *)

From stdpp Require Import gmap strings list fin_maps pretty.
From Stdlib Require Import ZArith ssreflect.

Local Open Scope general_if_scope.
Local Open Scope string_scope.
Local Open Scope list_scope.

(** ** Data model (the struct declarations of the package) *)

(** A heap location.  A Go pointer is [option loc]: [None] is [nil]. *)
Abbreviation loc := positive.

(** A slice header: backing array (nil when [None]), offset of the first
    element inside it and length.  Capacity is not kept: the only
    [append] calls of operations.go grow a slice that nothing else can
    reach (see [go_append]). *)
Record slice := Slice { sl_arr : option loc; sl_off : nat; sl_len : nat }.

Definition nil_slice : slice := Slice None 0 0.

(** [type FromDatabase struct { Name string; Property DatabaseProperty }] *)
Record FromDatabase := mkFromDatabase { fd_Name : string; fd_Property : string }.

(** [type FromService struct { Name; Type; Property *ServiceProperty; EnvVarKey *string }] *)
Record FromService := mkFromService {
  fs_Name : string; fs_Type : string;
  fs_Property : option loc; fs_EnvVarKey : option loc }.

(** [type EnvVar struct]: seven pointer fields, at most one source active
    by convention only. *)
Record EnvVar := mkEnvVar {
  ev_Key : option loc;            (* *string *)
  ev_Value : option loc;          (* *string *)
  ev_GenerateValue : option loc;  (* *bool *)
  ev_Sync : option loc;           (* *bool *)
  ev_FromDatabase : option loc;   (* *FromDatabase *)
  ev_FromService : option loc;    (* *FromService *)
  ev_FromGroup : option loc       (* *string *) }.

Record EnvVarGroup := mkEnvVarGroup { eg_Name : string; eg_EnvVars : slice }.

(** [type Service struct]: the fields operations.go reads or writes
    ([Name], [Type], [Runtime], [EnvVars]) and [Plan], which stands for
    the remaining pointer fields: they are copied with the struct value
    and never looked at. *)
Record Service := mkService {
  svc_Name : string; svc_Type : string;
  svc_Runtime : option loc;       (* *Runtime *)
  svc_Plan : option loc;          (* *Plan *)
  svc_EnvVars : slice             (* []EnvVar *) }.

Record ReadReplica := mkReadReplica { rr_Name : string }.

Record Database := mkDatabase {
  db_Name : string;
  db_Plan : option loc;           (* *Plan *)
  db_ReadReplicas : slice         (* []ReadReplica *) }.

Record Previews := mkPreviews { pv_Generation : string }.

Record Blueprint := mkBlueprint {
  bp_Services : slice;                       (* []Service *)
  bp_Databases : slice;                      (* []Database *)
  bp_EnvVarGroups : slice;                   (* []EnvVarGroup *)
  bp_Previews : option loc;                  (* *Previews *)
  bp_PreviewsExpireAfterDays : option loc    (* *int *) }.

(** Zero values, as Go gives to a freshly made element. *)
Global Instance FromDatabase_inhabited : Inhabited FromDatabase :=
  populate (mkFromDatabase "" "").
Global Instance FromService_inhabited : Inhabited FromService :=
  populate (mkFromService "" "" None None).
Global Instance EnvVar_inhabited : Inhabited EnvVar :=
  populate (mkEnvVar None None None None None None None).
Global Instance EnvVarGroup_inhabited : Inhabited EnvVarGroup :=
  populate (mkEnvVarGroup "" nil_slice).
Global Instance Service_inhabited : Inhabited Service :=
  populate (mkService "" "" None None nil_slice).
Global Instance ReadReplica_inhabited : Inhabited ReadReplica :=
  populate (mkReadReplica "").
Global Instance Database_inhabited : Inhabited Database :=
  populate (mkDatabase "" None nil_slice).
Global Instance Previews_inhabited : Inhabited Previews :=
  populate (mkPreviews "").
Global Instance Blueprint_inhabited : Inhabited Blueprint :=
  populate (mkBlueprint nil_slice nil_slice nil_slice None None).

(** [ServiceTypeKeyValue ServiceType = "keyvalue"] *)
Definition ServiceTypeKeyValue : string := "keyvalue".

(** ** The heap *)

(** One store per pointee type: a pointer or a slice designates a cell or
    an array of its own type, allocated on its own (pointers into the
    middle of another object are not modelled).  Go is memory safe, so a
    pointer of a running program always designates a live cell; reading
    an unallocated location yields the zero value here only to keep the
    operations total. *)
Record heap := Heap {
  blueprints : gmap loc Blueprint;
  service_arrays : gmap loc (list Service);
  database_arrays : gmap loc (list Database);
  group_arrays : gmap loc (list EnvVarGroup);
  envvar_arrays : gmap loc (list EnvVar);
  replica_arrays : gmap loc (list ReadReplica);
  fromdb_cells : gmap loc FromDatabase;
  fromsvc_cells : gmap loc FromService;
  string_cells : gmap loc string;
  bool_cells : gmap loc bool;
  previews_cells : gmap loc Previews;
  int_cells : gmap loc Z }.

Definition empty_heap : heap := Heap ∅ ∅ ∅ ∅ ∅ ∅ ∅ ∅ ∅ ∅ ∅ ∅.

Definition with_blueprints (m : gmap loc Blueprint) (h : heap) : heap :=
  Heap m (service_arrays h) (database_arrays h) (group_arrays h)
    (envvar_arrays h) (replica_arrays h) (fromdb_cells h) (fromsvc_cells h)
    (string_cells h) (bool_cells h) (previews_cells h) (int_cells h).
Definition with_service_arrays (m : gmap loc (list Service)) (h : heap) : heap :=
  Heap (blueprints h) m (database_arrays h) (group_arrays h)
    (envvar_arrays h) (replica_arrays h) (fromdb_cells h) (fromsvc_cells h)
    (string_cells h) (bool_cells h) (previews_cells h) (int_cells h).
Definition with_database_arrays (m : gmap loc (list Database)) (h : heap) : heap :=
  Heap (blueprints h) (service_arrays h) m (group_arrays h)
    (envvar_arrays h) (replica_arrays h) (fromdb_cells h) (fromsvc_cells h)
    (string_cells h) (bool_cells h) (previews_cells h) (int_cells h).
Definition with_group_arrays (m : gmap loc (list EnvVarGroup)) (h : heap) : heap :=
  Heap (blueprints h) (service_arrays h) (database_arrays h) m
    (envvar_arrays h) (replica_arrays h) (fromdb_cells h) (fromsvc_cells h)
    (string_cells h) (bool_cells h) (previews_cells h) (int_cells h).
Definition with_replica_arrays (m : gmap loc (list ReadReplica)) (h : heap) : heap :=
  Heap (blueprints h) (service_arrays h) (database_arrays h) (group_arrays h)
    (envvar_arrays h) m (fromdb_cells h) (fromsvc_cells h)
    (string_cells h) (bool_cells h) (previews_cells h) (int_cells h).
Definition with_fromdb_cells (m : gmap loc FromDatabase) (h : heap) : heap :=
  Heap (blueprints h) (service_arrays h) (database_arrays h) (group_arrays h)
    (envvar_arrays h) (replica_arrays h) m (fromsvc_cells h)
    (string_cells h) (bool_cells h) (previews_cells h) (int_cells h).
Definition with_fromsvc_cells (m : gmap loc FromService) (h : heap) : heap :=
  Heap (blueprints h) (service_arrays h) (database_arrays h) (group_arrays h)
    (envvar_arrays h) (replica_arrays h) (fromdb_cells h) m
    (string_cells h) (bool_cells h) (previews_cells h) (int_cells h).
Definition with_string_cells (m : gmap loc string) (h : heap) : heap :=
  Heap (blueprints h) (service_arrays h) (database_arrays h) (group_arrays h)
    (envvar_arrays h) (replica_arrays h) (fromdb_cells h) (fromsvc_cells h)
    m (bool_cells h) (previews_cells h) (int_cells h).
Definition with_previews_cells (m : gmap loc Previews) (h : heap) : heap :=
  Heap (blueprints h) (service_arrays h) (database_arrays h) (group_arrays h)
    (envvar_arrays h) (replica_arrays h) (fromdb_cells h) (fromsvc_cells h)
    (string_cells h) (bool_cells h) m (int_cells h).
Definition with_int_cells (m : gmap loc Z) (h : heap) : heap :=
  Heap (blueprints h) (service_arrays h) (database_arrays h) (group_arrays h)
    (envvar_arrays h) (replica_arrays h) (fromdb_cells h) (fromsvc_cells h)
    (string_cells h) (bool_cells h) (previews_cells h) m.

(** Cells and arrays, generic in the element type. *)
Section Store.
Context {A : Type} `{!Inhabited A}.

(** [*p] *)
Definition cell_get (m : gmap loc A) (l : loc) : A := default inhabitant (m !! l).

(** [new(T)] initialised with [v]: the first location the store does
    not use. *)
Definition cell_alloc (m : gmap loc A) (v : A) : gmap loc A * loc :=
  let l := fresh (dom m) in (<[l := v]> m, l).

(** [s[i]] *)
Definition arr_get (m : gmap loc (list A)) (s : slice) (i : nat) : A :=
  match sl_arr s with
  | Some l => default inhabitant (m !! l ≫= λ xs, xs !! (sl_off s + i))
  | None => inhabitant
  end.

(** [s[i] = v] *)
Definition arr_set (m : gmap loc (list A)) (s : slice) (i : nat) (v : A)
    : gmap loc (list A) :=
  match sl_arr s with
  | Some l => alter (λ xs, <[sl_off s + i := v]> xs) l m
  | None => m
  end.

(** The elements of [s], in order: what [for _, x := range s] visits. *)
Definition arr_read (m : gmap loc (list A)) (s : slice) : list A :=
  arr_get m s <$> seq 0 (sl_len s).

(** A fresh backing array holding [vs], and the slice over all of it. *)
Definition arr_alloc (m : gmap loc (list A)) (vs : list A)
    : gmap loc (list A) * slice :=
  let l := fresh (dom m) in (<[l := vs]> m, Slice (Some l) 0 (length vs)).

(** [dst := make([]T, len(src)); copy(dst, src)] *)
Definition make_copy (m : gmap loc (list A)) (src : slice)
    : gmap loc (list A) * slice :=
  arr_alloc m (arr_read m src).

(** [append(s, xs...)] for a slice [s] that only the caller holds.
    With nothing to add the slice is returned as it is (nil stays nil);
    otherwise the result is taken in a fresh array.  The run time may
    instead extend [s] in place when its capacity allows: the two are
    indistinguishable when no other reference to the array of [s]
    exists, which is the case for [merged] in [MergeBlueprints]. *)
Definition go_append (m : gmap loc (list A)) (s : slice) (xs : list A)
    : gmap loc (list A) * slice :=
  match xs with
  | [] => (m, s)
  | _ => arr_alloc m (arr_read m s ++ xs)
  end.
End Store.

(** ** Library functions used by operations.go *)

(** [strings.HasPrefix(s, prefix)] *)
Definition HasPrefix (s prefix : string) : bool := String.prefix prefix s.

(** [s[n:]] for [n <= len(s)] *)
Definition string_drop (n : nat) (s : string) : string :=
  String.substring n (String.length s - n) s.

(** [strings.Replace(s, old, new, 1)]: the first occurrence of [old] in
    [s] is replaced by [new]; an empty [old] matches at the beginning. *)
Fixpoint Replace1 (s old new : string) : string :=
  if String.prefix old s then new +:+ string_drop (String.length old) s
  else match s with
       | EmptyString => EmptyString
       | String c s' => String c (Replace1 s' old new)
       end.

(** [s[:k]]: the first [k] bytes; [None] is the run-time panic of an
    index out of range. *)
Definition slice_to (s : string) (k : Z) : option string :=
  if bool_decide (0 ≤ k ≤ Z.of_nat (String.length s))%Z
  then Some (String.substring 0 (Z.to_nat k) s)
  else None.

(** [strings.Join(elems, sep)] *)
Definition Join (elems : list string) (sep : string) : string :=
  String.concat sep elems.

(** [m[k]] on a [map[string]bool]: a missing key reads [false]. *)
Definition map_bool (m : gmap string bool) (k : string) : bool :=
  default false (m !! k).

(** [for _, x := range xs { m[name(x)] = true }] *)
Definition collect_names {A} (name : A → string) (xs : list A)
    : gmap string bool :=
  foldl (λ m x, <[name x := true]> m) ∅ xs.

(** ** Reading a blueprint *)

Definition get_blueprint (h : heap) (p : loc) : Blueprint :=
  cell_get (blueprints h) p.

Definition alloc_blueprint (h : heap) (b : Blueprint) : heap * loc :=
  let '(m, l) := cell_alloc (blueprints h) b in (with_blueprints m h, l).

(** [bp.GetServices()], [bp.GetDatabases()], [bp.GetEnvVarGroups()]:
    the collection of a blueprint, nil for a nil blueprint. *)
Definition GetServices (h : heap) (bp : option loc) : list Service :=
  match bp with
  | None => []
  | Some p => arr_read (service_arrays h) (bp_Services (get_blueprint h p))
  end.

Definition GetDatabases (h : heap) (bp : option loc) : list Database :=
  match bp with
  | None => []
  | Some p => arr_read (database_arrays h) (bp_Databases (get_blueprint h p))
  end.

Definition GetEnvVarGroups (h : heap) (bp : option loc) : list EnvVarGroup :=
  match bp with
  | None => []
  | Some p => arr_read (group_arrays h) (bp_EnvVarGroups (get_blueprint h p))
  end.

(** [GetAllResourceNames] *)
Definition GetAllResourceNames (h : heap) (bp : option loc)
    : list string * list string * list string :=
  match bp with
  | None => ([], [], [])
  | Some p =>
    let bp := get_blueprint h p in
    let services :=
      foldl (λ services service, services ++ [svc_Name service]) []
        (arr_read (service_arrays h) (bp_Services bp)) in
    let databases :=
      foldl (λ databases db, databases ++ [db_Name db]) []
        (arr_read (database_arrays h) (bp_Databases bp)) in
    let envGroups :=
      foldl (λ envGroups group, envGroups ++ [eg_Name group]) []
        (arr_read (group_arrays h) (bp_EnvVarGroups bp)) in
    (services, databases, envGroups)
  end.

(** ** FindConflicts *)

(** [for _, x := range overlay.X { if baseNames[x.Name] { conflicts =
    append(conflicts, fmt.Sprintf(what + ": %s", x.Name)) } }] *)
Definition report_conflicts {A} (name : A → string) (what : string)
    (baseNames : gmap string bool) (xs : list A) (conflicts : list string)
    : list string :=
  foldl (λ conflicts x,
           if map_bool baseNames (name x)
           then conflicts ++ [what +:+ name x]
           else conflicts)
        conflicts xs.

Definition FindConflicts (h : heap) (base overlay : option loc) : list string :=
  let conflicts := [] in
  match base, overlay with
  | Some base, Some overlay =>
    let base := get_blueprint h base in
    let overlay := get_blueprint h overlay in
    (* Check service name conflicts *)
    let baseServiceNames :=
      collect_names svc_Name (arr_read (service_arrays h) (bp_Services base)) in
    let conflicts :=
      report_conflicts svc_Name "service name conflict: " baseServiceNames
        (arr_read (service_arrays h) (bp_Services overlay)) conflicts in
    (* Check database name conflicts *)
    let baseDBNames :=
      collect_names db_Name (arr_read (database_arrays h) (bp_Databases base)) in
    let conflicts :=
      report_conflicts db_Name "database name conflict: " baseDBNames
        (arr_read (database_arrays h) (bp_Databases overlay)) conflicts in
    (* Check environment group name conflicts *)
    let baseEnvGroupNames :=
      collect_names eg_Name (arr_read (group_arrays h) (bp_EnvVarGroups base)) in
    let conflicts :=
      report_conflicts eg_Name "environment group name conflict: "
        baseEnvGroupNames
        (arr_read (group_arrays h) (bp_EnvVarGroups overlay)) conflicts in
    conflicts
  | _, _ => conflicts
  end.

(** ** CopyBlueprint *)

Definition CopyBlueprint (h : heap) (bp : option loc) : heap * loc :=
  match bp with
  | None => alloc_blueprint h (mkBlueprint nil_slice nil_slice nil_slice None None)
  | Some p =>
    let bp := get_blueprint h p in
    (* Copy services *)
    let '(m, services) := make_copy (service_arrays h) (bp_Services bp) in
    let h := with_service_arrays m h in
    (* Copy databases *)
    let '(m, databases) := make_copy (database_arrays h) (bp_Databases bp) in
    let h := with_database_arrays m h in
    (* Copy environment variable groups *)
    let '(m, envVarGroups) := make_copy (group_arrays h) (bp_EnvVarGroups bp) in
    let h := with_group_arrays m h in
    (* Copy preview configuration *)
    let '(h, previews) :=
      match bp_Previews bp with
      | Some q =>
        let '(m, l) := cell_alloc (previews_cells h) (cell_get (previews_cells h) q) in
        (with_previews_cells m h, Some l)
      | None => (h, None)
      end in
    (* Copy preview expiration *)
    let '(h, expireDays) :=
      match bp_PreviewsExpireAfterDays bp with
      | Some q =>
        let '(m, l) := cell_alloc (int_cells h) (cell_get (int_cells h) q) in
        (with_int_cells m h, Some l)
      | None => (h, None)
      end in
    alloc_blueprint h (mkBlueprint services databases envVarGroups previews expireDays)
  end.

(** ** MergeBlueprints *)

(** The two results of [MergeBlueprints], a blueprint pointer and an
    error: a blueprint with a nil error, or nil with an error. *)
Inductive merge_result :=
  | Merged (bp : loc)
  | MergeError (msg : string).

Definition MergeBlueprints (h : heap) (base overlay : option loc)
    : heap * merge_result :=
  match base, overlay with
  | None, None =>
    let '(h, r) := alloc_blueprint h (mkBlueprint nil_slice nil_slice nil_slice None None) in
    (h, Merged r)
  | None, Some _ => let '(h, r) := CopyBlueprint h overlay in (h, Merged r)
  | Some _, None => let '(h, r) := CopyBlueprint h base in (h, Merged r)
  | Some pb, Some po =>
    (* Check for conflicts first *)
    let conflicts := FindConflicts h base overlay in
    if bool_decide (0 < length conflicts) then
      (h, MergeError ("merge conflicts found: " +:+ Join conflicts ", " +:+
                      ". Use PrefixBlueprint() to avoid name conflicts before merging"))
    else
      let base := get_blueprint h pb in
      let overlay := get_blueprint h po in
      (* Combine services *)
      let '(m, services) :=
        go_append (service_arrays h) nil_slice
          (arr_read (service_arrays h) (bp_Services base)) in
      let '(m, services) :=
        go_append m services (arr_read (service_arrays h) (bp_Services overlay)) in
      let h := with_service_arrays m h in
      (* Combine databases *)
      let '(m, databases) :=
        go_append (database_arrays h) nil_slice
          (arr_read (database_arrays h) (bp_Databases base)) in
      let '(m, databases) :=
        go_append m databases (arr_read (database_arrays h) (bp_Databases overlay)) in
      let h := with_database_arrays m h in
      (* Combine environment variable groups *)
      let '(m, envVarGroups) :=
        go_append (group_arrays h) nil_slice
          (arr_read (group_arrays h) (bp_EnvVarGroups base)) in
      let '(m, envVarGroups) :=
        go_append m envVarGroups
          (arr_read (group_arrays h) (bp_EnvVarGroups overlay)) in
      let h := with_group_arrays m h in
      (* Overlay wins for preview configuration *)
      let previews :=
        match bp_Previews overlay with
        | Some q => Some q
        | None => bp_Previews base
        end in
      (* Overlay wins for preview expiration *)
      let expireDays :=
        match bp_PreviewsExpireAfterDays overlay with
        | Some q => Some q
        | None => bp_PreviewsExpireAfterDays base
        end in
      let '(h, r) :=
        alloc_blueprint h (mkBlueprint services databases envVarGroups previews expireDays) in
      (h, Merged r)
  end.

(** ** ValidateBlueprint *)

(** [names := make(map[string]bool)
     for _, x := range xs {
       if names[x.Name] { errors = append(errors, fmt.Sprintf(what + ": %s", x.Name)) }
       names[x.Name] = true }]
    The result is the error list; the map is local to the loop. *)
Definition check_duplicates {A} (name : A → string) (what : string)
    (xs : list A) (errors : list string) : list string :=
  fst (foldl (λ '(errors, names) x,
                let errors :=
                  if map_bool names (name x)
                  then errors ++ [what +:+ name x]
                  else errors in
                (errors, <[name x := true]> names))
             (errors, ∅) xs).

(** The body of the loop over services that checks required fields. *)
Definition check_service (errors : list string) (service : Service)
    : list string :=
  let errors :=
    if bool_decide (svc_Name service = "")
    then errors ++ ["service missing name"]
    else errors in
  let errors :=
    if bool_decide (svc_Type service = "")
    then errors ++ ["service " +:+ svc_Name service +:+ " missing type"]
    else errors in
  (* Runtime required for most service types *)
  let errors :=
    if bool_decide (svc_Runtime service = None)
       && negb (bool_decide (svc_Type service = ServiceTypeKeyValue))
    then errors ++ ["service " +:+ svc_Name service +:+ " missing runtime"]
    else errors in
  errors.

Definition ValidateBlueprint (h : heap) (bp : option loc) : list string :=
  let errors := [] in
  match bp with
  | None => ["blueprint is nil"]
  | Some p =>
    let bp := get_blueprint h p in
    let services := arr_read (service_arrays h) (bp_Services bp) in
    let databases := arr_read (database_arrays h) (bp_Databases bp) in
    let envVarGroups := arr_read (group_arrays h) (bp_EnvVarGroups bp) in
    (* Check for duplicate service names *)
    let errors :=
      check_duplicates svc_Name "duplicate service name: " services errors in
    (* Check for duplicate database names *)
    let errors :=
      check_duplicates db_Name "duplicate database name: " databases errors in
    (* Check for duplicate environment group names *)
    let errors :=
      check_duplicates eg_Name "duplicate environment group name: "
        envVarGroups errors in
    (* Check for missing required fields *)
    let errors := foldl check_service errors services in
    let errors :=
      foldl (λ errors db,
               if bool_decide (db_Name db = "")
               then errors ++ ["database missing name"]
               else errors)
            errors databases in
    let errors :=
      foldl (λ errors group,
               if bool_decide (eg_Name group = "")
               then errors ++ ["environment group missing name"]
               else errors)
            errors envVarGroups in
    errors
  end.

(** ** PrefixBlueprint *)

(** [for oldName := range existing { nameMap[oldName] = prefix + oldName }] *)
Definition build_name_map (prefix : string) (existing : gmap string bool)
    : gmap string string :=
  map_fold (λ oldName _ nameMap, <[oldName := prefix +:+ oldName]> nameMap)
           ∅ existing.

(** [for i := range prefixed.Services {
       if newName, exists := serviceNameMap[prefixed.Services[i].Name]; exists {
         prefixed.Services[i].Name = newName } }] *)
Definition rename_services (serviceNameMap : gmap string string)
    (services : slice) (h : heap) : heap :=
  foldl (λ h i,
           let service := arr_get (service_arrays h) services i in
           match serviceNameMap !! svc_Name service with
           | Some newName =>
             with_service_arrays
               (arr_set (service_arrays h) services i
                  (mkService newName (svc_Type service) (svc_Runtime service)
                     (svc_Plan service) (svc_EnvVars service))) h
           | None => h
           end)
        h (seq 0 (sl_len services)).

Definition rename_databases (databaseNameMap : gmap string string)
    (databases : slice) (h : heap) : heap :=
  foldl (λ h i,
           let db := arr_get (database_arrays h) databases i in
           match databaseNameMap !! db_Name db with
           | Some newName =>
             with_database_arrays
               (arr_set (database_arrays h) databases i
                  (mkDatabase newName (db_Plan db) (db_ReadReplicas db))) h
           | None => h
           end)
        h (seq 0 (sl_len databases)).

Definition rename_groups (envGroupNameMap : gmap string string)
    (envVarGroups : slice) (h : heap) : heap :=
  foldl (λ h i,
           let group := arr_get (group_arrays h) envVarGroups i in
           match envGroupNameMap !! eg_Name group with
           | Some newName =>
             with_group_arrays
               (arr_set (group_arrays h) envVarGroups i
                  (mkEnvVarGroup newName (eg_EnvVars group))) h
           | None => h
           end)
        h (seq 0 (sl_len envVarGroups)).

(** The body of the closure [updateEnvVarReferences] for the entry
    [envVar := &envVars[i]]: the three reference fields in turn.  The
    entry itself is only read; every write goes through a pointer stored
    in it, into the cell that pointer designates. *)
Definition update_references (databaseNameMap serviceNameMap envGroupNameMap
    : gmap string string) (envVar : EnvVar) (h : heap) : heap :=
  (* Update database references *)
  let h :=
    match ev_FromDatabase envVar with
    | Some p =>
      let fd := cell_get (fromdb_cells h) p in
      match databaseNameMap !! fd_Name fd with
      | Some newName =>
        with_fromdb_cells
          (<[p := mkFromDatabase newName (fd_Property fd)]> (fromdb_cells h)) h
      | None => h
      end
    | None => h
    end in
  (* Update service references *)
  let h :=
    match ev_FromService envVar with
    | Some p =>
      let fs := cell_get (fromsvc_cells h) p in
      match serviceNameMap !! fs_Name fs with
      | Some newName =>
        with_fromsvc_cells
          (<[p := mkFromService newName (fs_Type fs) (fs_Property fs)
                    (fs_EnvVarKey fs)]> (fromsvc_cells h)) h
      | None => h
      end
    | None => h
    end in
  (* Update environment group references *)
  let h :=
    match ev_FromGroup envVar with
    | Some p =>
      match envGroupNameMap !! cell_get (string_cells h) p with
      | Some newName => with_string_cells (<[p := newName]> (string_cells h)) h
      | None => h
      end
    | None => h
    end in
  h.

(** One iteration of [for i := range envVars]. *)
Definition update_envvar (databaseNameMap serviceNameMap envGroupNameMap
    : gmap string string) (envVars : slice) (h : heap) (i : nat) : heap :=
  update_references databaseNameMap serviceNameMap envGroupNameMap
    (arr_get (envvar_arrays h) envVars i) h.

Definition updateEnvVarReferences (databaseNameMap serviceNameMap
    envGroupNameMap : gmap string string) (envVars : slice) (h : heap) : heap :=
  foldl (update_envvar databaseNameMap serviceNameMap envGroupNameMap envVars)
        h (seq 0 (sl_len envVars)).

(** The body of the inner replica loop, for replica [j] of [db]:
    [replica := &db.ReadReplicas[j]].  [db.Name] is the name the database
    has at this point, after the renaming loop.  Both slice expressions
    can panic, hence the option. *)
Definition update_replica (prefix : string) (db : Database) (oh : option heap)
    (j : nat) : option heap :=
  h ← oh;
  let replica := arr_get (replica_arrays h) (db_ReadReplicas db) j in
  let k := (Z.of_nat (String.length (db_Name db))
            - Z.of_nat (String.length prefix))%Z in
  cut ← slice_to (db_Name db) k;
  if HasPrefix (rr_Name replica) cut then
    oldDBName ← slice_to (db_Name db) k;
    if HasPrefix (rr_Name replica) oldDBName then
      Some (with_replica_arrays
              (arr_set (replica_arrays h) (db_ReadReplicas db) j
                 (mkReadReplica (Replace1 (rr_Name replica) oldDBName (db_Name db))))
              h)
    else Some h
  else Some h.

(** [for i := range prefixed.Databases { db := &prefixed.Databases[i]; ... }].
    The loop body writes replica arrays only, so the fields of [*db]
    read once are those every iteration of the inner loop sees. *)
Definition update_replicas (prefix : string) (databases : slice) (h : heap)
    : option heap :=
  foldl (λ oh i,
           h ← oh;
           let db := arr_get (database_arrays h) databases i in
           foldl (update_replica prefix db) (Some h)
                 (seq 0 (sl_len (db_ReadReplicas db))))
        (Some h) (seq 0 (sl_len databases)).

Definition PrefixBlueprint (h : heap) (bp : option loc) (prefix : string)
    : option (heap * loc) :=
  if bool_decide (bp = None) || bool_decide (prefix = "") then
    Some (CopyBlueprint h bp)
  else
    (* Create a deep copy to avoid modifying the original *)
    let '(h, prefixed) := CopyBlueprint h bp in
    let pb := get_blueprint h prefixed in
    (* Collect all names that exist in this blueprint *)
    let existingServiceNames :=
      collect_names svc_Name (arr_read (service_arrays h) (bp_Services pb)) in
    let existingDatabaseNames :=
      collect_names db_Name (arr_read (database_arrays h) (bp_Databases pb)) in
    let existingEnvGroupNames :=
      collect_names eg_Name (arr_read (group_arrays h) (bp_EnvVarGroups pb)) in
    (* Create mapping of old names to new names *)
    let serviceNameMap := build_name_map prefix existingServiceNames in
    let databaseNameMap := build_name_map prefix existingDatabaseNames in
    let envGroupNameMap := build_name_map prefix existingEnvGroupNames in
    (* Update service, database and environment group names *)
    let h := rename_services serviceNameMap (bp_Services pb) h in
    let h := rename_databases databaseNameMap (bp_Databases pb) h in
    let h := rename_groups envGroupNameMap (bp_EnvVarGroups pb) h in
    (* Update references in service environment variables *)
    let h :=
      foldl (λ h i,
               updateEnvVarReferences databaseNameMap serviceNameMap
                 envGroupNameMap
                 (svc_EnvVars (arr_get (service_arrays h) (bp_Services pb) i)) h)
            h (seq 0 (sl_len (bp_Services pb))) in
    (* Update references in environment group variables *)
    let h :=
      foldl (λ h i,
               updateEnvVarReferences databaseNameMap serviceNameMap
                 envGroupNameMap
                 (eg_EnvVars (arr_get (group_arrays h) (bp_EnvVarGroups pb) i)) h)
            h (seq 0 (sl_len (bp_EnvVarGroups pb))) in
    (* Update read replica names that reference the parent database *)
    h ← update_replicas prefix (bp_Databases pb) h;
    Some (h, prefixed).

(** [PrefixBlueprintWithSeparator] *)
Definition PrefixBlueprintWithSeparator (h : heap) (bp : option loc)
    (prefix separator : string) : option (heap * loc) :=
  let separator := if bool_decide (separator = "") then "-" else separator in
  PrefixBlueprint h bp (prefix +:+ separator).

(** ** Snapshots

    The value a blueprint denotes in a given heap, with every pointer
    followed: what a field-by-field comparison of two blueprints (the
    test helper [blueprintsEqual]) looks at. *)

Record EnvVarSnap := mkEnvVarSnap {
  es_Key : option string;
  es_Value : option string;
  es_GenerateValue : option bool;
  es_Sync : option bool;
  es_FromDatabase : option (string * string);
  es_FromService : option (string * string * option string * option string);
  es_FromGroup : option string }.

Record ServiceSnap := mkServiceSnap {
  ss_Name : string; ss_Type : string;
  ss_Runtime : option string; ss_Plan : option string;
  ss_EnvVars : list EnvVarSnap }.

Record DatabaseSnap := mkDatabaseSnap {
  ds_Name : string; ds_Plan : option string; ds_ReadReplicas : list string }.

Record EnvVarGroupSnap := mkEnvVarGroupSnap {
  gs_Name : string; gs_EnvVars : list EnvVarSnap }.

Record BlueprintSnap := mkBlueprintSnap {
  bs_Services : list ServiceSnap;
  bs_Databases : list DatabaseSnap;
  bs_EnvVarGroups : list EnvVarGroupSnap;
  bs_Previews : option string;
  bs_PreviewsExpireAfterDays : option Z }.

Definition snap_string (h : heap) (p : option loc) : option string :=
  cell_get (string_cells h) <$> p.

Definition snap_envvar (h : heap) (e : EnvVar) : EnvVarSnap :=
  mkEnvVarSnap
    (snap_string h (ev_Key e))
    (snap_string h (ev_Value e))
    (cell_get (bool_cells h) <$> ev_GenerateValue e)
    (cell_get (bool_cells h) <$> ev_Sync e)
    ((λ p, let fd := cell_get (fromdb_cells h) p in
           (fd_Name fd, fd_Property fd)) <$> ev_FromDatabase e)
    ((λ p, let fs := cell_get (fromsvc_cells h) p in
           (fs_Name fs, fs_Type fs, snap_string h (fs_Property fs),
            snap_string h (fs_EnvVarKey fs))) <$> ev_FromService e)
    (snap_string h (ev_FromGroup e)).

Definition snap_envvars (h : heap) (s : slice) : list EnvVarSnap :=
  snap_envvar h <$> arr_read (envvar_arrays h) s.

Definition snap_service (h : heap) (s : Service) : ServiceSnap :=
  mkServiceSnap (svc_Name s) (svc_Type s)
    (snap_string h (svc_Runtime s)) (snap_string h (svc_Plan s))
    (snap_envvars h (svc_EnvVars s)).

Definition snap_database (h : heap) (d : Database) : DatabaseSnap :=
  mkDatabaseSnap (db_Name d) (snap_string h (db_Plan d))
    (rr_Name <$> arr_read (replica_arrays h) (db_ReadReplicas d)).

Definition snap_group (h : heap) (g : EnvVarGroup) : EnvVarGroupSnap :=
  mkEnvVarGroupSnap (eg_Name g) (snap_envvars h (eg_EnvVars g)).

Definition snapshot (h : heap) (p : loc) : BlueprintSnap :=
  let bp := get_blueprint h p in
  mkBlueprintSnap
    (snap_service h <$> arr_read (service_arrays h) (bp_Services bp))
    (snap_database h <$> arr_read (database_arrays h) (bp_Databases bp))
    (snap_group h <$> arr_read (group_arrays h) (bp_EnvVarGroups bp))
    (pv_Generation <$> (cell_get (previews_cells h) <$> bp_Previews bp))
    (cell_get (int_cells h) <$> bp_PreviewsExpireAfterDays bp).

(** ** Observations on a blueprint *)

(** The optional singleton settings of a blueprint, as values: [None]
    when the blueprint is nil or the pointer is. *)
Definition previews_of (h : heap) (bp : option loc) : option Previews :=
  p ← bp; cell_get (previews_cells h) <$> bp_Previews (get_blueprint h p).

Definition expire_days_of (h : heap) (bp : option loc) : option Z :=
  p ← bp; cell_get (int_cells h) <$> bp_PreviewsExpireAfterDays (get_blueprint h p).

(** ** The conflict report in the words of the specification *)

(** The entries of the overlay, in their order, whose name some entry of
    the base has: one per collision. *)
Definition collisions (baseNames overlayNames : list string) : list string :=
  filter (λ n, n ∈ baseNames) overlayNames.

(** Service collisions first, then database collisions, then env-group
    collisions, each reported by its description. *)
Definition conflicts_spec (h : heap) (base overlay : option loc) : list string :=
  (String.append "service name conflict: " <$>
     collisions (svc_Name <$> GetServices h base)
                (svc_Name <$> GetServices h overlay))
  ++ (String.append "database name conflict: " <$>
        collisions (db_Name <$> GetDatabases h base)
                   (db_Name <$> GetDatabases h overlay))
  ++ (String.append "environment group name conflict: " <$>
        collisions (eg_Name <$> GetEnvVarGroups h base)
                   (eg_Name <$> GetEnvVarGroups h overlay)).

(** ** Frame conditions *)

(** Every cell that is live in [h] is live in [h'] with the same content:
    going from [h] to [h'] allocates and does not write. *)
Definition heap_extends (h h' : heap) : Prop :=
  blueprints h ⊆ blueprints h'
  ∧ service_arrays h ⊆ service_arrays h'
  ∧ database_arrays h ⊆ database_arrays h'
  ∧ group_arrays h ⊆ group_arrays h'
  ∧ envvar_arrays h ⊆ envvar_arrays h'
  ∧ replica_arrays h ⊆ replica_arrays h'
  ∧ fromdb_cells h ⊆ fromdb_cells h'
  ∧ fromsvc_cells h ⊆ fromsvc_cells h'
  ∧ string_cells h ⊆ string_cells h'
  ∧ bool_cells h ⊆ bool_cells h'
  ∧ previews_cells h ⊆ previews_cells h'
  ∧ int_cells h ⊆ int_cells h'.

(** A slice that is nil or whose backing array is not live in [m]. *)
Definition fresh_slice {A} (m : gmap loc (list A)) (s : slice) : Prop :=
  match sl_arr s with
  | Some l => m !! l = None
  | None => True
  end.

(** What [CopyBlueprint h (Some p)] returns: a new blueprint cell [r]
    over three new arrays that hold the entries of [p] by value, the two
    optional settings in new cells, and every other store as it was. *)
Record copy_post (h : heap) (p : loc) (h' : heap) (r : loc) : Prop := CopyPost {
  cp_blueprint : blueprints h !! r = None
    ∧ blueprints h' = <[r := get_blueprint h' r]> (blueprints h);
  cp_services : ∃ l, service_arrays h !! l = None
    ∧ service_arrays h' = <[l := GetServices h (Some p)]> (service_arrays h)
    ∧ bp_Services (get_blueprint h' r)
      = Slice (Some l) 0 (length (GetServices h (Some p)));
  cp_databases : ∃ l, database_arrays h !! l = None
    ∧ database_arrays h' = <[l := GetDatabases h (Some p)]> (database_arrays h)
    ∧ bp_Databases (get_blueprint h' r)
      = Slice (Some l) 0 (length (GetDatabases h (Some p)));
  cp_groups : ∃ l, group_arrays h !! l = None
    ∧ group_arrays h' = <[l := GetEnvVarGroups h (Some p)]> (group_arrays h)
    ∧ bp_EnvVarGroups (get_blueprint h' r)
      = Slice (Some l) 0 (length (GetEnvVarGroups h (Some p)));
  cp_previews : previews_cells h ⊆ previews_cells h'
    ∧ previews_of h' (Some r) = previews_of h (Some p)
    ∧ (∀ l, bp_Previews (get_blueprint h' r) = Some l → previews_cells h !! l = None);
  cp_expire : int_cells h ⊆ int_cells h'
    ∧ expire_days_of h' (Some r) = expire_days_of h (Some p)
    ∧ (∀ l, bp_PreviewsExpireAfterDays (get_blueprint h' r) = Some l
            → int_cells h !! l = None);
  cp_envvars : envvar_arrays h' = envvar_arrays h;
  cp_replicas : replica_arrays h' = replica_arrays h;
  cp_fromdb : fromdb_cells h' = fromdb_cells h;
  cp_fromsvc : fromsvc_cells h' = fromsvc_cells h;
  cp_strings : string_cells h' = string_cells h;
  cp_bools : bool_cells h' = bool_cells h }.

(** What a successful [MergeBlueprints h base overlay] returns. *)
Record merge_post (h : heap) (base overlay : option loc) (h' : heap) (r : loc)
    : Prop := MergePost {
  mp_services :
    GetServices h' (Some r) = GetServices h base ++ GetServices h overlay;
  mp_databases :
    GetDatabases h' (Some r) = GetDatabases h base ++ GetDatabases h overlay;
  mp_groups :
    GetEnvVarGroups h' (Some r)
    = GetEnvVarGroups h base ++ GetEnvVarGroups h overlay;
  mp_previews :
    previews_of h' (Some r)
    = match previews_of h overlay with
      | Some v => Some v
      | None => previews_of h base
      end;
  mp_expire :
    expire_days_of h' (Some r)
    = match expire_days_of h overlay with
      | Some v => Some v
      | None => expire_days_of h base
      end;
  mp_extends : heap_extends h h';
  mp_fresh_blueprint : blueprints h !! r = None;
  mp_fresh_services :
    fresh_slice (service_arrays h) (bp_Services (get_blueprint h' r));
  mp_fresh_databases :
    fresh_slice (database_arrays h) (bp_Databases (get_blueprint h' r));
  mp_fresh_groups :
    fresh_slice (group_arrays h) (bp_EnvVarGroups (get_blueprint h' r)) }.

(** ** Sample blueprints

    One heap holding the blueprints the examples below run on.

    - Blueprint 1: the blueprint of the test "prefix with internal
      references" (service "api" with a database, a service and a group
      reference, service "cache", database "main-db", group "shared"),
      with an external database reference, a read replica named after
      the database as in the README ("main-db-replica"), a second replica
      "prod-mail", and both preview settings.
    - Blueprint 2: an overlay with the single service "worker" and a
      preview policy of its own.
    - Blueprint 3: two services named "svc" among other defects.
    - Blueprint 4: two services built from one [EnvFromDatabase] value,
      so that both entries hold the same [*FromDatabase]; databases "db"
      and "p-db".
    - Blueprint 5: a service, a database and a group with empty names. *)
Definition sample_heap : heap :=
  Heap
    (* blueprints *)
    (<[1%positive := mkBlueprint (Slice (Some 1%positive) 0 2)
                       (Slice (Some 1%positive) 0 1) (Slice (Some 1%positive) 0 1)
                       (Some 1%positive) (Some 1%positive)]>
     (<[2%positive := mkBlueprint (Slice (Some 2%positive) 0 1) nil_slice nil_slice
                        (Some 2%positive) None]>
      (<[3%positive := mkBlueprint (Slice (Some 3%positive) 0 4)
                         (Slice (Some 3%positive) 0 2) nil_slice None None]>
       (<[4%positive := mkBlueprint (Slice (Some 4%positive) 0 2)
                          (Slice (Some 4%positive) 0 2) nil_slice None None]>
        {[5%positive := mkBlueprint (Slice (Some 5%positive) 0 2)
                          (Slice (Some 5%positive) 0 1)
                          (Slice (Some 5%positive) 0 1) None None]}))))
    (* []Service *)
    (<[1%positive := [mkService "api" "web" None None (Slice (Some 1%positive) 0 4);
                      mkService "cache" "keyvalue" None None nil_slice]]>
     (<[2%positive := [mkService "worker" "worker" (Some 6%positive) None nil_slice]]>
      (<[3%positive := [mkService "svc" "web" None None nil_slice;
                        mkService "" "" None None nil_slice;
                        mkService "svc" "worker" (Some 6%positive) None nil_slice;
                        mkService "other" "web" (Some 6%positive) None nil_slice]]>
       (<[4%positive := [mkService "api" "web" None None (Slice (Some 3%positive) 0 1);
                         mkService "worker" "worker" None None
                           (Slice (Some 4%positive) 0 1)]]>
        {[5%positive := [mkService "" "web" None None nil_slice;
                         mkService "api" "web" None None nil_slice]]}))))
    (* []Database *)
    (<[1%positive := [mkDatabase "main-db" None (Slice (Some 1%positive) 0 2)]]>
     (<[3%positive := [mkDatabase "db" None nil_slice;
                       mkDatabase "db" None nil_slice]]>
      (<[4%positive := [mkDatabase "db" None nil_slice;
                        mkDatabase "p-db" None nil_slice]]>
       {[5%positive := [mkDatabase "" None nil_slice]]})))
    (* []EnvVarGroup *)
    (<[1%positive := [mkEnvVarGroup "shared" (Slice (Some 2%positive) 0 1)]]>
     {[5%positive := [mkEnvVarGroup "" nil_slice]]})
    (* []EnvVar *)
    (<[1%positive := [mkEnvVar (Some 1%positive) None None None (Some 1%positive) None None;
                      mkEnvVar (Some 2%positive) None None None None (Some 1%positive) None;
                      mkEnvVar None None None None None None (Some 3%positive);
                      mkEnvVar (Some 4%positive) None None None (Some 2%positive) None None]]>
     (<[2%positive := [mkEnvVar (Some 5%positive) None None None (Some 3%positive) None None]]>
      (<[3%positive := [mkEnvVar (Some 1%positive) None None None (Some 4%positive) None None]]>
       {[4%positive := [mkEnvVar (Some 1%positive) None None None (Some 4%positive) None None]]})))
    (* []ReadReplica *)
    {[1%positive := [mkReadReplica "main-db-replica"; mkReadReplica "prod-mail"]]}
    (* FromDatabase *)
    (<[1%positive := mkFromDatabase "main-db" "connectionString"]>
     (<[2%positive := mkFromDatabase "external-db" "connectionString"]>
      (<[3%positive := mkFromDatabase "main-db" "connectionString"]>
       {[4%positive := mkFromDatabase "db" "connectionString"]})))
    (* FromService *)
    {[1%positive := mkFromService "cache" "keyvalue" None None]}
    (* strings *)
    (<[1%positive := "DATABASE_URL"]>
     (<[2%positive := "CACHE_URL"]>
      (<[3%positive := "shared"]>
       (<[4%positive := "EXTERNAL_DB_URL"]>
        (<[5%positive := "DB_URL"]> {[6%positive := "node"]})))))
    (* bools *)
    ∅
    (* Previews *)
    (<[1%positive := mkPreviews "automatic"]> {[2%positive := mkPreviews "none"]})
    (* ints *)
    {[1%positive := 30%Z]}.

(** ** The renaming loops, element by element *)

(** What one iteration of a renaming loop leaves in the element it
    visits. *)
Definition renamed_service (nameMap : gmap string string) (service : Service)
    : Service :=
  match nameMap !! svc_Name service with
  | Some newName =>
    mkService newName (svc_Type service) (svc_Runtime service)
      (svc_Plan service) (svc_EnvVars service)
  | None => service
  end.

Definition renamed_database (nameMap : gmap string string) (db : Database)
    : Database :=
  match nameMap !! db_Name db with
  | Some newName => mkDatabase newName (db_Plan db) (db_ReadReplicas db)
  | None => db
  end.

Definition renamed_group (nameMap : gmap string string) (group : EnvVarGroup)
    : EnvVarGroup :=
  match nameMap !! eg_Name group with
  | Some newName => mkEnvVarGroup newName (eg_EnvVars group)
  | None => group
  end.

(** ** PrefixBlueprint with the renaming loops in another order

    [PrefixBlueprint] runs its three renaming loops in the order
    services, databases, env-groups.  [PrefixBlueprint_in_order] is the
    same function with these loops run in the order given; everything
    else is as in [PrefixBlueprint]. *)
Inductive kind := KService | KDatabase | KEnvGroup.

Definition rename_kind (serviceNameMap databaseNameMap envGroupNameMap
    : gmap string string) (pb : Blueprint) (h : heap) (k : kind) : heap :=
  match k with
  | KService => rename_services serviceNameMap (bp_Services pb) h
  | KDatabase => rename_databases databaseNameMap (bp_Databases pb) h
  | KEnvGroup => rename_groups envGroupNameMap (bp_EnvVarGroups pb) h
  end.

Definition PrefixBlueprint_in_order (order : list kind) (h : heap)
    (bp : option loc) (prefix : string) : option (heap * loc) :=
  if bool_decide (bp = None) || bool_decide (prefix = "") then
    Some (CopyBlueprint h bp)
  else
    let '(h, prefixed) := CopyBlueprint h bp in
    let pb := get_blueprint h prefixed in
    let existingServiceNames :=
      collect_names svc_Name (arr_read (service_arrays h) (bp_Services pb)) in
    let existingDatabaseNames :=
      collect_names db_Name (arr_read (database_arrays h) (bp_Databases pb)) in
    let existingEnvGroupNames :=
      collect_names eg_Name (arr_read (group_arrays h) (bp_EnvVarGroups pb)) in
    let serviceNameMap := build_name_map prefix existingServiceNames in
    let databaseNameMap := build_name_map prefix existingDatabaseNames in
    let envGroupNameMap := build_name_map prefix existingEnvGroupNames in
    let h :=
      foldl (rename_kind serviceNameMap databaseNameMap envGroupNameMap pb)
            h order in
    let h :=
      foldl (λ h i,
               updateEnvVarReferences databaseNameMap serviceNameMap
                 envGroupNameMap
                 (svc_EnvVars (arr_get (service_arrays h) (bp_Services pb) i)) h)
            h (seq 0 (sl_len (bp_Services pb))) in
    let h :=
      foldl (λ h i,
               updateEnvVarReferences databaseNameMap serviceNameMap
                 envGroupNameMap
                 (eg_EnvVars (arr_get (group_arrays h) (bp_EnvVarGroups pb) i)) h)
            h (seq 0 (sl_len (bp_EnvVarGroups pb))) in
    h ← update_replicas prefix (bp_Databases pb) h;
    Some (h, prefixed).

(** ** A renamed entry

    An entry with the prefix put before its name and every other field
    (pointers and slice headers included) as it was. *)
Definition prefixed_service (prefix : string) (s : Service) : Service :=
  mkService (prefix +:+ svc_Name s) (svc_Type s) (svc_Runtime s) (svc_Plan s)
    (svc_EnvVars s).

Definition prefixed_database (prefix : string) (d : Database) : Database :=
  mkDatabase (prefix +:+ db_Name d) (db_Plan d) (db_ReadReplicas d).

Definition prefixed_group (prefix : string) (g : EnvVarGroup) : EnvVarGroup :=
  mkEnvVarGroup (prefix +:+ eg_Name g) (eg_EnvVars g).

(** ** A later change to a blueprint

    [bp.Previews.Generation = g], the assignment a caller may make on a
    blueprint it holds (nothing happens here when [bp.Previews] is nil,
    where Go would panic). *)
Definition assign_previews_generation (h : heap) (bp : loc) (g : string) : heap :=
  match bp_Previews (get_blueprint h bp) with
  | Some q => with_previews_cells (<[q := mkPreviews g]> (previews_cells h)) h
  | None => h
  end.

(** ** References

    Every [EnvVar] entry of a blueprint, in the order the reference
    loops of [PrefixBlueprint] visit them: the entries of each service,
    then the entries of each env-group. *)
Definition all_envvars (h : heap) (bp : option loc) : list EnvVar :=
  (GetServices h bp ≫= λ s, arr_read (envvar_arrays h) (svc_EnvVars s))
  ++ (GetEnvVarGroups h bp ≫= λ g, arr_read (envvar_arrays h) (eg_EnvVars g)).

(** What one visit of the reference loop leaves in a cell. *)
Definition rewritten_fromdb (nameMap : gmap string string) (fd : FromDatabase)
    : FromDatabase :=
  match nameMap !! fd_Name fd with
  | Some newName => mkFromDatabase newName (fd_Property fd)
  | None => fd
  end.

Definition rewritten_fromsvc (nameMap : gmap string string) (fs : FromService)
    : FromService :=
  match nameMap !! fs_Name fs with
  | Some newName =>
    mkFromService newName (fs_Type fs) (fs_Property fs) (fs_EnvVarKey fs)
  | None => fs
  end.

Definition rewritten_string (nameMap : gmap string string) (s : string)
    : string :=
  default s (nameMap !! s).

(** A reference name after prefixing, as the specification words it:
    prefixed when the name is defined in the blueprint for that kind,
    untouched otherwise. *)
Definition rewritten_name (prefix : string) (defined : list string)
    (n : string) : string :=
  if bool_decide (n ∈ defined) then prefix +:+ n else n.

(** All stores but the three stores of reference cells are the same. *)
Definition same_but_references (h h' : heap) : Prop :=
  blueprints h' = blueprints h
  ∧ service_arrays h' = service_arrays h
  ∧ database_arrays h' = database_arrays h
  ∧ group_arrays h' = group_arrays h
  ∧ envvar_arrays h' = envvar_arrays h
  ∧ replica_arrays h' = replica_arrays h
  ∧ bool_cells h' = bool_cells h
  ∧ previews_cells h' = previews_cells h
  ∧ int_cells h' = int_cells h.

(** All stores but the replica arrays are the same. *)
Definition same_but_replicas (h h' : heap) : Prop :=
  blueprints h' = blueprints h
  ∧ service_arrays h' = service_arrays h
  ∧ database_arrays h' = database_arrays h
  ∧ group_arrays h' = group_arrays h
  ∧ envvar_arrays h' = envvar_arrays h
  ∧ fromdb_cells h' = fromdb_cells h
  ∧ fromsvc_cells h' = fromsvc_cells h
  ∧ string_cells h' = string_cells h
  ∧ bool_cells h' = bool_cells h
  ∧ previews_cells h' = previews_cells h
  ∧ int_cells h' = int_cells h.

(** ** Further observations and statements

    What a nil blueprint denotes where the package treats it as an empty
    one ([CopyBlueprint(nil)], [MergeBlueprints] with a nil side). *)
Definition snapshot_of (h : heap) (bp : option loc) : BlueprintSnap :=
  match bp with
  | Some p => snapshot h p
  | None => mkBlueprintSnap [] [] [] None None
  end.

(** The stores below the three collections are the same in both heaps. *)
Definition same_nested (h h' : heap) : Prop :=
  envvar_arrays h' = envvar_arrays h
  ∧ replica_arrays h' = replica_arrays h
  ∧ fromdb_cells h' = fromdb_cells h
  ∧ fromsvc_cells h' = fromsvc_cells h
  ∧ string_cells h' = string_cells h
  ∧ bool_cells h' = bool_cells h.

(** A slice of a running program is nil or points to a live array, a
    pointer is nil or points to a live cell, and a blueprint pointer
    points to a live blueprint whose slices and pointers are such. *)
Definition live_slice {A} (m : gmap loc (list A)) (s : slice) : bool :=
  match sl_arr s with
  | Some l => bool_decide (is_Some (m !! l))
  | None => true
  end.

Definition live_ptr {A} (m : gmap loc A) (p : option loc) : bool :=
  match p with
  | Some l => bool_decide (is_Some (m !! l))
  | None => true
  end.

Definition live_blueprint (h : heap) (p : loc) : bool :=
  match blueprints h !! p with
  | Some b =>
    live_slice (service_arrays h) (bp_Services b)
    && live_slice (database_arrays h) (bp_Databases b)
    && live_slice (group_arrays h) (bp_EnvVarGroups b)
    && live_ptr (previews_cells h) (bp_Previews b)
    && live_ptr (int_cells h) (bp_PreviewsExpireAfterDays b)
  | None => false
  end.

(** [bp.Services[i].Name = name], [bp.Databases[i].Name = name] and
    [bp.EnvVarGroups[i].Name = name], the assignments of the test
    [TestCopyBlueprint]; [None] is the panic of an index out of range. *)
Definition assign_service_name (h : heap) (bp : loc) (i : nat) (name : string)
    : option heap :=
  let s := bp_Services (get_blueprint h bp) in
  if bool_decide (i < sl_len s)%nat then
    let x := arr_get (service_arrays h) s i in
    Some (with_service_arrays
            (arr_set (service_arrays h) s i
               (mkService name (svc_Type x) (svc_Runtime x) (svc_Plan x)
                  (svc_EnvVars x))) h)
  else None.

Definition assign_database_name (h : heap) (bp : loc) (i : nat) (name : string)
    : option heap :=
  let s := bp_Databases (get_blueprint h bp) in
  if bool_decide (i < sl_len s)%nat then
    let x := arr_get (database_arrays h) s i in
    Some (with_database_arrays
            (arr_set (database_arrays h) s i
               (mkDatabase name (db_Plan x) (db_ReadReplicas x))) h)
  else None.

Definition assign_group_name (h : heap) (bp : loc) (i : nat) (name : string)
    : option heap :=
  let s := bp_EnvVarGroups (get_blueprint h bp) in
  if bool_decide (i < sl_len s)%nat then
    let x := arr_get (group_arrays h) s i in
    Some (with_group_arrays
            (arr_set (group_arrays h) s i
               (mkEnvVarGroup name (eg_EnvVars x))) h)
  else None.


(** What [ValidateBlueprint] checks of a service, and of a blueprint:
    names distinct within each kind and no required field missing. *)
Definition complete_service (s : Service) : Prop :=
  svc_Name s ≠ "" ∧ svc_Type s ≠ ""
  ∧ (svc_Runtime s ≠ None ∨ svc_Type s = ServiceTypeKeyValue).

Definition valid_blueprint (h : heap) (bp : option loc) : Prop :=
  NoDup (svc_Name <$> GetServices h bp)
  ∧ NoDup (db_Name <$> GetDatabases h bp)
  ∧ NoDup (eg_Name <$> GetEnvVarGroups h bp)
  ∧ Forall complete_service (GetServices h bp)
  ∧ Forall (λ d, db_Name d ≠ "") (GetDatabases h bp)
  ∧ Forall (λ g, eg_Name g ≠ "") (GetEnvVarGroups h bp).

(** No name of a kind is defined by both blueprints. *)
Definition disjoint_names (h : heap) (base overlay : option loc) : Prop :=
  (∀ n, n ∈ svc_Name <$> GetServices h base →
        n ∉ svc_Name <$> GetServices h overlay)
  ∧ (∀ n, n ∈ db_Name <$> GetDatabases h base →
          n ∉ db_Name <$> GetDatabases h overlay)
  ∧ (∀ n, n ∈ eg_Name <$> GetEnvVarGroups h base →
          n ∉ eg_Name <$> GetEnvVarGroups h overlay).


(** A second heap, with two blueprints that pass [ValidateBlueprint].
    - Blueprint 1: services "api" (web, runtime "node", with a reference to
      database "db", to service "cache", to group "shared" and to a
      database "legacy-db" that the blueprint does not define) and "cache"
      (keyvalue), database "db" with a read replica, group "shared" whose
      entry refers to a service "mailer" defined elsewhere.
    - Blueprint 2: service "worker" (worker, runtime "node") that refers to
      database "db" and group "shared" of the other blueprint, database
      "queue-db", and an expiry of its own. *)
Definition stack_heap : heap :=
  Heap
    (* blueprints *)
    (<[1%positive := mkBlueprint (Slice (Some 1%positive) 0 2)
                       (Slice (Some 1%positive) 0 1) (Slice (Some 1%positive) 0 1)
                       (Some 1%positive) None]>
     {[2%positive := mkBlueprint (Slice (Some 2%positive) 0 1)
                       (Slice (Some 2%positive) 0 1) nil_slice
                       None (Some 1%positive)]})
    (* []Service *)
    (<[1%positive := [mkService "api" "web" (Some 1%positive) None
                        (Slice (Some 1%positive) 0 4);
                      mkService "cache" "keyvalue" None None nil_slice]]>
     {[2%positive := [mkService "worker" "worker" (Some 1%positive) None
                        (Slice (Some 3%positive) 0 2)]]})
    (* []Database *)
    (<[1%positive := [mkDatabase "db" None (Slice (Some 1%positive) 0 1)]]>
     {[2%positive := [mkDatabase "queue-db" None nil_slice]]})
    (* []EnvVarGroup *)
    {[1%positive := [mkEnvVarGroup "shared" (Slice (Some 2%positive) 0 1)]]}
    (* []EnvVar *)
    (<[1%positive := [mkEnvVar (Some 2%positive) None None None (Some 1%positive) None None;
                      mkEnvVar (Some 3%positive) None None None None (Some 1%positive) None;
                      mkEnvVar None None None None None None (Some 4%positive);
                      mkEnvVar (Some 5%positive) None None None (Some 2%positive) None None]]>
     (<[2%positive := [mkEnvVar (Some 6%positive) None None None None (Some 2%positive) None]]>
      {[3%positive := [mkEnvVar (Some 2%positive) None None None (Some 3%positive) None None;
                       mkEnvVar None None None None None None (Some 7%positive)]]}))
    (* []ReadReplica *)
    {[1%positive := [mkReadReplica "db-replica"]]}
    (* FromDatabase *)
    (<[1%positive := mkFromDatabase "db" "connectionString"]>
     (<[2%positive := mkFromDatabase "legacy-db" "connectionString"]>
      {[3%positive := mkFromDatabase "db" "connectionString"]}))
    (* FromService *)
    (<[1%positive := mkFromService "cache" "keyvalue" None None]>
     {[2%positive := mkFromService "mailer" "web" None None]})
    (* strings *)
    (<[1%positive := "node"]>
     (<[2%positive := "DATABASE_URL"]>
      (<[3%positive := "CACHE_URL"]>
       (<[4%positive := "shared"]>
        (<[5%positive := "LEGACY_URL"]>
         (<[6%positive := "MAILER_HOST"]> {[7%positive := "shared"]}))))))
    (* bools *)
    ∅
    (* Previews *)
    {[1%positive := mkPreviews "automatic"]}
    (* ints *)
    {[1%positive := 7%Z]}.


(** No service, database or env-group name of the blueprint begins with
    [prefix]. *)
Definition names_avoid_prefix (h : heap) (bp : option loc) (prefix : string)
    : bool :=
  forallb (λ n, negb (HasPrefix n prefix))
    ((svc_Name <$> GetServices h bp) ++ (db_Name <$> GetDatabases h bp)
     ++ (eg_Name <$> GetEnvVarGroups h bp)).


(** ** FindService, FindDatabase, FindEnvVarGroup

    [for i, x := range xs { if x.Name == name { return &xs[i] } }
     return nil]: the pointer [&xs[i]] is given by the index [i] of the
    element in the collection, nil by [None]; [i] counts the elements
    visited so far. *)
Fixpoint find_named {A} (name : A → string) (n : string) (i : nat)
    (xs : list A) : option nat :=
  match xs with
  | [] => None
  | x :: xs =>
    if bool_decide (name x = n) then Some i else find_named name n (S i) xs
  end.

Definition FindService (h : heap) (bp : option loc) (name : string)
    : option nat :=
  match bp with
  | None => None
  | Some p =>
    find_named svc_Name name 0
      (arr_read (service_arrays h) (bp_Services (get_blueprint h p)))
  end.

Definition FindDatabase (h : heap) (bp : option loc) (name : string)
    : option nat :=
  match bp with
  | None => None
  | Some p =>
    find_named db_Name name 0
      (arr_read (database_arrays h) (bp_Databases (get_blueprint h p)))
  end.

Definition FindEnvVarGroup (h : heap) (bp : option loc) (name : string)
    : option nat :=
  match bp with
  | None => None
  | Some p =>
    find_named eg_Name name 0
      (arr_read (group_arrays h) (bp_EnvVarGroups (get_blueprint h p)))
  end.

(** [r] is nil when no element of [names] is [n], and otherwise points to
    the first element that is. *)
Definition first_named (names : list string) (n : string) (r : option nat)
    : Prop :=
  match r with
  | None => n ∉ names
  | Some i => names !! i = Some n ∧ n ∉ take i names
  end.

(** A lookup in the second of two collections put one after the other. *)
Definition shifted (k : nat) (r : option nat) : option nat := (λ i, k + i) <$> r.


(** ** GetExternalReferences *)

(** The closure [checkEnvVarReferences]: it reads the three maps of
    existing names and adds to the three maps of external names, which
    are threaded here as (services, databases, env-groups). *)
Definition checkEnvVarReferences
    (existingServiceNames existingDatabaseNames existingEnvGroupNames
       : gmap string bool)
    (h : heap) (envVars : list EnvVar)
    (external : gmap string bool * gmap string bool * gmap string bool)
    : gmap string bool * gmap string bool * gmap string bool :=
  foldl (λ '(externalServices, externalDatabases, externalEnvGroups) envVar,
           (* Check database references *)
           let externalDatabases :=
             match ev_FromDatabase envVar with
             | Some p =>
               let name := fd_Name (cell_get (fromdb_cells h) p) in
               if negb (map_bool existingDatabaseNames name)
               then <[name := true]> externalDatabases
               else externalDatabases
             | None => externalDatabases
             end in
           (* Check service references *)
           let externalServices :=
             match ev_FromService envVar with
             | Some p =>
               let name := fs_Name (cell_get (fromsvc_cells h) p) in
               if negb (map_bool existingServiceNames name)
               then <[name := true]> externalServices
               else externalServices
             | None => externalServices
             end in
           (* Check environment group references *)
           let externalEnvGroups :=
             match ev_FromGroup envVar with
             | Some p =>
               let name := cell_get (string_cells h) p in
               if negb (map_bool existingEnvGroupNames name)
               then <[name := true]> externalEnvGroups
               else externalEnvGroups
             | None => externalEnvGroups
             end in
           (externalServices, externalDatabases, externalEnvGroups))
        external envVars.

(** [for name := range m { names = append(names, name) }]: the keys of
    the map, each once, in the order the map yields them (Go leaves that
    order open; here it is the order of [map_fold]). *)
Definition map_keys (m : gmap string bool) : list string :=
  map_fold (λ name _ names, names ++ [name]) [] m.

Definition GetExternalReferences (h : heap) (bp : option loc)
    : list string * list string * list string :=
  match bp with
  | None => ([], [], [])
  | Some p =>
    let bp := get_blueprint h p in
    let services := arr_read (service_arrays h) (bp_Services bp) in
    let databases := arr_read (database_arrays h) (bp_Databases bp) in
    let envVarGroups := arr_read (group_arrays h) (bp_EnvVarGroups bp) in
    (* Collect all names that exist in this blueprint *)
    let existingServiceNames := collect_names svc_Name services in
    let existingDatabaseNames := collect_names db_Name databases in
    let existingEnvGroupNames := collect_names eg_Name envVarGroups in
    (* Track external references *)
    let external : gmap string bool * gmap string bool * gmap string bool :=
      (∅, ∅, ∅) in
    (* Check references in service environment variables *)
    let external :=
      foldl (λ external service,
               checkEnvVarReferences existingServiceNames existingDatabaseNames
                 existingEnvGroupNames h
                 (arr_read (envvar_arrays h) (svc_EnvVars service)) external)
            external services in
    (* Check references in environment group variables *)
    let external :=
      foldl (λ external group,
               checkEnvVarReferences existingServiceNames existingDatabaseNames
                 existingEnvGroupNames h
                 (arr_read (envvar_arrays h) (eg_EnvVars group)) external)
            external envVarGroups in
    (* Convert maps to slices *)
    let '(externalServices, externalDatabases, externalEnvGroups) := external in
    (map_keys externalServices, map_keys externalDatabases,
     map_keys externalEnvGroups)
  end.

(** The names that the [EnvVar] entries of a blueprint refer to, by
    kind, in the order of the entries. *)
Definition referenced_services (h : heap) (bp : option loc) : list string :=
  (λ p, fs_Name (cell_get (fromsvc_cells h) p))
  <$> omap ev_FromService (all_envvars h bp).

Definition referenced_databases (h : heap) (bp : option loc) : list string :=
  (λ p, fd_Name (cell_get (fromdb_cells h) p))
  <$> omap ev_FromDatabase (all_envvars h bp).

Definition referenced_groups (h : heap) (bp : option loc) : list string :=
  cell_get (string_cells h) <$> omap ev_FromGroup (all_envvars h bp).


(** One of the three checks that the closure makes of an entry: the
    reference [get envVar], when there is one, read by [read], is
    recorded unless [existing] has the name. *)
Definition check_reference (existing : gmap string bool)
    (get : EnvVar → option loc) (read : loc → string)
    (external : gmap string bool) (envVar : EnvVar) : gmap string bool :=
  match get envVar with
  | Some p =>
    if negb (map_bool existing (read p)) then <[read p := true]> external
    else external
  | None => external
  end.


(** ** findAvailableName *)

(** [fmt.Sprintf("%s-%d", s, d)] *)
Definition Sprintf_s_d (s : string) (d : Z) : string := s +:+ "-" +:+ pretty d.

(** [for i := 2; ; i++ { candidate := ...; if !existingNames[candidate]
    { return candidate } }].  The loop has no bound of its own; [fuel]
    bounds the number of candidates that are tried and [None] stands for
    a loop that is still running when it is used up. *)
Fixpoint findAvailableName_from (fuel : nat) (baseName : string)
    (existingNames : gmap string bool) (i : Z) : option string :=
  match fuel with
  | O => None
  | S fuel =>
    let candidate := Sprintf_s_d baseName i in
    if negb (map_bool existingNames candidate) then Some candidate
    else findAvailableName_from fuel baseName existingNames (i + 1)
  end.

Definition findAvailableName (fuel : nat) (baseName : string)
    (existingNames : gmap string bool) : option string :=
  findAvailableName_from fuel baseName existingNames 2.


(** ** Pointers to strings

    The store of strings holds the string variables that exist on their
    own, such as the [groupName] whose address [EnvFromGroup] takes.  A
    [*string] may also be the address of a string field inside another
    object ([&bp.EnvVarGroups[0].Name], the [Name] of a read replica, the
    [Name] of a [FromDatabase]); such a pointer has no location in the
    store of strings, and a write through it would be a write to that
    object.  The statements about what [PrefixBlueprint] leaves in place
    are for blueprints whose [FromGroup] pointers are of the first kind:
    each is a live location of the store of strings. *)
Definition own_group_refs (h : heap) (bp : option loc) : bool :=
  forallb (λ p, bool_decide (is_Some (string_cells h !! p)))
    (omap ev_FromGroup (all_envvars h bp)).

(** * Properties *)

(** ** Stores *)

Section StoreFacts.
Context {A : Type} `{!Inhabited A}.
Implicit Types (m : gmap loc (list A)) (vs xs : list A) (s : slice).

Lemma lookup_default_seq vs :
  (λ i, default inhabitant (vs !! i)) <$> seq 0 (length vs) = vs.
Proof.
  apply list_eq. intros i. rw list_lookup_fmap.
  destruct (decide (i < length vs)) as [Hi|Hi].
  - rw lookup_seq_lt //=.
    destruct (lookup_lt_is_Some_2 vs i Hi) as [x ->]. done.
  - rw lookup_seq_ge; [lia|]. rw lookup_ge_None_2 //. lia.
Qed.

Lemma arr_read_whole m l vs :
  m !! l = Some vs → arr_read m (Slice (Some l) 0 (length vs)) = vs.
Proof.
  intros Hl. rw /arr_read /arr_get /= Hl /=. apply lookup_default_seq.
Qed.

Lemma fresh_lookup {B} (m : gmap loc B) : m !! fresh (dom m) = None.
Proof. apply not_elem_of_dom, is_fresh. Qed.

Lemma arr_alloc_read m vs :
  arr_read (arr_alloc m vs).1 (arr_alloc m vs).2 = vs.
Proof. apply arr_read_whole. by rw /= lookup_insert_eq. Qed.

Lemma arr_alloc_subseteq m vs : m ⊆ (arr_alloc m vs).1.
Proof. apply insert_subseteq, fresh_lookup. Qed.

Lemma cell_alloc_subseteq {B} (m : gmap loc B) v : m ⊆ (cell_alloc m v).1.
Proof. apply insert_subseteq, fresh_lookup. Qed.

Lemma go_append_read m s xs :
  arr_read (go_append m s xs).1 (go_append m s xs).2 = arr_read m s ++ xs.
Proof.
  destruct xs as [|x xs]; [by rw /= app_nil_r|].
  apply arr_alloc_read.
Qed.

Lemma go_append_subseteq m s xs : m ⊆ (go_append m s xs).1.
Proof.
  destruct xs as [|x xs]; [done|]. apply arr_alloc_subseteq.
Qed.
End StoreFacts.

(** ** Name sets and string facts *)

Lemma foldl_snoc_map {A B} (f : A → B) (xs : list A) (acc : list B) :
  foldl (λ acc x, acc ++ [f x]) acc xs = acc ++ (f <$> xs).
Proof.
  revert acc. induction xs as [|x xs IH]; intros acc; simpl.
  - by rw app_nil_r.
  - rw IH -app_assoc //.
Qed.

Lemma collect_names_from {A} (name : A → string) (xs : list A)
    (m : gmap string bool) (k : string) :
  map_bool (foldl (λ m x, <[name x := true]> m) m xs) k
  = bool_decide (k ∈ name <$> xs) || map_bool m k.
Proof.
  revert m. induction xs as [|x xs IH]; intros m.
  - case_bool_decide as Hin; [|done]. by apply elem_of_nil in Hin.
  - rw fmap_cons /= IH /map_bool.
    destruct (decide (k = name x)) as [->|Hne].
    + rw lookup_insert_eq /= orb_true_r bool_decide_eq_true_2 //. left.
    + rw lookup_insert_ne; [congruence|]. f_equal.
      apply bool_decide_ext. rw elem_of_cons. intuition congruence.
Qed.

Lemma map_bool_collect_names {A} (name : A → string) (xs : list A) k :
  map_bool (collect_names name xs) k = bool_decide (k ∈ name <$> xs).
Proof. rw /collect_names collect_names_from /map_bool lookup_empty /= orb_false_r //. Qed.

Lemma collect_names_lookup {A} (name : A → string) (xs : list A) k :
  k ∈ name <$> xs → collect_names name xs !! k = Some true.
Proof.
  intros Hin. pose proof (map_bool_collect_names name xs k) as H.
  rw bool_decide_eq_true_2 // in H. rw /map_bool in H.
  destruct (collect_names name xs !! k) as [[]|]; done.
Qed.

(** ** FindConflicts *)

Lemma report_conflicts_spec {A} (name : A → string) (what : string)
    (bs xs : list A) (acc : list string) :
  report_conflicts name what (collect_names name bs) xs acc
  = acc ++ (String.append what <$> collisions (name <$> bs) (name <$> xs)).
Proof.
  rw /report_conflicts /collisions.
  revert acc. induction xs as [|x xs IH]; intros acc.
  - by rw /= app_nil_r.
  - rw fmap_cons filter_cons /= IH map_bool_collect_names.
    case_bool_decide as Hin; case_decide; try done.
    rw fmap_cons -app_assoc //.
Qed.

Lemma collisions_nil_l (xs : list string) : collisions [] xs = [].
Proof.
  rw /collisions. induction xs as [|x xs IH]; [done|].
  rw filter_cons. case_decide as Hin; [|done]. by apply elem_of_nil in Hin.
Qed.

Lemma collisions_elem (bs os : list string) (n : string) :
  n ∈ collisions bs os ↔ n ∈ bs ∧ n ∈ os.
Proof. rw /collisions list_elem_of_filter //. Qed.

Lemma collisions_NoDup (bs os : list string) :
  NoDup os → NoDup (collisions bs os).
Proof. apply NoDup_filter. Qed.

(** C8. [FindConflicts] returns one description per same-kind name
    collision: service collisions first, then database collisions, then
    env-group collisions, and within a kind in the order of the overlay's
    entries; when either blueprint is nil the result is empty.  The
    collisions of a kind are the overlay's names that the base defines
    too, each once when the overlay's names are distinct. *)
Theorem FindConflicts_deterministic_order (h : heap) (base overlay : option loc) :
  FindConflicts h base overlay = conflicts_spec h base overlay
  ∧ FindConflicts h None overlay = []
  ∧ FindConflicts h base None = []
  ∧ (∀ bs os n, n ∈ collisions bs os ↔ n ∈ bs ∧ n ∈ os)
  ∧ (∀ bs os, NoDup os → NoDup (collisions bs os)).
Proof.
  split_and!; [|done|by destruct base|apply collisions_elem
               |apply collisions_NoDup].
  destruct base as [b|], overlay as [o|]; rw /conflicts_spec /=.
  - rw !report_conflicts_spec /= -app_assoc //.
  - done.
  - rw !collisions_nil_l //.
  - done.
Qed.

Lemma FindConflicts_deterministic_order_witness :
  FindConflicts sample_heap (Some 1%positive) (Some 1%positive)
  = ["service name conflict: api"; "service name conflict: cache";
     "database name conflict: main-db";
     "environment group name conflict: shared"]
  ∧ FindConflicts sample_heap (Some 3%positive) (Some 4%positive)
    = ["database name conflict: db"]
  ∧ NoDup (collisions ["db"; "db"] ["db"; "p-db"]).
Proof.
  destruct (FindConflicts_deterministic_order sample_heap (Some 1%positive)
              (Some 1%positive)) as (E1 & _ & _ & _ & Hn).
  destruct (FindConflicts_deterministic_order sample_heap (Some 3%positive)
              (Some 4%positive)) as (E2 & _).
  split; [rw E1; vm_compute; reflexivity|].
  split; [rw E2; vm_compute; reflexivity|].
  apply Hn. apply (bool_decide_unpack _). vm_compute. exact I.
Defined.

(** ** CopyBlueprint and MergeBlueprints *)

Lemma cell_get_insert {A} `{!Inhabited A} (m : gmap loc A) l v :
  cell_get (<[l := v]> m) l = v.
Proof. by rw /cell_get lookup_insert_eq. Qed.

(** Projections of a heap built by the setters, pairs and options. *)
Local Ltac heap_cbn :=
  cbn [fst snd blueprints service_arrays database_arrays group_arrays
       envvar_arrays replica_arrays fromdb_cells fromsvc_cells string_cells
       bool_cells previews_cells int_cells
       with_blueprints with_service_arrays with_database_arrays
       with_group_arrays with_replica_arrays with_fromdb_cells
       with_fromsvc_cells with_string_cells with_previews_cells with_int_cells
       bp_Services bp_Databases bp_EnvVarGroups bp_Previews
       bp_PreviewsExpireAfterDays sl_arr sl_off sl_len
       mbind option_bind fmap option_fmap option_map].

Lemma CopyBlueprint_post (h : heap) (p : loc) :
  copy_post h p (CopyBlueprint h (Some p)).1 (CopyBlueprint h (Some p)).2.
Proof.
  rw /CopyBlueprint /make_copy /arr_alloc /alloc_blueprint /cell_alloc.
  set (bp := get_blueprint h p). heap_cbn.
  destruct (bp_Previews bp) as [q|] eqn:Hq;
    destruct (bp_PreviewsExpireAfterDays bp) as [q'|] eqn:Hq';
    heap_cbn;
    (constructor;
     rw /previews_of /expire_days_of /get_blueprint;
     heap_cbn; rw ?cell_get_insert; heap_cbn;
     [ split; [apply fresh_lookup|reflexivity]
     | eexists; split; [apply fresh_lookup|split; reflexivity]
     | eexists; split; [apply fresh_lookup|split; reflexivity]
     | eexists; split; [apply fresh_lookup|split; reflexivity]
     | change (cell_get (blueprints h) p) with bp; rw Hq; heap_cbn;
       rw ?cell_get_insert;
       (split; [first [reflexivity | apply insert_subseteq, fresh_lookup]|]);
       (split; [reflexivity|]);
       first [ by intros ? [= <-]; apply fresh_lookup | by intros ? [=] ]
     | change (cell_get (blueprints h) p) with bp; rw Hq'; heap_cbn;
       rw ?cell_get_insert;
       (split; [first [reflexivity | apply insert_subseteq, fresh_lookup]|]);
       (split; [reflexivity|]);
       first [ by intros ? [= <-]; apply fresh_lookup | by intros ? [=] ]
     | reflexivity | reflexivity | reflexivity | reflexivity | reflexivity
     | reflexivity ]).
Qed.

Lemma copy_post_services h p h' r :
  copy_post h p h' r → GetServices h' (Some r) = GetServices h (Some p).
Proof.
  intros [_ (l & _ & Hm & Hs) _ _ _ _ _ _ _ _ _ _].
  rw {1}/GetServices Hs Hm. apply arr_read_whole, lookup_insert_eq.
Qed.

Lemma copy_post_databases h p h' r :
  copy_post h p h' r → GetDatabases h' (Some r) = GetDatabases h (Some p).
Proof.
  intros [_ _ (l & _ & Hm & Hs) _ _ _ _ _ _ _ _ _].
  rw {1}/GetDatabases Hs Hm. apply arr_read_whole, lookup_insert_eq.
Qed.

Lemma copy_post_groups h p h' r :
  copy_post h p h' r → GetEnvVarGroups h' (Some r) = GetEnvVarGroups h (Some p).
Proof.
  intros [_ _ _ (l & _ & Hm & Hs) _ _ _ _ _ _ _ _].
  rw {1}/GetEnvVarGroups Hs Hm. apply arr_read_whole, lookup_insert_eq.
Qed.

Lemma copy_post_extends h p h' r : copy_post h p h' r → heap_extends h h'.
Proof.
  intros [[Hr Hb] (ls & Hls & Hs & _) (ld & Hld & Hd & _) (lg & Hlg & Hg & _)
            [Hp _] [Hi _] He Hrr Hfd Hfs Hst Hbo].
  rw /heap_extends Hb Hs Hd Hg He Hrr Hfd Hfs Hst Hbo.
  split_and!; try done; by apply insert_subseteq.
Qed.

Lemma copy_post_fresh h p h' r :
  copy_post h p h' r →
  blueprints h !! r = None
  ∧ fresh_slice (service_arrays h) (bp_Services (get_blueprint h' r))
  ∧ fresh_slice (database_arrays h) (bp_Databases (get_blueprint h' r))
  ∧ fresh_slice (group_arrays h) (bp_EnvVarGroups (get_blueprint h' r)).
Proof.
  intros [[Hr _] (ls & Hls & _ & Hs) (ld & Hld & _ & Hd) (lg & Hlg & _ & Hg)
            _ _ _ _ _ _ _ _].
  by rw /fresh_slice Hs Hd Hg.
Qed.

Lemma go_append_inv {A} `{!Inhabited A} (m m' : gmap loc (list A))
    (s s' : slice) (xs : list A) :
  go_append m s xs = (m', s') →
  arr_read m' s' = arr_read m s ++ xs
  ∧ m ⊆ m'
  ∧ (∀ m0, m0 ⊆ m → fresh_slice m0 s → fresh_slice m0 s').
Proof.
  intros E. pose proof (go_append_read m s xs) as Hr.
  pose proof (go_append_subseteq m s xs) as Hsub. rw E /= in Hr Hsub.
  split_and!; [done..|]. intros m0 Hm0 Hs.
  destruct xs as [|x xs]; [by simplify_eq/=|].
  rw /go_append /arr_alloc in E. simplify_eq.
  rw /fresh_slice /=. eapply lookup_weaken_None; [apply fresh_lookup|done].
Qed.

Lemma heap_extends_refl h : heap_extends h h.
Proof. rw /heap_extends. by split_and!. Qed.

Lemma alloc_blueprint_extends h b :
  heap_extends h (alloc_blueprint h b).1
  ∧ blueprints h !! (alloc_blueprint h b).2 = None
  ∧ get_blueprint (alloc_blueprint h b).1 (alloc_blueprint h b).2 = b.
Proof.
  rw /alloc_blueprint /cell_alloc /heap_extends /get_blueprint /= cell_get_insert.
  split_and!; try done; [apply insert_subseteq|]; apply fresh_lookup.
Qed.

Lemma copy_post_merge_l h p h' r :
  copy_post h p h' r → merge_post h (Some p) None h' r.
Proof.
  intros Hc. destruct (copy_post_fresh _ _ _ _ Hc) as (? & ? & ? & ?).
  constructor; try done.
  - rw (copy_post_services _ _ _ _ Hc) /= app_nil_r //.
  - rw (copy_post_databases _ _ _ _ Hc) /= app_nil_r //.
  - rw (copy_post_groups _ _ _ _ Hc) /= app_nil_r //.
  - by destruct Hc as [_ _ _ _ (_ & -> & _) _ _ _ _ _ _ _].
  - by destruct Hc as [_ _ _ _ _ (_ & -> & _) _ _ _ _ _ _].
  - exact (copy_post_extends _ _ _ _ Hc).
Qed.

Lemma copy_post_merge_r h p h' r :
  copy_post h p h' r → merge_post h None (Some p) h' r.
Proof.
  intros Hc. destruct (copy_post_fresh _ _ _ _ Hc) as (? & ? & ? & ?).
  constructor; try done.
  - by rw (copy_post_services _ _ _ _ Hc).
  - by rw (copy_post_databases _ _ _ _ Hc).
  - by rw (copy_post_groups _ _ _ _ Hc).
  - destruct Hc as [_ _ _ _ (_ & -> & _) _ _ _ _ _ _ _].
    by destruct (previews_of h (Some p)).
  - destruct Hc as [_ _ _ _ _ (_ & -> & _) _ _ _ _ _ _].
    by destruct (expire_days_of h (Some p)).
  - exact (copy_post_extends _ _ _ _ Hc).
Qed.

Lemma MergeBlueprints_post (h : heap) (base overlay : option loc) (h' : heap)
    (r : loc) :
  MergeBlueprints h base overlay = (h', Merged r) →
  merge_post h base overlay h' r.
Proof.
  destruct base as [pb|], overlay as [po|]; rw /MergeBlueprints.
  - case_bool_decide as Hc; [done|].
    set (base := get_blueprint h pb). set (overlay := get_blueprint h po).
    destruct (go_append (service_arrays h) nil_slice _) as [ms1 ss1] eqn:Es1.
    destruct (go_append ms1 ss1 _) as [ms2 ss2] eqn:Es2.
    destruct (go_append (database_arrays _) nil_slice _) as [md1 sd1] eqn:Ed1.
    destruct (go_append md1 sd1 _) as [md2 sd2] eqn:Ed2.
    destruct (go_append (group_arrays _) nil_slice _) as [mg1 sg1] eqn:Eg1.
    destruct (go_append mg1 sg1 _) as [mg2 sg2] eqn:Eg2.
    simpl in *.
    apply go_append_inv in Es1 as (Rs1 & Ss1 & Fs1).
    apply go_append_inv in Es2 as (Rs2 & Ss2 & Fs2).
    apply go_append_inv in Ed1 as (Rd1 & Sd1 & Fd1).
    apply go_append_inv in Ed2 as (Rd2 & Sd2 & Fd2).
    apply go_append_inv in Eg1 as (Rg1 & Sg1 & Fg1).
    apply go_append_inv in Eg2 as (Rg2 & Sg2 & Fg2).
    intros [= <- <-].
    constructor;
      rw /GetServices /GetDatabases /GetEnvVarGroups /previews_of
         /expire_days_of /get_blueprint /= ?cell_get_insert /=.
    + by rw Rs2 Rs1.
    + by rw Rd2 Rd1.
    + by rw Rg2 Rg1.
    + fold (get_blueprint h po) (get_blueprint h pb). fold base overlay.
      by destruct (bp_Previews overlay).
    + fold (get_blueprint h po) (get_blueprint h pb). fold base overlay.
      by destruct (bp_PreviewsExpireAfterDays overlay).
    + rw /heap_extends /=. split_and!; try done.
      * apply insert_subseteq, fresh_lookup.
      * by trans ms1.
      * by trans md1.
      * by trans mg1.
    + apply fresh_lookup.
    + apply Fs2; [done|]. by apply Fs1.
    + apply Fd2; [done|]. by apply Fd1.
    + apply Fg2; [done|]. by apply Fg1.
  - rw (surjective_pairing (CopyBlueprint h (Some pb))). intros [= <- <-].
    apply copy_post_merge_l, CopyBlueprint_post.
  - rw (surjective_pairing (CopyBlueprint h (Some po))). intros [= <- <-].
    apply copy_post_merge_r, CopyBlueprint_post.
  - rw (surjective_pairing (alloc_blueprint h _)). intros [= <- <-].
    destruct (alloc_blueprint_extends h
                (mkBlueprint nil_slice nil_slice nil_slice None None))
      as (He & Hf & Hg).
    constructor; try done;
      rw /GetServices /GetDatabases /GetEnvVarGroups /previews_of
         /expire_days_of /= Hg //.
Qed.

Lemma MergeBlueprints_merged_no_conflicts h base overlay h' r :
  MergeBlueprints h base overlay = (h', Merged r) →
  FindConflicts h base overlay = [].
Proof.
  destruct base as [pb|], overlay as [po|]; try done.
  rw /MergeBlueprints. case_bool_decide as Hc; [done|]. intros _.
  destruct (FindConflicts _ _ _); [done|]. simpl in Hc. lia.
Qed.

Lemma MergeBlueprints_error_conflicts h base overlay h' msg :
  MergeBlueprints h base overlay = (h', MergeError msg) →
  FindConflicts h base overlay ≠ [].
Proof.
  destruct base as [pb|], overlay as [po|]; rw /MergeBlueprints.
  - case_bool_decide as Hc.
    + intros _ E. rw E /= in Hc. lia.
    + repeat match goal with
             | |- context [go_append ?m ?s ?xs] =>
               destruct (go_append m s xs) as [? ?]
             end.
      destruct (alloc_blueprint _ _). intros [=].
  - destruct (CopyBlueprint _ _). intros [=].
  - destruct (CopyBlueprint _ _). intros [=].
  - destruct (alloc_blueprint _ _). intros [=].
Qed.

Lemma MergeBlueprints_succeeds h base overlay :
  FindConflicts h base overlay = [] →
  ∃ h' r, MergeBlueprints h base overlay = (h', Merged r).
Proof.
  intros Hc. destruct (MergeBlueprints h base overlay) as [h' [r|msg]] eqn:E.
  - by exists h', r.
  - by apply MergeBlueprints_error_conflicts in E.
Qed.

(** C3. [MergeBlueprints] returns an error exactly when [FindConflicts]
    reports something; when it succeeds, each collection of the result is
    the base's entries followed by the overlay's, in their order, so its
    length is the sum of the two lengths. *)
Theorem MergeBlueprints_conflict_detection (h : heap) (base overlay : option loc) :
  match MergeBlueprints h base overlay with
  | (_, MergeError _) => FindConflicts h base overlay ≠ []
  | (h', Merged r) =>
    FindConflicts h base overlay = []
    ∧ GetServices h' (Some r) = GetServices h base ++ GetServices h overlay
    ∧ GetDatabases h' (Some r) = GetDatabases h base ++ GetDatabases h overlay
    ∧ GetEnvVarGroups h' (Some r)
      = GetEnvVarGroups h base ++ GetEnvVarGroups h overlay
    ∧ length (GetServices h' (Some r))
      = length (GetServices h base) + length (GetServices h overlay)
    ∧ length (GetDatabases h' (Some r))
      = length (GetDatabases h base) + length (GetDatabases h overlay)
    ∧ length (GetEnvVarGroups h' (Some r))
      = length (GetEnvVarGroups h base) + length (GetEnvVarGroups h overlay)
  end.
Proof.
  destruct (MergeBlueprints h base overlay) as [h' [r|msg]] eqn:E.
  - pose proof (MergeBlueprints_merged_no_conflicts _ _ _ _ _ E) as Hc.
    destruct (MergeBlueprints_post _ _ _ _ _ E) as [Hs Hd Hg _ _ _ _ _ _ _].
    rw Hs Hd Hg !length_app //.
  - exact (MergeBlueprints_error_conflicts _ _ _ _ _ E).
Qed.

(** C7. For conflict-free blueprints the merge succeeds and each optional
    singleton of the result (preview policy, preview expiry days) has the
    overlay's value when the overlay sets one and the base's value
    otherwise; in particular the overlay's preview policy wins when both
    set one. *)
Theorem MergeBlueprints_overlay_precedence (h : heap) (base overlay : option loc) :
  FindConflicts h base overlay = [] →
  ∃ h' r,
    MergeBlueprints h base overlay = (h', Merged r)
    ∧ previews_of h' (Some r)
      = match previews_of h overlay with
        | Some v => Some v
        | None => previews_of h base
        end
    ∧ expire_days_of h' (Some r)
      = match expire_days_of h overlay with
        | Some v => Some v
        | None => expire_days_of h base
        end
    ∧ (∀ v w, previews_of h base = Some v → previews_of h overlay = Some w →
              previews_of h' (Some r) = Some w).
Proof.
  intros Hc. destruct (MergeBlueprints_succeeds _ _ _ Hc) as (h' & r & E).
  exists h', r. destruct (MergeBlueprints_post _ _ _ _ _ E) as [_ _ _ Hp He _ _ _ _ _].
  split_and!; try done. intros v w _ Hw. by rw Hp Hw.
Qed.

Lemma MergeBlueprints_overlay_precedence_witness :
  FindConflicts sample_heap (Some 1%positive) (Some 2%positive) = []
  ∧ ∃ h' r,
      MergeBlueprints sample_heap (Some 1%positive) (Some 2%positive)
      = (h', Merged r)
      ∧ previews_of h' (Some r) = Some (mkPreviews "none")
      ∧ expire_days_of h' (Some r) = Some 30%Z.
Proof.
  split; [vm_compute; reflexivity|].
  destruct (MergeBlueprints_overlay_precedence sample_heap (Some 1%positive)
              (Some 2%positive)) as (h' & r & E & Hp & He & _);
    [vm_compute; reflexivity|].
  exists h', r. split; [exact E|]. split.
  - rw Hp. vm_compute. reflexivity.
  - rw He. vm_compute. reflexivity.
Defined.

(** ** ValidateBlueprint *)

Lemma string_app_inj (s a b : string) : s +:+ a = s +:+ b → a = b.
Proof. induction s as [|c s IH]; simpl; [done|]. intros [= ?]. auto. Qed.

Lemma filter_snoc_ne {A} (P : A → Prop) `{!∀ x, Decision (P x)} (l : list A) x :
  ¬ P x → filter P (l ++ [x]) = filter P l.
Proof.
  intros Hx. rw filter_app filter_cons. case_decide; [done|].
  by rw filter_nil app_nil_r.
Qed.

Lemma filter_snoc_eq {A} (P : A → Prop) `{!∀ x, Decision (P x)} (l : list A) x :
  P x → filter P (l ++ [x]) = filter P l ++ [x].
Proof.
  intros Hx. rw filter_app filter_cons. case_decide; [|done].
  by rw filter_nil.
Qed.

(** The duplicate check reports a name once for each entry that carries
    it after the first one. *)
Lemma check_duplicates_count {A} (name : A → string) (what n : string)
    (xs : list A) (errors : list string) (names : gmap string bool) :
  length (filter (λ e, e = what +:+ n)
            (foldl (λ '(errors, names) x,
                      let errors :=
                        if map_bool names (name x)
                        then errors ++ [what +:+ name x]
                        else errors in
                      (errors, <[name x := true]> names))
                   (errors, names) xs).1)
  = length (filter (λ e, e = what +:+ n) errors)
    + (if map_bool names n
       then length (filter (λ x, name x = n) xs)
       else pred (length (filter (λ x, name x = n) xs))).
Proof.
  revert errors names. induction xs as [|x xs IH]; intros errors names.
  - simpl. destruct (map_bool names n); simpl; lia.
  - rw /= IH filter_cons /=. clear IH.
    assert (map_bool (<[name x:=true]> names) n
            = bool_decide (name x = n) || map_bool names n) as ->.
    { rw /map_bool. case_bool_decide as Hn.
      - by rw Hn lookup_insert_eq.
      - by rw lookup_insert_ne. }
    case_decide as Hn.
    + rw bool_decide_eq_true_2 //= Hn.
      destruct (map_bool names n) eqn:Hseen.
      * rw filter_snoc_eq // length_app /=. lia.
      * simpl. lia.
    + rw bool_decide_eq_false_2 //=.
      destruct (map_bool names (name x)); [|done].
      rw filter_snoc_ne //. by intros ?%string_app_inj.
Qed.

Lemma check_duplicates_entries {A} (name : A → string) (what n : string)
    (xs : list A) (errors : list string) :
  length (filter (λ e, e = what +:+ n) (check_duplicates name what xs errors))
  = length (filter (λ e, e = what +:+ n) errors)
    + pred (length (filter (λ x, name x = n) xs)).
Proof.
  rw /check_duplicates check_duplicates_count /map_bool lookup_empty //.
Qed.

(** A loop that only appends entries different from [msg] leaves the
    number of entries equal to [msg] as it was. *)
Lemma foldl_count_other {A} (f : list string → A → list string)
    (msg : string) (xs : list A) (errors : list string) :
  (∀ acc x, length (filter (λ e, e = msg) (f acc x))
            = length (filter (λ e, e = msg) acc)) →
  length (filter (λ e, e = msg) (foldl f errors xs))
  = length (filter (λ e, e = msg) errors).
Proof.
  intros Hf. revert errors. induction xs as [|x xs IH]; intros errors; [done|].
  by rw /= IH Hf.
Qed.

Lemma check_duplicates_other {A} (name : A → string) (what msg : string)
    (xs : list A) (errors : list string) :
  (∀ n, what +:+ n ≠ msg) →
  length (filter (λ e, e = msg) (check_duplicates name what xs errors))
  = length (filter (λ e, e = msg) errors).
Proof.
  intros Hne. rw /check_duplicates.
  generalize (∅ : gmap string bool). revert errors.
  induction xs as [|x xs IH]; intros errors names; [done|].
  rw /= IH. destruct (map_bool names (name x)); [|done].
  by rw filter_snoc_ne.
Qed.

Lemma check_service_other (n : string) (errors : list string) (service : Service) :
  length (filter (λ e, e = "duplicate service name: " +:+ n)
            (check_service errors service))
  = length (filter (λ e, e = "duplicate service name: " +:+ n) errors).
Proof.
  rw /check_service.
  repeat match goal with
         | |- context [if ?b then _ else _] => destruct b
         end;
    rw ?filter_snoc_ne //.
Qed.

Lemma ValidateBlueprint_duplicate_count (h : heap) (p : loc) (n : string) :
  length (filter (λ e, e = "duplicate service name: " +:+ n)
            (ValidateBlueprint h (Some p)))
  = pred (length (filter (λ s, svc_Name s = n) (GetServices h (Some p)))).
Proof.
  rw /ValidateBlueprint /GetServices.
  rw foldl_count_other.
  { intros acc g. case_bool_decide; [|done]. by rw filter_snoc_ne. }
  rw foldl_count_other.
  { intros acc d. case_bool_decide; [|done]. by rw filter_snoc_ne. }
  rw foldl_count_other.
  { intros acc s. apply check_service_other. }
  rw check_duplicates_other. { by intros m. }
  rw check_duplicates_other. { by intros m. }
  by rw check_duplicates_entries.
Qed.

(** C9. A blueprint with exactly two services named "svc" gets exactly
    one defect reporting "svc" as a duplicate service name, whatever
    other defects are reported with it. *)
Theorem ValidateBlueprint_duplicate_service (h : heap) (p : loc) :
  length (filter (λ s, svc_Name s = "svc") (GetServices h (Some p))) = 2 →
  length (filter (λ e, e = "duplicate service name: svc")
            (ValidateBlueprint h (Some p))) = 1.
Proof.
  intros Hc.
  change "duplicate service name: svc" with ("duplicate service name: " +:+ "svc").
  by rw ValidateBlueprint_duplicate_count Hc.
Qed.

Lemma ValidateBlueprint_duplicate_service_witness :
  length (filter (λ s, svc_Name s = "svc")
            (GetServices sample_heap (Some 3%positive))) = 2
  ∧ length (filter (λ e, e = "duplicate service name: svc")
              (ValidateBlueprint sample_heap (Some 3%positive))) = 1
  ∧ length (ValidateBlueprint sample_heap (Some 3%positive)) = 6.
Proof.
  split; [vm_compute; reflexivity|]. split.
  - apply (ValidateBlueprint_duplicate_service sample_heap 3%positive).
    vm_compute. reflexivity.
  - vm_compute. reflexivity.
Defined.

(** ** Updating every element of an array in place *)

Section UpdateAll.
Context {A : Type} `{!Inhabited A}.
Implicit Types (m : gmap loc (list A)) (xs : list A) (s : slice).

(** Writing back the element just read changes nothing. *)
Lemma arr_set_get m s i : arr_set m s i (arr_get m s i) = m.
Proof.
  rw /arr_set /arr_get. destruct (sl_arr s) as [l|]; [|done].
  apply map_eq. intros l'. rw lookup_alter. case_decide as Hl; [|done].
  subst l'. destruct (m !! l) as [ys|] eqn:E; simpl; [|done].
  f_equal. destruct (ys !! (sl_off s + i)) as [y|] eqn:Ey; simpl.
  - by apply list_insert_id.
  - apply list_insert_ge. by apply lookup_ge_None.
Qed.

(** A loop [for i := range s { s[i] = upd(s[i]) }] over a slice that
    spans its whole backing array maps [upd] over the array. *)
Lemma foldl_update_prefix (upd : A → A) m (l : loc) xs (k : nat) :
  (k ≤ length xs)%nat →
  foldl (λ m i, arr_set m (Slice (Some l) 0 (length xs)) i
                  (upd (arr_get m (Slice (Some l) 0 (length xs)) i)))
        (<[l := xs]> m) (seq 0 k)
  = <[l := (upd <$> take k xs) ++ drop k xs]> m.
Proof.
  induction k as [|k IH]; intros Hk.
  - by rw /= drop_0.
  - rw seq_S foldl_app IH /=; [lia|].
    destruct (lookup_lt_is_Some_2 xs k) as [x Hx]; [lia|].
    rw /arr_get /arr_set /= lookup_insert_eq /=.
    rw (drop_S _ _ _ Hx) (take_S_r _ _ _ Hx) fmap_app /=.
    assert (length (upd <$> take k xs) = k) as Hlen.
    { rw length_fmap length_take. lia. }
    rw lookup_app_r Hlen; [lia|]. rw Nat.sub_diag /=.
    rw alter_insert_eq. f_equal.
    rw insert_app_r_alt Hlen; [lia|]. rw Nat.sub_diag /= -app_assoc //.
Qed.

Lemma foldl_update_all (upd : A → A) m (l : loc) xs :
  foldl (λ m i, arr_set m (Slice (Some l) 0 (length xs)) i
                  (upd (arr_get m (Slice (Some l) 0 (length xs)) i)))
        (<[l := xs]> m) (seq 0 (length xs))
  = <[l := upd <$> xs]> m.
Proof.
  rw foldl_update_prefix; [done|]. by rw firstn_all drop_all app_nil_r.
Qed.
End UpdateAll.

(** ** The renaming loops of PrefixBlueprint *)

Lemma with_service_arrays_id h : with_service_arrays (service_arrays h) h = h.
Proof. by destruct h. Qed.
Lemma with_database_arrays_id h : with_database_arrays (database_arrays h) h = h.
Proof. by destruct h. Qed.
Lemma with_group_arrays_id h : with_group_arrays (group_arrays h) h = h.
Proof. by destruct h. Qed.

(** Each renaming loop reads and writes one store only. *)
Lemma rename_services_store nameMap s h :
  rename_services nameMap s h
  = with_service_arrays
      (foldl (λ m i, arr_set m s i (renamed_service nameMap (arr_get m s i)))
             (service_arrays h) (seq 0 (sl_len s))) h.
Proof.
  rw /rename_services. generalize (seq 0 (sl_len s)) as idx.
  intros idx. revert h. induction idx as [|i idx IH]; intros h.
  - by rw /= with_service_arrays_id.
  - rw /= IH /renamed_service.
    destruct (nameMap !! _); [done|].
    by rw arr_set_get.
Qed.

Lemma rename_databases_store nameMap s h :
  rename_databases nameMap s h
  = with_database_arrays
      (foldl (λ m i, arr_set m s i (renamed_database nameMap (arr_get m s i)))
             (database_arrays h) (seq 0 (sl_len s))) h.
Proof.
  rw /rename_databases. generalize (seq 0 (sl_len s)) as idx.
  intros idx. revert h. induction idx as [|i idx IH]; intros h.
  - by rw /= with_database_arrays_id.
  - rw /= IH /renamed_database.
    destruct (nameMap !! _); [done|].
    by rw arr_set_get.
Qed.

Lemma rename_groups_store nameMap s h :
  rename_groups nameMap s h
  = with_group_arrays
      (foldl (λ m i, arr_set m s i (renamed_group nameMap (arr_get m s i)))
             (group_arrays h) (seq 0 (sl_len s))) h.
Proof.
  rw /rename_groups. generalize (seq 0 (sl_len s)) as idx.
  intros idx. revert h. induction idx as [|i idx IH]; intros h.
  - by rw /= with_group_arrays_id.
  - rw /= IH /renamed_group.
    destruct (nameMap !! _); [done|].
    by rw arr_set_get.
Qed.

(** Hence the three loops commute: any order gives the heap that the
    order of the source gives. *)
Lemma rename_in_any_order sm dm gm pb h (order : list kind) :
  order ≡ₚ [KService; KDatabase; KEnvGroup] →
  foldl (rename_kind sm dm gm pb) h order
  = rename_groups gm (bp_EnvVarGroups pb)
      (rename_databases dm (bp_Databases pb)
         (rename_services sm (bp_Services pb) h)).
Proof.
  intros Hp.
  assert (KService ∈ order ∧ KDatabase ∈ order ∧ KEnvGroup ∈ order)
    as (HS & HD & HG).
  { rw !Hp !elem_of_cons. tauto. }
  pose proof (Permutation_length Hp) as Hlen.
  destruct order as [|k1 [|k2 [|k3 [|]]]]; try done. clear Hp Hlen.
  rw !elem_of_cons !elem_of_nil in HS HD HG.
  rw /= !rename_services_store !rename_databases_store !rename_groups_store.
  destruct k1, k2, k3; try (exfalso; intuition congruence);
    by rw /= ?rename_services_store ?rename_databases_store
          ?rename_groups_store.
Qed.

(** ** The name maps *)

Lemma build_name_map_lookup (prefix : string) (existing : gmap string bool)
    (k : string) :
  build_name_map prefix existing !! k
  = (λ _, prefix +:+ k) <$> existing !! k.
Proof.
  rw /build_name_map.
  apply (map_fold_weak_ind
           (λ r (m : gmap string bool), r !! k = (λ _, prefix +:+ k) <$> m !! k)).
  - by rw !lookup_empty.
  - intros i x m r Hi IH. destruct (decide (i = k)) as [->|Hne].
    + by rw !lookup_insert_eq.
    + by rw !lookup_insert_ne.
Qed.

(** Every name collected from the entries is a key of the name map. *)
Lemma name_map_defined {A} (name : A → string) (prefix : string)
    (xs : list A) (x : A) :
  x ∈ xs →
  build_name_map prefix (collect_names name xs) !! name x
  = Some (prefix +:+ name x).
Proof.
  intros Hx. rw build_name_map_lookup collect_names_lookup //.
  by apply list_elem_of_fmap_2.
Qed.

Lemma name_map_undefined {A} (name : A → string) (prefix : string)
    (xs : list A) (k : string) :
  k ∉ name <$> xs →
  build_name_map prefix (collect_names name xs) !! k = None.
Proof.
  intros Hk. rw build_name_map_lookup.
  pose proof (map_bool_collect_names name xs k) as Hb.
  rw bool_decide_eq_false_2 // /map_bool in Hb.
  destruct (collect_names name xs !! k) as [[]|] eqn:E; try done.
  exfalso. clear Hb. revert E. rw /collect_names.
  assert (∀ m : gmap string bool, (∀ j, m !! j = Some false → False) →
            foldl (λ m x, <[name x := true]> m) m xs !! k = Some false → False)
    as Hgen.
  { clear. induction xs as [|x xs IH]; intros m Hm; simpl; [apply Hm|].
    apply IH. intros j. destruct (decide (name x = j)) as [->|Hne].
    - by rw lookup_insert_eq.
    - rw lookup_insert_ne //. apply Hm. }
  apply Hgen. intros j. by rw lookup_empty.
Qed.

(** ** Strings *)

Lemma string_length_app (s t : string) :
  String.length (s +:+ t) = (String.length s + String.length t)%nat.
Proof. induction s as [|c s IH]; [done|]. exact (f_equal S IH). Qed.

Lemma string_app_empty_r (s : string) : s +:+ "" = s.
Proof. induction s as [|c s IH]; [done|]. exact (f_equal (String c) IH). Qed.

Lemma slice_to_prefixed (prefix old : string) :
  is_Some (slice_to (prefix +:+ old)
             (Z.of_nat (String.length (prefix +:+ old))
              - Z.of_nat (String.length prefix))).
Proof.
  rw /slice_to string_length_app. rw bool_decide_eq_true_2; [lia|]. by eexists.
Qed.

(** The library functions on the strings of the examples. *)
Example Replace1_first_occurrence :
  Replace1 "main-db-replica" "main-db" "prod-main-db" = "prod-main-db-replica"
  ∧ Replace1 "a-b-a" "a" "c" = "c-b-a"
  ∧ Replace1 "replica-of-db" "db" "p-db" = "replica-of-p-db"
  ∧ Replace1 "xyz" "q" "r" = "xyz"
  ∧ Replace1 "abc" "" "x" = "xabc".
Proof. by split_and!. Qed.

Example slice_to_bounds :
  slice_to "prod-main-db" 7 = Some "prod-ma"
  ∧ slice_to "abc" 0 = Some ""
  ∧ slice_to "abc" 3 = Some "abc"
  ∧ slice_to "abc" 4 = None
  ∧ slice_to "abc" (-1) = None.
Proof. by split_and!. Qed.

(** ** Frames of the reference and replica loops *)

Lemma same_but_references_refl h : same_but_references h h.
Proof. by rw /same_but_references. Qed.

Lemma same_but_references_trans h1 h2 h3 :
  same_but_references h1 h2 → same_but_references h2 h3 →
  same_but_references h1 h3.
Proof.
  rw /same_but_references.
  intros (-> & -> & -> & -> & -> & -> & -> & -> & ->)
         (-> & -> & -> & -> & -> & -> & -> & -> & ->). done.
Qed.

Lemma same_but_replicas_refl h : same_but_replicas h h.
Proof. by rw /same_but_replicas. Qed.

Lemma same_but_replicas_trans h1 h2 h3 :
  same_but_replicas h1 h2 → same_but_replicas h2 h3 → same_but_replicas h1 h3.
Proof.
  rw /same_but_replicas.
  intros (-> & -> & -> & -> & -> & -> & -> & -> & -> & -> & ->)
         (-> & -> & -> & -> & -> & -> & -> & -> & -> & -> & ->). done.
Qed.

Lemma update_references_frame dm sm gm e h :
  same_but_references h (update_references dm sm gm e h).
Proof.
  rw /update_references.
  repeat match goal with
         | |- context [match ?x with _ => _ end] => destruct x
         end; by rw /same_but_references.
Qed.

Lemma foldl_update_references_frame dm sm gm (es : list EnvVar) h :
  same_but_references h (foldl (λ h e, update_references dm sm gm e h) h es).
Proof.
  revert h. induction es as [|e es IH]; intros h.
  - apply same_but_references_refl.
  - simpl. eapply same_but_references_trans; [|apply IH].
    apply update_references_frame.
Qed.

(** The reference loop over a slice visits its entries in order; the
    entries themselves are never written. *)
Lemma updateEnvVarReferences_entries dm sm gm (s : slice) h :
  updateEnvVarReferences dm sm gm s h
  = foldl (λ h e, update_references dm sm gm e h) h
          (arr_read (envvar_arrays h) s).
Proof.
  rw /updateEnvVarReferences /arr_read.
  generalize (seq 0 (sl_len s)) as idx. intros idx. revert h.
  induction idx as [|i idx IH]; intros h; [done|].
  rw fmap_cons /= IH {2}/update_envvar.
  by destruct (update_references_frame dm sm gm
                 (arr_get (envvar_arrays h) s i) h)
    as (_ & _ & _ & _ & -> & _).
Qed.

Lemma references_of_services dm sm gm (s : slice) h :
  foldl (λ h i,
           updateEnvVarReferences dm sm gm
             (svc_EnvVars (arr_get (service_arrays h) s i)) h)
        h (seq 0 (sl_len s))
  = foldl (λ h e, update_references dm sm gm e h) h
          (arr_read (service_arrays h) s
             ≫= λ x, arr_read (envvar_arrays h) (svc_EnvVars x)).
Proof.
  rw /arr_read. generalize (seq 0 (sl_len s)) as idx. intros idx. revert h.
  induction idx as [|i idx IH]; intros h; [done|].
  rw fmap_cons bind_cons foldl_app /= IH updateEnvVarReferences_entries.
  by destruct (foldl_update_references_frame dm sm gm
                 (arr_read (envvar_arrays h)
                    (svc_EnvVars (arr_get (service_arrays h) s i))) h)
    as (_ & -> & _ & _ & -> & _).
Qed.

Lemma references_of_groups dm sm gm (s : slice) h :
  foldl (λ h i,
           updateEnvVarReferences dm sm gm
             (eg_EnvVars (arr_get (group_arrays h) s i)) h)
        h (seq 0 (sl_len s))
  = foldl (λ h e, update_references dm sm gm e h) h
          (arr_read (group_arrays h) s
             ≫= λ x, arr_read (envvar_arrays h) (eg_EnvVars x)).
Proof.
  rw /arr_read. generalize (seq 0 (sl_len s)) as idx. intros idx. revert h.
  induction idx as [|i idx IH]; intros h; [done|].
  rw fmap_cons bind_cons foldl_app /= IH updateEnvVarReferences_entries.
  by destruct (foldl_update_references_frame dm sm gm
                 (arr_read (envvar_arrays h)
                    (eg_EnvVars (arr_get (group_arrays h) s i))) h)
    as (_ & _ & _ & -> & -> & _).
Qed.

(** The replica loops never panic on a database whose name starts with
    the prefix, and write replica arrays only. *)
Lemma update_replica_ok (prefix old : string) (db : Database) (js : list nat)
    (h : heap) :
  db_Name db = prefix +:+ old →
  ∃ h', foldl (update_replica prefix db) (Some h) js = Some h'
        ∧ same_but_replicas h h'.
Proof.
  intros Hn. revert h. induction js as [|j js IH]; intros h.
  - exists h. split; [done|apply same_but_replicas_refl].
  - simpl. destruct (slice_to_prefixed prefix old) as [cut Hcut].
    rw Hn Hcut /=.
    destruct (HasPrefix _ cut); simpl.
    + edestruct IH as (h' & E & Hs). exists h'. split; [exact E|].
      revert Hs. by rw /same_but_replicas /=.
    + apply IH.
Qed.

Lemma update_replicas_ok (prefix : string) (databases : slice) (h : heap) :
  (∀ i, (i < sl_len databases)%nat → ∃ old,
     db_Name (arr_get (database_arrays h) databases i) = prefix +:+ old) →
  ∃ h', update_replicas prefix databases h = Some h' ∧ same_but_replicas h h'.
Proof.
  rw /update_replicas. intros Hn.
  assert (∀ i, i ∈ seq 0 (sl_len databases) → ∃ old,
            db_Name (arr_get (database_arrays h) databases i) = prefix +:+ old)
    as Hidx.
  { intros i Hi%elem_of_seq. apply Hn. lia. }
  clear Hn. revert Hidx. generalize (seq 0 (sl_len databases)) as idx.
  intros idx. revert h. induction idx as [|i idx IH]; intros h Hn.
  - exists h. split; [done|apply same_but_replicas_refl].
  - simpl. destruct (Hn i) as [old Hold]; [left|].
    destruct (update_replica_ok prefix old _
                (seq 0 (sl_len (db_ReadReplicas
                                  (arr_get (database_arrays h) databases i))))
                h Hold) as (h1 & E1 & Hs1).
    rw E1. destruct (IH h1) as (h2 & E2 & Hs2).
    { intros k Hk. destruct Hs1 as (_ & _ & -> & _). apply Hn. by right. }
    exists h2. split; [done|]. exact (same_but_replicas_trans _ _ _ Hs1 Hs2).
Qed.

(** ** What the reference loops leave in the cells *)

(** A loop that rewrites the cell each entry points to leaves every cell
    that is pointed to once rewritten once. *)
Lemma foldl_cells_once {A X} `{!Inhabited A} (proj : X → gmap loc A)
    (key : EnvVar → option loc) (g : A → A) (step : EnvVar → X → X) :
  (∀ e x q, cell_get (proj (step e x)) q
            = if decide (key e = Some q) then g (cell_get (proj x) q)
              else cell_get (proj x) q) →
  ∀ (es : list EnvVar) (x : X) (q : loc),
    NoDup (omap key es) →
    cell_get (proj (foldl (λ x e, step e x) x es)) q
    = if decide (q ∈ omap key es) then g (cell_get (proj x) q)
      else cell_get (proj x) q.
Proof.
  intros Hstep es. induction es as [|e es IH]; intros x q Hnd.
  - destruct (decide (q ∈ omap key [])) as [Hin|_]; [|done].
    by apply elem_of_nil in Hin.
  - assert (omap key (e :: es)
            = match key e with
              | Some p => p :: omap key es
              | None => omap key es
              end) as Hcons by done.
    rw Hcons in Hnd |- *. cbn [foldl].
    destruct (key e) as [p|] eqn:Hk.
    + apply NoDup_cons in Hnd as [Hp Hnd]. rw IH // Hstep Hk.
      destruct (decide (Some p = Some q)) as [[= ->]|Hne].
      * destruct (decide (q ∈ omap key es)) as [Hin|_]; [done|].
        destruct (decide (q ∈ q :: omap key es)) as [_|Hn]; [done|].
        exfalso. apply Hn. left.
      * destruct (decide (q ∈ omap key es)) as [Hin|Hin];
          destruct (decide (q ∈ p :: omap key es)) as [Hin'|Hin']; try done.
        -- exfalso. apply Hin'. by right.
        -- apply elem_of_cons in Hin' as [->|Hin'']; done.
    + rw IH // Hstep Hk. destruct (decide (None = Some q)) as [?|_]; done.
Qed.

Lemma update_references_fromdb dm sm gm e h q :
  cell_get (fromdb_cells (update_references dm sm gm e h)) q
  = if decide (ev_FromDatabase e = Some q)
    then rewritten_fromdb dm (cell_get (fromdb_cells h) q)
    else cell_get (fromdb_cells h) q.
Proof.
  assert (fromdb_cells (update_references dm sm gm e h)
          = match ev_FromDatabase e with
            | Some p =>
              match dm !! fd_Name (cell_get (fromdb_cells h) p) with
              | Some newName =>
                <[p := mkFromDatabase newName
                         (fd_Property (cell_get (fromdb_cells h) p))]>
                  (fromdb_cells h)
              | None => fromdb_cells h
              end
            | None => fromdb_cells h
            end) as ->.
  { rw /update_references.
    destruct (ev_FromDatabase e) as [pd|]; [destruct (dm !! _)|]; heap_cbn;
      (destruct (ev_FromService e) as [ps|]; [destruct (sm !! _)|]; heap_cbn);
      (destruct (ev_FromGroup e) as [pg|]; [destruct (gm !! _)|]; heap_cbn);
      done. }
  destruct (ev_FromDatabase e) as [p|];
    [|by destruct (decide (None = Some q))].
  destruct (decide (Some p = Some q)) as [[= ->]|Hne].
  - rw /rewritten_fromdb. destruct (dm !! _); [|done]. by rw cell_get_insert.
  - destruct (dm !! _); [|done]. rw /cell_get lookup_insert_ne //. congruence.
Qed.

Lemma update_references_fromsvc dm sm gm e h q :
  cell_get (fromsvc_cells (update_references dm sm gm e h)) q
  = if decide (ev_FromService e = Some q)
    then rewritten_fromsvc sm (cell_get (fromsvc_cells h) q)
    else cell_get (fromsvc_cells h) q.
Proof.
  assert (fromsvc_cells (update_references dm sm gm e h)
          = match ev_FromService e with
            | Some p =>
              match sm !! fs_Name (cell_get (fromsvc_cells h) p) with
              | Some newName =>
                <[p := mkFromService newName
                         (fs_Type (cell_get (fromsvc_cells h) p))
                         (fs_Property (cell_get (fromsvc_cells h) p))
                         (fs_EnvVarKey (cell_get (fromsvc_cells h) p))]>
                  (fromsvc_cells h)
              | None => fromsvc_cells h
              end
            | None => fromsvc_cells h
            end) as ->.
  { rw /update_references.
    destruct (ev_FromDatabase e) as [pd|]; [destruct (dm !! _)|]; heap_cbn;
      (destruct (ev_FromService e) as [ps|]; [destruct (sm !! _)|]; heap_cbn);
      (destruct (ev_FromGroup e) as [pg|]; [destruct (gm !! _)|]; heap_cbn);
      done. }
  destruct (ev_FromService e) as [p|];
    [|by destruct (decide (None = Some q))].
  destruct (decide (Some p = Some q)) as [[= ->]|Hne].
  - rw /rewritten_fromsvc. destruct (sm !! _); [|done]. by rw cell_get_insert.
  - destruct (sm !! _); [|done]. rw /cell_get lookup_insert_ne //. congruence.
Qed.

Lemma update_references_string dm sm gm e h q :
  cell_get (string_cells (update_references dm sm gm e h)) q
  = if decide (ev_FromGroup e = Some q)
    then rewritten_string gm (cell_get (string_cells h) q)
    else cell_get (string_cells h) q.
Proof.
  assert (string_cells (update_references dm sm gm e h)
          = match ev_FromGroup e with
            | Some p =>
              match gm !! cell_get (string_cells h) p with
              | Some newName => <[p := newName]> (string_cells h)
              | None => string_cells h
              end
            | None => string_cells h
            end) as ->.
  { rw /update_references.
    destruct (ev_FromDatabase e) as [pd|]; [destruct (dm !! _)|]; heap_cbn;
      (destruct (ev_FromService e) as [ps|]; [destruct (sm !! _)|]; heap_cbn);
      (destruct (ev_FromGroup e) as [pg|]; [destruct (gm !! _)|]; heap_cbn);
      done. }
  destruct (ev_FromGroup e) as [p|];
    [|by destruct (decide (None = Some q))].
  destruct (decide (Some p = Some q)) as [[= ->]|Hne].
  - rw /rewritten_string. destruct (gm !! _); [|done]. by rw cell_get_insert.
  - destruct (gm !! _); [|done]. rw /cell_get lookup_insert_ne //. congruence.
Qed.

(** ** PrefixBlueprint: one run *)

Lemma renamed_service_prefixed prefix (xs : list Service) :
  renamed_service (build_name_map prefix (collect_names svc_Name xs)) <$> xs
  = prefixed_service prefix <$> xs.
Proof.
  apply list_fmap_ext. intros i x Hx%list_elem_of_lookup_2.
  by rw /renamed_service name_map_defined.
Qed.

Lemma renamed_database_prefixed prefix (xs : list Database) :
  renamed_database (build_name_map prefix (collect_names db_Name xs)) <$> xs
  = prefixed_database prefix <$> xs.
Proof.
  apply list_fmap_ext. intros i x Hx%list_elem_of_lookup_2.
  by rw /renamed_database name_map_defined.
Qed.

Lemma renamed_group_prefixed prefix (xs : list EnvVarGroup) :
  renamed_group (build_name_map prefix (collect_names eg_Name xs)) <$> xs
  = prefixed_group prefix <$> xs.
Proof.
  apply list_fmap_ext. intros i x Hx%list_elem_of_lookup_2.
  by rw /renamed_group name_map_defined.
Qed.

(** With a non-empty prefix [PrefixBlueprint] returns.  The collections
    of the result are the renamed entries; the entries of the [EnvVars]
    arrays are never written; and the reference cells of the final heap
    are those left by visiting every [EnvVar] entry of the argument once
    per occurrence, starting from cells that hold what they held before
    the call. *)
Lemma PrefixBlueprint_run (h : heap) (d : loc) (prefix : string) :
  prefix ≠ "" →
  ∃ h' r h4,
    PrefixBlueprint h (Some d) prefix = Some (h', r)
    ∧ GetServices h' (Some r)
      = prefixed_service prefix <$> GetServices h (Some d)
    ∧ GetDatabases h' (Some r)
      = prefixed_database prefix <$> GetDatabases h (Some d)
    ∧ GetEnvVarGroups h' (Some r)
      = prefixed_group prefix <$> GetEnvVarGroups h (Some d)
    ∧ envvar_arrays h' = envvar_arrays h
    ∧ heap_extends h h4
    ∧ fromdb_cells h4 = fromdb_cells h
    ∧ fromsvc_cells h4 = fromsvc_cells h
    ∧ string_cells h4 = string_cells h
    ∧ same_but_references h4
        (foldl (λ hx e,
                  update_references
                    (build_name_map prefix
                       (collect_names db_Name (GetDatabases h (Some d))))
                    (build_name_map prefix
                       (collect_names svc_Name (GetServices h (Some d))))
                    (build_name_map prefix
                       (collect_names eg_Name (GetEnvVarGroups h (Some d))))
                    e hx)
               h4 (all_envvars h (Some d)))
    ∧ same_but_replicas
        (foldl (λ hx e,
                  update_references
                    (build_name_map prefix
                       (collect_names db_Name (GetDatabases h (Some d))))
                    (build_name_map prefix
                       (collect_names svc_Name (GetServices h (Some d))))
                    (build_name_map prefix
                       (collect_names eg_Name (GetEnvVarGroups h (Some d))))
                    e hx)
               h4 (all_envvars h (Some d)))
        h'.
Proof.
  intros Hp. rw /PrefixBlueprint.
  rw (bool_decide_eq_false_2 (Some d = None)) //.
  rw (bool_decide_eq_false_2 (prefix = "")) //. cbn [orb].
  pose proof (CopyBlueprint_post h d) as Hc.
  destruct (CopyBlueprint h (Some d)) as [h1 r]. simpl in Hc.
  cbv beta iota zeta.
  pose proof (copy_post_extends _ _ _ _ Hc) as Hext.
  destruct Hc as [[Hr Hb] (ls & Hls & Hs & Hss) (ld & Hld & Hd & Hds)
                   (lg & Hlg & Hg & Hgs) _ _ Hev _ Hfd Hfs Hst _].
  rw /all_envvars.
  set (S := GetServices h (Some d)) in *.
  set (D := GetDatabases h (Some d)) in *.
  set (G := GetEnvVarGroups h (Some d)) in *.
  set (pb := get_blueprint h1 r) in *.
  rw Hss Hds Hgs.
  rw (arr_read_whole (service_arrays h1) ls S); [by rw Hs lookup_insert_eq|].
  rw (arr_read_whole (database_arrays h1) ld D); [by rw Hd lookup_insert_eq|].
  rw (arr_read_whole (group_arrays h1) lg G); [by rw Hg lookup_insert_eq|].
  rw rename_services_store rename_databases_store rename_groups_store /=.
  rw Hs Hd Hg !foldl_update_all.
  rw renamed_service_prefixed renamed_database_prefixed renamed_group_prefixed.
  set (h4 := with_group_arrays _ _).
  set (dm := build_name_map prefix (collect_names db_Name D)).
  set (sm := build_name_map prefix (collect_names svc_Name S)).
  set (gm := build_name_map prefix (collect_names eg_Name G)).
  rw (references_of_services dm sm gm (Slice (Some ls) 0 (length S)) h4).
  set (ES := arr_read (service_arrays h4) _ ≫= _).
  set (h5 := foldl _ h4 ES).
  rw (references_of_groups dm sm gm (Slice (Some lg) 0 (length G)) h5).
  pose proof (foldl_update_references_frame dm sm gm ES h4) as H45.
  fold h5 in H45.
  destruct H45 as (E5b & E5s & E5d & E5g & E5e & _).
  rw E5g E5e -foldl_app.
  assert (ES ++ (arr_read (group_arrays h4) (Slice (Some lg) 0 (length G))
                   ≫= λ x, arr_read (envvar_arrays h4) (eg_EnvVars x))
          = (S ≫= λ s, arr_read (envvar_arrays h) (svc_EnvVars s))
            ++ (G ≫= λ g, arr_read (envvar_arrays h) (eg_EnvVars g))) as ->.
  { rw /ES /h4 /= Hev.
    rw -{1}(length_fmap (prefixed_service prefix) S).
    rw -{1}(length_fmap (prefixed_group prefix) G).
    rw (arr_read_whole _ ls (prefixed_service prefix <$> S));
      [apply lookup_insert_eq|].
    rw (arr_read_whole _ lg (prefixed_group prefix <$> G));
      [apply lookup_insert_eq|].
    by rw !list_fmap_bind. }
  set (h6 := foldl _ h4 _).
  pose proof (foldl_update_references_frame dm sm gm
                ((S ≫= λ s, arr_read (envvar_arrays h) (svc_EnvVars s))
                 ++ (G ≫= λ g, arr_read (envvar_arrays h) (eg_EnvVars g)))
                h4) as H46.
  fold h6 in H46.
  destruct (update_replicas_ok prefix (Slice (Some ld) 0 (length D)) h6)
    as (h' & E & H6').
  { intros i Hi. destruct H46 as (_ & _ & -> & _).
    rw /h4 /arr_get /= lookup_insert_eq /= list_lookup_fmap.
    destruct (lookup_lt_is_Some_2 D i Hi) as [x ->]. by eexists. }
  exists h', r, h4. rw E /=. split; [done|].
  pose proof H46 as (Eb & Es & Ed & Eg & Ee & _).
  pose proof H6' as (Eb' & Es' & Ed' & Eg' & Ee' & _).
  assert (GetServices h' (Some r) = prefixed_service prefix <$> S
          ∧ GetDatabases h' (Some r) = prefixed_database prefix <$> D
          ∧ GetEnvVarGroups h' (Some r) = prefixed_group prefix <$> G)
    as (A1 & A2 & A3).
  { rw /GetServices /GetDatabases /GetEnvVarGroups.
    rw /get_blueprint Eb' Es' Ed' Eg' Eb Es Ed Eg /h4 /=.
    fold (get_blueprint h1 r). fold pb.
    rw Hss Hds Hgs.
    rw -(length_fmap (prefixed_service prefix) S).
    rw -(length_fmap (prefixed_database prefix) D).
    rw -(length_fmap (prefixed_group prefix) G).
    split_and!; apply arr_read_whole, lookup_insert_eq. }
  split; [exact A1|]. split; [exact A2|]. split; [exact A3|].
  split; [by rw Ee' Ee|].
  split.
  { destruct Hext as (? & ? & ? & ? & ? & ? & ? & ? & ? & ? & ? & ?).
    rw /heap_extends /h4 /=. split_and!; try done; by apply insert_subseteq. }
  split; [exact Hfd|]. split; [exact Hfs|]. split; [exact Hst|].
  split; [exact H46|]. exact H6'.
Qed.

Lemma PrefixBlueprint_post (h : heap) (d : loc) (prefix : string) :
  prefix ≠ "" →
  ∃ h' r,
    PrefixBlueprint h (Some d) prefix = Some (h', r)
    ∧ GetServices h' (Some r)
      = prefixed_service prefix <$> GetServices h (Some d)
    ∧ GetDatabases h' (Some r)
      = prefixed_database prefix <$> GetDatabases h (Some d)
    ∧ GetEnvVarGroups h' (Some r)
      = prefixed_group prefix <$> GetEnvVarGroups h (Some d).
Proof.
  intros Hp. destruct (PrefixBlueprint_run h d prefix Hp)
    as (h' & r & h4 & E & Hs & Hd & Hg & _).
  by exists h', r.
Qed.

(** What [PrefixBlueprint] may write of the heap it was given: reference
    cells and replica arrays.  The blueprint cells, the three top-level
    arrays (hence every name of the argument), the [EnvVars] arrays and
    the cells of the scalar settings are left as they were. *)
Lemma PrefixBlueprint_frame (h : heap) (d : loc) (prefix : string) :
  prefix ≠ "" →
  ∃ h' r,
    PrefixBlueprint h (Some d) prefix = Some (h', r)
    ∧ blueprints h ⊆ blueprints h'
    ∧ service_arrays h ⊆ service_arrays h'
    ∧ database_arrays h ⊆ database_arrays h'
    ∧ group_arrays h ⊆ group_arrays h'
    ∧ envvar_arrays h' = envvar_arrays h
    ∧ bool_cells h ⊆ bool_cells h'
    ∧ previews_cells h ⊆ previews_cells h'
    ∧ int_cells h ⊆ int_cells h'.
Proof.
  intros Hp. destruct (PrefixBlueprint_run h d prefix Hp)
    as (h' & r & h4 & E & _ & _ & _ & He & Hext & _ & _ & _ & Hrefs & Hrep).
  exists h', r. split; [done|].
  destruct Hext as (Xb & Xs & Xd & Xg & _ & _ & _ & _ & _ & Xo & Xp & Xi).
  destruct Hrefs as (Rb & Rs & Rd & Rg & _ & _ & Ro & Rp & Ri).
  destruct Hrep as (Pb & Ps & Pd & Pg & _ & _ & _ & _ & Po & Pp & Pi).
  rw Pb Ps Pd Pg Po Pp Pi Rb Rs Rd Rg Ro Rp Ri. by split_and!.
Qed.

(** ** PrefixBlueprint: the references, when no cell is shared *)

Lemma name_map_lookup {A} (name : A → string) (prefix : string)
    (xs : list A) (k : string) :
  build_name_map prefix (collect_names name xs) !! k
  = if bool_decide (k ∈ name <$> xs) then Some (prefix +:+ k) else None.
Proof.
  case_bool_decide as Hk.
  - apply list_elem_of_fmap in Hk as (x & -> & Hx). by apply name_map_defined.
  - by apply name_map_undefined.
Qed.

Lemma rewritten_fromdb_name {A} (name : A → string) prefix (xs : list A) fd :
  rewritten_fromdb (build_name_map prefix (collect_names name xs)) fd
  = mkFromDatabase (rewritten_name prefix (name <$> xs) (fd_Name fd))
      (fd_Property fd).
Proof.
  rw /rewritten_fromdb /rewritten_name name_map_lookup.
  case_bool_decide; [done|by destruct fd].
Qed.

Lemma rewritten_fromsvc_name {A} (name : A → string) prefix (xs : list A) fs :
  rewritten_fromsvc (build_name_map prefix (collect_names name xs)) fs
  = mkFromService (rewritten_name prefix (name <$> xs) (fs_Name fs))
      (fs_Type fs) (fs_Property fs) (fs_EnvVarKey fs).
Proof.
  rw /rewritten_fromsvc /rewritten_name name_map_lookup.
  case_bool_decide; [done|by destruct fs].
Qed.

Lemma rewritten_string_name {A} (name : A → string) prefix (xs : list A) s :
  rewritten_string (build_name_map prefix (collect_names name xs)) s
  = rewritten_name prefix (name <$> xs) s.
Proof.
  rw /rewritten_string /rewritten_name name_map_lookup.
  by case_bool_decide.
Qed.

(** When every reference cell is pointed to by one [EnvVar] entry of the
    blueprint, visited once, [PrefixBlueprint] rewrites each reference
    as the specification says: a name defined for its kind gets the
    prefix, any other name is left as it is.  This holds for entries of
    services and of env-groups alike.  A cell that two entries share is
    visited twice, once per entry. *)
Lemma PrefixBlueprint_references_unshared (h : heap) (d : loc)
    (prefix : string) :
  prefix ≠ "" →
  NoDup (omap ev_FromDatabase (all_envvars h (Some d))) →
  NoDup (omap ev_FromService (all_envvars h (Some d))) →
  NoDup (omap ev_FromGroup (all_envvars h (Some d))) →
  ∃ h' r,
    PrefixBlueprint h (Some d) prefix = Some (h', r)
    ∧ all_envvars h' (Some r) = all_envvars h (Some d)
    ∧ ∀ e, e ∈ all_envvars h (Some d) →
        (∀ p, ev_FromDatabase e = Some p →
           cell_get (fromdb_cells h') p
           = mkFromDatabase
               (rewritten_name prefix (db_Name <$> GetDatabases h (Some d))
                  (fd_Name (cell_get (fromdb_cells h) p)))
               (fd_Property (cell_get (fromdb_cells h) p)))
        ∧ (∀ p, ev_FromService e = Some p →
             cell_get (fromsvc_cells h') p
             = mkFromService
                 (rewritten_name prefix (svc_Name <$> GetServices h (Some d))
                    (fs_Name (cell_get (fromsvc_cells h) p)))
                 (fs_Type (cell_get (fromsvc_cells h) p))
                 (fs_Property (cell_get (fromsvc_cells h) p))
                 (fs_EnvVarKey (cell_get (fromsvc_cells h) p)))
        ∧ (∀ p, ev_FromGroup e = Some p →
             cell_get (string_cells h') p
             = rewritten_name prefix
                 (eg_Name <$> GetEnvVarGroups h (Some d))
                 (cell_get (string_cells h) p)).
Proof.
  intros Hp Hdb Hsvc Hgrp.
  destruct (PrefixBlueprint_run h d prefix Hp)
    as (h' & r & h4 & E & Hs & Hd & Hg & He & _ & H4d & H4s & H4g & _ & Hrep).
  exists h', r. split; [done|]. split.
  { rw /all_envvars Hs Hg He !list_fmap_bind //. }
  destruct Hrep as (_ & _ & _ & _ & _ & -> & -> & -> & _).
  intros e He'. split_and!; intros p Hk.
  - rw (foldl_cells_once fromdb_cells ev_FromDatabase _
          (λ e hx, update_references _ _ _ e hx)
          (update_references_fromdb _ _ _)) //.
    rw decide_True.
    { apply list_elem_of_omap. by exists e. }
    by rw H4d rewritten_fromdb_name.
  - rw (foldl_cells_once fromsvc_cells ev_FromService _
          (λ e hx, update_references _ _ _ e hx)
          (update_references_fromsvc _ _ _)) //.
    rw decide_True.
    { apply list_elem_of_omap. by exists e. }
    by rw H4s rewritten_fromsvc_name.
  - rw (foldl_cells_once string_cells ev_FromGroup _
          (λ e hx, update_references _ _ _ e hx)
          (update_references_string _ _ _)) //.
    rw decide_True.
    { apply list_elem_of_omap. by exists e. }
    by rw H4g rewritten_string_name.
Qed.

(** Blueprint 1 shares no reference cell: its internal references get
    the prefix and its external one is left alone. *)
Example PrefixBlueprint_references_sample :
  ∃ h' r,
    PrefixBlueprint sample_heap (Some 1%positive) "prod-" = Some (h', r)
    ∧ cell_get (fromdb_cells h') 1%positive
      = mkFromDatabase "prod-main-db" "connectionString"
    ∧ cell_get (fromdb_cells h') 2%positive
      = mkFromDatabase "external-db" "connectionString"
    ∧ cell_get (fromsvc_cells h') 1%positive
      = mkFromService "prod-cache" "keyvalue" None None
    ∧ cell_get (string_cells h') 3%positive = "prod-shared".
Proof.
  destruct (PrefixBlueprint_references_unshared sample_heap 1%positive "prod-")
    as (h' & r & E & _ & Hrefs);
    [discriminate
    |apply (bool_decide_unpack _); vm_compute; exact I
    |apply (bool_decide_unpack _); vm_compute; exact I
    |apply (bool_decide_unpack _); vm_compute; exact I|].
  exists h', r. split; [exact E|].
  assert (∀ i e, all_envvars sample_heap (Some 1%positive) !! i = Some e →
            e ∈ all_envvars sample_heap (Some 1%positive)) as Hin.
  { intros i e. apply list_elem_of_lookup_2. }
  split_and!.
  - destruct (Hrefs _ (Hin 0%nat _ eq_refl)) as (Hd & _). by rw (Hd 1%positive).
  - destruct (Hrefs _ (Hin 3%nat _ eq_refl)) as (Hd & _). by rw (Hd 2%positive).
  - destruct (Hrefs _ (Hin 1%nat _ eq_refl)) as (_ & Hs & _).
    by rw (Hs 1%positive).
  - destruct (Hrefs _ (Hin 2%nat _ eq_refl)) as (_ & _ & Hg).
    by rw (Hg 3%positive).
Qed.

Lemma GetAllResourceNames_fmap (h : heap) (bp : option loc) :
  GetAllResourceNames h bp
  = (svc_Name <$> GetServices h bp, db_Name <$> GetDatabases h bp,
     eg_Name <$> GetEnvVarGroups h bp).
Proof. destruct bp as [p|]; [|done]. by rw /GetAllResourceNames !foldl_snoc_map. Qed.

Lemma PrefixBlueprint_in_order_eq (order : list kind) (h : heap)
    (bp : option loc) (prefix : string) :
  order ≡ₚ [KService; KDatabase; KEnvGroup] →
  PrefixBlueprint_in_order order h bp prefix = PrefixBlueprint h bp prefix.
Proof.
  intros Hp. rw /PrefixBlueprint_in_order /PrefixBlueprint.
  destruct (bool_decide (bp = None) || bool_decide (prefix = "")); [done|].
  destruct (CopyBlueprint h bp) as [h1 r]. cbv beta iota zeta.
  by rw rename_in_any_order.
Qed.

Lemma PrefixBlueprint_names_post (h : heap) (d : loc) (prefix : string) :
  prefix ≠ "" →
  ∃ h' r,
    PrefixBlueprint h (Some d) prefix = Some (h', r)
    ∧ GetAllResourceNames h' (Some r)
      = (String.append prefix <$> (GetAllResourceNames h (Some d)).1.1,
         String.append prefix <$> (GetAllResourceNames h (Some d)).1.2,
         String.append prefix <$> (GetAllResourceNames h (Some d)).2).
Proof.
  intros Hp. destruct (PrefixBlueprint_post h d prefix Hp)
    as (h' & r & E & Hs & Hd & Hg).
  exists h', r. split; [done|].
  rw !GetAllResourceNames_fmap Hs Hd Hg /= -!list_fmap_compose //.
Qed.

(** C5. With a non-empty prefix and no empty name in the blueprint, every
    service, database and env-group name of the result is the prefix
    followed by the original name, in whichever order the three kinds
    are renamed. *)
Theorem PrefixBlueprint_names (h : heap) (d : loc) (prefix : string)
    (order : list kind) :
  prefix ≠ "" →
  "" ∉ (GetAllResourceNames h (Some d)).1.1 →
  "" ∉ (GetAllResourceNames h (Some d)).1.2 →
  "" ∉ (GetAllResourceNames h (Some d)).2 →
  order ≡ₚ [KService; KDatabase; KEnvGroup] →
  ∃ h' r,
    PrefixBlueprint h (Some d) prefix = Some (h', r)
    ∧ PrefixBlueprint_in_order order h (Some d) prefix = Some (h', r)
    ∧ GetAllResourceNames h' (Some r)
      = (String.append prefix <$> (GetAllResourceNames h (Some d)).1.1,
         String.append prefix <$> (GetAllResourceNames h (Some d)).1.2,
         String.append prefix <$> (GetAllResourceNames h (Some d)).2).
Proof.
  intros Hp _ _ _ Ho.
  destruct (PrefixBlueprint_names_post h d prefix Hp) as (h' & r & E & Hn).
  exists h', r. by rw PrefixBlueprint_in_order_eq.
Qed.

Lemma PrefixBlueprint_names_witness :
  "prod-" ≠ ""
  ∧ [KEnvGroup; KService; KDatabase] ≡ₚ [KService; KDatabase; KEnvGroup]
  ∧ ∃ h' r,
      PrefixBlueprint sample_heap (Some 1%positive) "prod-" = Some (h', r)
      ∧ PrefixBlueprint_in_order [KEnvGroup; KService; KDatabase] sample_heap
          (Some 1%positive) "prod-" = Some (h', r)
      ∧ GetAllResourceNames h' (Some r)
        = (["prod-api"; "prod-cache"], ["prod-main-db"], ["prod-shared"]).
Proof.
  assert ([KEnvGroup; KService; KDatabase] ≡ₚ [KService; KDatabase; KEnvGroup])
    as Ho.
  { exact (perm_trans (perm_swap _ _ _) (perm_skip _ (perm_swap _ _ _))). }
  split; [discriminate|]. split; [exact Ho|].
  destruct (PrefixBlueprint_names sample_heap 1%positive "prod-"
              [KEnvGroup; KService; KDatabase])
    as (h' & r & E & Eo & Hn);
    [discriminate
    |apply (bool_decide_unpack _); vm_compute; exact I
    |apply (bool_decide_unpack _); vm_compute; exact I
    |apply (bool_decide_unpack _); vm_compute; exact I
    |exact Ho|].
  exists h', r. split; [exact E|]. split; [exact Eo|]. exact Hn.
Defined.

(** C10. An entity whose name is empty is renamed like any other: the
    empty name is a key of the name map of its kind, mapped to the prefix
    followed by the empty string, and the entity is named exactly the
    prefix in the result. *)
Theorem PrefixBlueprint_empty_name (h : heap) (d : loc) (prefix : string) :
  prefix ≠ "" →
  ∃ h' r,
    PrefixBlueprint h (Some d) prefix = Some (h', r)
    ∧ (∀ i, (GetAllResourceNames h (Some d)).1.1 !! i = Some "" →
            (GetAllResourceNames h' (Some r)).1.1 !! i = Some prefix
            ∧ build_name_map prefix
                (collect_names svc_Name (GetServices h (Some d))) !! ""
              = Some (prefix +:+ ""))
    ∧ (∀ i, (GetAllResourceNames h (Some d)).1.2 !! i = Some "" →
            (GetAllResourceNames h' (Some r)).1.2 !! i = Some prefix
            ∧ build_name_map prefix
                (collect_names db_Name (GetDatabases h (Some d))) !! ""
              = Some (prefix +:+ ""))
    ∧ (∀ i, (GetAllResourceNames h (Some d)).2 !! i = Some "" →
            (GetAllResourceNames h' (Some r)).2 !! i = Some prefix
            ∧ build_name_map prefix
                (collect_names eg_Name (GetEnvVarGroups h (Some d))) !! ""
              = Some (prefix +:+ "")).
Proof.
  intros Hp.
  destruct (PrefixBlueprint_names_post h d prefix Hp) as (h' & r & E & Hn).
  exists h', r. split; [done|]. rw Hn GetAllResourceNames_fmap /=.
  split_and!; intros i Hi.
  - split; [by rw list_lookup_fmap Hi /= string_app_empty_r|].
    apply list_elem_of_lookup_2, list_elem_of_fmap in Hi as (x & Hx0 & Hx).
    rw Hx0. by apply name_map_defined.
  - split; [by rw list_lookup_fmap Hi /= string_app_empty_r|].
    apply list_elem_of_lookup_2, list_elem_of_fmap in Hi as (x & Hx0 & Hx).
    rw Hx0. by apply name_map_defined.
  - split; [by rw list_lookup_fmap Hi /= string_app_empty_r|].
    apply list_elem_of_lookup_2, list_elem_of_fmap in Hi as (x & Hx0 & Hx).
    rw Hx0. by apply name_map_defined.
Qed.

Lemma PrefixBlueprint_empty_name_witness :
  "p-" ≠ ""
  ∧ (GetAllResourceNames sample_heap (Some 5%positive)).1.1 !! 0%nat = Some ""
  ∧ ∃ h' r,
      PrefixBlueprint sample_heap (Some 5%positive) "p-" = Some (h', r)
      ∧ (GetAllResourceNames h' (Some r)).1.1 !! 0%nat = Some "p-".
Proof.
  split; [discriminate|]. split; [vm_compute; reflexivity|].
  destruct (PrefixBlueprint_empty_name sample_heap 5%positive "p-")
    as (h' & r & E & Hs & _); [discriminate|].
  exists h', r. split; [exact E|].
  apply (Hs 0%nat). vm_compute. reflexivity.
Defined.

(** ** Where the operations write through shared cells *)

(** C1. [CopyBlueprint] copies the three top-level arrays only, so the
    copy [PrefixBlueprint] works on shares every [EnvVars] array,
    reference cell and replica array with its argument.  On blueprint 1
    with prefix "prod-" the argument itself reads differently after the
    call: the database reference of its service "api" has become
    "prod-main-db" and the group reference "prod-shared", while its own
    names are unchanged. *)
Theorem PrefixBlueprint_writes_to_argument :
  ∃ h' r,
    PrefixBlueprint sample_heap (Some 1%positive) "prod-" = Some (h', r)
    ∧ snapshot h' 1%positive ≠ snapshot sample_heap 1%positive
    ∧ (es_FromDatabase <$> (bs_Services (snapshot sample_heap 1%positive)
                              ≫= ss_EnvVars))
      = [Some ("main-db", "connectionString"); None; None;
         Some ("external-db", "connectionString")]
    ∧ (es_FromDatabase <$> (bs_Services (snapshot h' 1%positive)
                              ≫= ss_EnvVars))
      = [Some ("prod-main-db", "connectionString"); None; None;
         Some ("external-db", "connectionString")]
    ∧ (ss_Name <$> bs_Services (snapshot h' 1%positive)) = ["api"; "cache"].
Proof.
  eexists _, _. split; [vm_compute; reflexivity|].
  split; [vm_compute; intros [=]|].
  split_and!; vm_compute; reflexivity.
Qed.

(** C2. The replica loop computes the "old" database name as the new
    name without its last [len(prefix)] bytes, which is not the name the
    database had.  On blueprint 1 with prefix "prod-" the database
    "main-db" becomes "prod-main-db" and the cut is "prod-ma": the
    replica "main-db-replica", which begins with "main-db", keeps its
    name, and the replica "prod-mail", which does not, is rewritten. *)
Theorem PrefixBlueprint_replica_not_renamed :
  ∃ h' r,
    PrefixBlueprint sample_heap (Some 1%positive) "prod-" = Some (h', r)
    ∧ bs_Databases (snapshot sample_heap 1%positive)
      = [mkDatabaseSnap "main-db" None ["main-db-replica"; "prod-mail"]]
    ∧ HasPrefix "main-db-replica" "main-db" = true
    ∧ HasPrefix "prod-mail" "main-db" = false
    ∧ slice_to "prod-main-db"
        (Z.of_nat (String.length "prod-main-db")
         - Z.of_nat (String.length "prod-")) = Some "prod-ma"
    ∧ bs_Databases (snapshot h' r)
      = [mkDatabaseSnap "prod-main-db" None
           ["main-db-replica"; "prod-main-dbil"]].
Proof.
  eexists _, _. split; [vm_compute; reflexivity|].
  split_and!; vm_compute; reflexivity.
Qed.

(** C4. Because the copy shares reference cells, a cell reached from two
    entries is rewritten once per entry.  Blueprint 4 has two services
    built from one [EnvFromDatabase] value whose target "db" is defined,
    and also defines database "p-db"; with prefix "p-" both references
    read "p-p-db" in the result, not "p-db". *)
Theorem PrefixBlueprint_shared_reference_rewritten_twice :
  ∃ h' r,
    PrefixBlueprint sample_heap (Some 4%positive) "p-" = Some (h', r)
    ∧ (es_FromDatabase <$> (bs_Services (snapshot sample_heap 4%positive)
                              ≫= ss_EnvVars))
      = [Some ("db", "connectionString"); Some ("db", "connectionString")]
    ∧ (ds_Name <$> bs_Databases (snapshot sample_heap 4%positive))
      = ["db"; "p-db"]
    ∧ (es_FromDatabase <$> (bs_Services (snapshot h' r) ≫= ss_EnvVars))
      = [Some ("p-p-db", "connectionString");
         Some ("p-p-db", "connectionString")]
    ∧ (ds_Name <$> bs_Databases (snapshot h' r)) = ["p-db"; "p-p-db"].
Proof.
  eexists _, _. split; [vm_compute; reflexivity|].
  split_and!; vm_compute; reflexivity.
Qed.

(** C6. [MergeBlueprints] on two blueprints assigns the overlay's (or
    the base's) [Previews] pointer to the result and appends the entries
    by value, so the result shares the preview cell and every [EnvVars]
    array with its inputs.  Merging blueprints 1 and 2, the result's
    preview pointer is the overlay's and its first service has the
    [EnvVars] slice of the base's first service; the assignment
    [result.Previews.Generation = "automatic"] changes what the overlay
    reads.  The same function, when the base is nil, returns
    [CopyBlueprint(overlay)], whose preview cell is a new one: there the
    same assignment leaves the overlay as it was. *)
Theorem MergeBlueprints_result_shares_cells :
  ∃ h' r,
    MergeBlueprints sample_heap (Some 1%positive) (Some 2%positive)
    = (h', Merged r)
    ∧ bp_Previews (get_blueprint sample_heap 2%positive) = Some 2%positive
    ∧ bp_Previews (get_blueprint h' r) = Some 2%positive
    ∧ (svc_EnvVars <$> GetServices sample_heap (Some 1%positive)) !! 0%nat
      = Some (Slice (Some 1%positive) 0 4)
    ∧ (svc_EnvVars <$> GetServices h' (Some r)) !! 0%nat
      = Some (Slice (Some 1%positive) 0 4)
    ∧ bs_Previews (snapshot h' 2%positive) = Some "none"
    ∧ bs_Previews (snapshot (assign_previews_generation h' r "automatic")
                     2%positive) = Some "automatic"
    ∧ snapshot (assign_previews_generation h' r "automatic") 2%positive
      ≠ snapshot sample_heap 2%positive
    ∧ ∃ h1 r1,
        MergeBlueprints sample_heap None (Some 2%positive) = (h1, Merged r1)
        ∧ bp_Previews (get_blueprint h1 r1) = Some 3%positive
        ∧ bs_Previews (snapshot (assign_previews_generation h1 r1 "automatic")
                         r1) = Some "automatic"
        ∧ snapshot (assign_previews_generation h1 r1 "automatic") 2%positive
          = snapshot sample_heap 2%positive.
Proof.
  eexists _, _. split; [vm_compute; reflexivity|].
  do 6 (split; [vm_compute; reflexivity|]).
  split; [vm_compute; intros [=]|].
  eexists _, _. split; [vm_compute; reflexivity|].
  split_and!; vm_compute; reflexivity.
Qed.

(** X20. [MergeBlueprints] does not write: every cell live before the
    call holds the same value after it, and a conflict leaves the heap as
    it was.  The blueprint it returns is a new cell, and each of its
    three collections is nil or backed by an array allocated during the
    call. *)
Theorem MergeBlueprints_no_write (h : heap) (base overlay : option loc) :
  match MergeBlueprints h base overlay with
  | (h', MergeError _) => h' = h
  | (h', Merged r) =>
    heap_extends h h'
    ∧ blueprints h !! r = None
    ∧ fresh_slice (service_arrays h) (bp_Services (get_blueprint h' r))
    ∧ fresh_slice (database_arrays h) (bp_Databases (get_blueprint h' r))
    ∧ fresh_slice (group_arrays h) (bp_EnvVarGroups (get_blueprint h' r))
  end.
Proof.
  destruct (MergeBlueprints h base overlay) as [h' [r|msg]] eqn:E.
  - by destruct (MergeBlueprints_post _ _ _ _ _ E).
  - revert E. destruct base as [pb|], overlay as [po|]; rw /MergeBlueprints.
    + case_bool_decide; [by intros [= <- _]|].
      repeat match goal with
             | |- context [go_append ?m ?s ?xs] =>
               destruct (go_append m s xs) as [? ?]
             end.
      destruct (alloc_blueprint _ _). intros [=].
    + destruct (CopyBlueprint _ _). intros [=].
    + destruct (CopyBlueprint _ _). intros [=].
    + destruct (alloc_blueprint _ _). intros [=].
Qed.

(** * Further properties *)

(** ** Snapshots depend on the stores they read *)

Lemma snap_envvars_ext (h h' : heap) (s : slice) :
  same_nested h h' → snap_envvars h' s = snap_envvars h s.
Proof.
  intros (He & _ & Hfd & Hfs & Hst & Hbo).
  rw /snap_envvars /snap_envvar /snap_string He Hfd Hfs Hst Hbo //.
Qed.

Lemma snap_service_ext (h h' : heap) (s : Service) :
  same_nested h h' → snap_service h' s = snap_service h s.
Proof.
  intros Hn. rw /snap_service (snap_envvars_ext h h') //.
  destruct Hn as (_ & _ & _ & _ & Hst & _). by rw /snap_string Hst.
Qed.

Lemma snap_database_ext (h h' : heap) (d : Database) :
  same_nested h h' → snap_database h' d = snap_database h d.
Proof.
  intros (_ & Hr & _ & _ & Hst & _). by rw /snap_database /snap_string Hr Hst.
Qed.

Lemma snap_group_ext (h h' : heap) (g : EnvVarGroup) :
  same_nested h h' → snap_group h' g = snap_group h g.
Proof. intros Hn. by rw /snap_group (snap_envvars_ext h h'). Qed.

(** The snapshot in terms of the observations used so far. *)
Lemma snapshot_eq (h : heap) (p : loc) :
  snapshot h p
  = mkBlueprintSnap (snap_service h <$> GetServices h (Some p))
      (snap_database h <$> GetDatabases h (Some p))
      (snap_group h <$> GetEnvVarGroups h (Some p))
      (pv_Generation <$> previews_of h (Some p))
      (expire_days_of h (Some p)).
Proof. done. Qed.

Lemma copy_post_nested h p h' r : copy_post h p h' r → same_nested h h'.
Proof. intros [_ _ _ _ _ _ ? ? ? ? ? ?]. by rw /same_nested. Qed.

Lemma copy_post_snapshot h p h' r :
  copy_post h p h' r → snapshot h' r = snapshot h p.
Proof.
  intros Hc. pose proof (copy_post_nested _ _ _ _ Hc) as Hn.
  rw !snapshot_eq (copy_post_services _ _ _ _ Hc)
     (copy_post_databases _ _ _ _ Hc) (copy_post_groups _ _ _ _ Hc).
  destruct Hc as [_ _ _ _ (_ & -> & _) (_ & -> & _) _ _ _ _ _ _].
  f_equal.
  - apply list_fmap_ext. intros. by apply snap_service_ext.
  - apply list_fmap_ext. intros. by apply snap_database_ext.
  - apply list_fmap_ext. intros. by apply snap_group_ext.
Qed.

(** X1. [CopyBlueprint] writes nothing and returns a blueprint that is
    field by field equal to its argument, an empty one for nil; hence the
    copy of a copy is equal to the copy. *)
Theorem CopyBlueprint_equal (h : heap) (bp : option loc) :
  let h1 := (CopyBlueprint h bp).1 in
  let r1 := (CopyBlueprint h bp).2 in
  let h2 := (CopyBlueprint h1 (Some r1)).1 in
  let r2 := (CopyBlueprint h1 (Some r1)).2 in
  heap_extends h h1
  ∧ snapshot h1 r1 = snapshot_of h bp
  ∧ snapshot h2 r2 = snapshot h1 r1.
Proof.
  cbv zeta. split_and!.
  - destruct bp as [p|].
    + exact (copy_post_extends _ _ _ _ (CopyBlueprint_post h p)).
    + apply alloc_blueprint_extends.
  - destruct bp as [p|].
    + exact (copy_post_snapshot _ _ _ _ (CopyBlueprint_post h p)).
    + rw /= /snapshot /get_blueprint /= cell_get_insert //.
  - exact (copy_post_snapshot _ _ _ _ (CopyBlueprint_post _ _)).
Qed.

(** ** Writing a name in the copy *)

Section StoreFrame.
Context {A : Type} `{!Inhabited A}.
Implicit Types (m : gmap loc (list A)) (xs : list A) (s : slice).

Lemma arr_read_ext m m' s :
  (∀ l, sl_arr s = Some l → m' !! l = m !! l) →
  arr_read m' s = arr_read m s.
Proof.
  intros H. rw /arr_read. apply list_fmap_ext. intros _ i _.
  rw /arr_get. destruct (sl_arr s) as [l|]; [|done]. by rw (H l).
Qed.

Lemma arr_set_whole m l xs i v :
  arr_set (<[l := xs]> m) (Slice (Some l) 0 (length xs)) i v
  = <[l := <[i := v]> xs]> m.
Proof.
  rw /arr_set /=. apply map_eq. intros l'. rw lookup_alter.
  case_decide as Hl.
  - subst l'. by rw !lookup_insert_eq.
  - rw !lookup_insert_ne //.
Qed.

Lemma arr_get_whole m l xs i :
  arr_get (<[l := xs]> m) (Slice (Some l) 0 (length xs)) i
  = default inhabitant (xs !! i).
Proof. by rw /arr_get /= lookup_insert_eq. Qed.

Lemma live_slice_fresh m s l :
  live_slice m s = true → m !! l = None → sl_arr s ≠ Some l.
Proof.
  rw /live_slice. intros Hl Hn E. rw E in Hl.
  apply bool_decide_eq_true in Hl. rw Hn in Hl. by destruct Hl.
Qed.
End StoreFrame.

Lemma snapshot_frame (h h' : heap) (p : loc) :
  get_blueprint h' p = get_blueprint h p →
  same_nested h h' →
  GetServices h' (Some p) = GetServices h (Some p) →
  GetDatabases h' (Some p) = GetDatabases h (Some p) →
  GetEnvVarGroups h' (Some p) = GetEnvVarGroups h (Some p) →
  previews_of h' (Some p) = previews_of h (Some p) →
  expire_days_of h' (Some p) = expire_days_of h (Some p) →
  snapshot h' p = snapshot h p.
Proof.
  intros Hb Hn Hs Hd Hg Hp He. rw !snapshot_eq Hs Hd Hg Hp He. f_equal.
  - apply list_fmap_ext. intros. by apply snap_service_ext.
  - apply list_fmap_ext. intros. by apply snap_database_ext.
  - apply list_fmap_ext. intros. by apply snap_group_ext.
Qed.

Lemma live_blueprint_inv (h : heap) (p : loc) :
  live_blueprint h p = true →
  blueprints h !! p = Some (get_blueprint h p)
  ∧ live_slice (service_arrays h) (bp_Services (get_blueprint h p)) = true
  ∧ live_slice (database_arrays h) (bp_Databases (get_blueprint h p)) = true
  ∧ live_slice (group_arrays h) (bp_EnvVarGroups (get_blueprint h p)) = true
  ∧ live_ptr (previews_cells h) (bp_Previews (get_blueprint h p)) = true
  ∧ live_ptr (int_cells h)
      (bp_PreviewsExpireAfterDays (get_blueprint h p)) = true.
Proof.
  rw /live_blueprint /get_blueprint /cell_get.
  destruct (blueprints h !! p) as [b|]; [|done]. simpl.
  rw !andb_true_iff. tauto.
Qed.

Lemma live_ptr_extends {A} `{!Inhabited A} (m m' : gmap loc A) (p : option loc) :
  live_ptr m p = true → m ⊆ m' → cell_get m' <$> p = cell_get m <$> p.
Proof.
  destruct p as [l|]; [|done]. intros [x Hx]%bool_decide_eq_true Hsub.
  by rw /= /cell_get Hx (lookup_weaken _ _ _ _ Hx Hsub).
Qed.

(** A live blueprint reads the same after the stores it reaches
    directly have grown. *)
Lemma live_blueprint_frame (h h' : heap) (p : loc) :
  live_blueprint h p = true →
  blueprints h ⊆ blueprints h' →
  service_arrays h ⊆ service_arrays h' →
  database_arrays h ⊆ database_arrays h' →
  group_arrays h ⊆ group_arrays h' →
  previews_cells h ⊆ previews_cells h' →
  int_cells h ⊆ int_cells h' →
  get_blueprint h' p = get_blueprint h p
  ∧ GetServices h' (Some p) = GetServices h (Some p)
  ∧ GetDatabases h' (Some p) = GetDatabases h (Some p)
  ∧ GetEnvVarGroups h' (Some p) = GetEnvVarGroups h (Some p)
  ∧ previews_of h' (Some p) = previews_of h (Some p)
  ∧ expire_days_of h' (Some p) = expire_days_of h (Some p).
Proof.
  intros (Hb & Hs & Hd & Hg & Hp & Hi)%live_blueprint_inv Eb Es Ed Eg Ep Ei.
  assert (get_blueprint h' p = get_blueprint h p) as Hbp.
  { rw {1}/get_blueprint /cell_get.
    by rw (lookup_weaken _ _ _ _ Hb Eb). }
  split; [done|].
  rw /GetServices /GetDatabases /GetEnvVarGroups /previews_of /expire_days_of
     /= Hbp.
  split_and!; [apply arr_read_ext; intros l Hl..| |].
  - rw /live_slice Hl in Hs. apply bool_decide_eq_true in Hs as [xs Hx].
    by rw Hx (lookup_weaken _ _ _ _ Hx Es).
  - rw /live_slice Hl in Hd. apply bool_decide_eq_true in Hd as [xs Hx].
    by rw Hx (lookup_weaken _ _ _ _ Hx Ed).
  - rw /live_slice Hl in Hg. apply bool_decide_eq_true in Hg as [xs Hx].
    by rw Hx (lookup_weaken _ _ _ _ Hx Eg).
  - by apply live_ptr_extends.
  - by apply live_ptr_extends.
Qed.

Lemma live_blueprint_extends (h h' : heap) (p : loc) :
  live_blueprint h p = true → heap_extends h h' →
  get_blueprint h' p = get_blueprint h p
  ∧ GetServices h' (Some p) = GetServices h (Some p)
  ∧ GetDatabases h' (Some p) = GetDatabases h (Some p)
  ∧ GetEnvVarGroups h' (Some p) = GetEnvVarGroups h (Some p)
  ∧ previews_of h' (Some p) = previews_of h (Some p)
  ∧ expire_days_of h' (Some p) = expire_days_of h (Some p).
Proof.
  intros Hl (Eb & Es & Ed & Eg & _ & _ & _ & _ & _ & _ & Ep & Ei).
  by apply live_blueprint_frame.
Qed.

Lemma snapshot_with_service_arrays (h : heap) m (p : loc) :
  arr_read m (bp_Services (get_blueprint h p)) = GetServices h (Some p) →
  snapshot (with_service_arrays m h) p = snapshot h p.
Proof. intros E. apply snapshot_frame; done. Qed.

Lemma snapshot_with_database_arrays (h : heap) m (p : loc) :
  arr_read m (bp_Databases (get_blueprint h p)) = GetDatabases h (Some p) →
  snapshot (with_database_arrays m h) p = snapshot h p.
Proof. intros E. apply snapshot_frame; done. Qed.

Lemma snapshot_with_group_arrays (h : heap) m (p : loc) :
  arr_read m (bp_EnvVarGroups (get_blueprint h p))
  = GetEnvVarGroups h (Some p) →
  snapshot (with_group_arrays m h) p = snapshot h p.
Proof. intros E. apply snapshot_frame; done. Qed.

Lemma live_blueprint_snapshot (h h' : heap) (p : loc) :
  live_blueprint h p = true → heap_extends h h' → same_nested h h' →
  snapshot h' p = snapshot h p.
Proof.
  intros Hl He Hn.
  destruct (live_blueprint_extends _ _ _ Hl He) as (? & ? & ? & ? & ? & ?).
  by apply snapshot_frame.
Qed.

(** X2. Writing a name through the copy, as the test of [CopyBlueprint]
    does, is seen in the copy and leaves the original as it was. *)
Theorem CopyBlueprint_names_isolated (h : heap) (p : loc) (i : nat)
    (name : string) :
  live_blueprint h p = true →
  let h1 := (CopyBlueprint h (Some p)).1 in
  let r := (CopyBlueprint h (Some p)).2 in
  ((i < length (GetServices h (Some p)))%nat →
   ∃ h2, assign_service_name h1 r i name = Some h2
     ∧ snapshot h2 p = snapshot h p
     ∧ svc_Name <$> GetServices h2 (Some r)
       = <[i := name]> (svc_Name <$> GetServices h (Some p)))
  ∧ ((i < length (GetDatabases h (Some p)))%nat →
   ∃ h2, assign_database_name h1 r i name = Some h2
     ∧ snapshot h2 p = snapshot h p
     ∧ db_Name <$> GetDatabases h2 (Some r)
       = <[i := name]> (db_Name <$> GetDatabases h (Some p)))
  ∧ ((i < length (GetEnvVarGroups h (Some p)))%nat →
   ∃ h2, assign_group_name h1 r i name = Some h2
     ∧ snapshot h2 p = snapshot h p
     ∧ eg_Name <$> GetEnvVarGroups h2 (Some r)
       = <[i := name]> (eg_Name <$> GetEnvVarGroups h (Some p))).
Proof.
  intros Hlive. cbv zeta.
  pose proof (CopyBlueprint_post h p) as Hc.
  destruct (CopyBlueprint h (Some p)) as [h1 r]. cbn [fst snd] in *.
  pose proof (copy_post_extends _ _ _ _ Hc) as Hext.
  pose proof (copy_post_nested _ _ _ _ Hc) as Hn.
  pose proof (live_blueprint_snapshot _ _ _ Hlive Hext Hn) as Hsnap.
  destruct (live_blueprint_extends _ _ _ Hlive Hext)
    as (Hb & Hs & Hd & Hg & _ & _).
  destruct (live_blueprint_inv _ _ Hlive) as (_ & Ls & Ld & Lg & _ & _).
  destruct Hc as [_ (ls & Hls & Ms & Ss) (ld & Hld & Md & Sd)
                    (lg & Hlg & Mg & Sg) _ _ _ _ _ _ _ _].
  split_and!; intros Hlt.
  - rw /assign_service_name Ss. cbn [sl_len]. case_bool_decide; [|contradiction].
    eexists; split; [done|].
    set (v := mkService _ _ _ _ _). split.
    + rw -Hsnap. apply snapshot_with_service_arrays.
      apply arr_read_ext. intros l Hl. rw /arr_set /= lookup_alter_ne //.
      intros ->. rw Hb in Hl. exact (live_slice_fresh _ _ _ Ls Hls Hl).
    + rw {1}/GetServices.
      change (get_blueprint (with_service_arrays _ _) r)
        with (get_blueprint h1 r).
      cbn [service_arrays with_service_arrays]. rw Ss Ms arr_set_whole.
      rw -{1}(length_insert (GetServices h (Some p)) i v) arr_read_whole.
      { by rw lookup_insert_eq. }
      by rw list_fmap_insert.
  - rw /assign_database_name Sd. cbn [sl_len]. case_bool_decide; [|contradiction].
    eexists; split; [done|].
    set (v := mkDatabase _ _ _). split.
    + rw -Hsnap. apply snapshot_with_database_arrays.
      apply arr_read_ext. intros l Hl. rw /arr_set /= lookup_alter_ne //.
      intros ->. rw Hb in Hl. exact (live_slice_fresh _ _ _ Ld Hld Hl).
    + rw {1}/GetDatabases.
      change (get_blueprint (with_database_arrays _ _) r)
        with (get_blueprint h1 r).
      cbn [database_arrays with_database_arrays]. rw Sd Md arr_set_whole.
      rw -{1}(length_insert (GetDatabases h (Some p)) i v) arr_read_whole.
      { by rw lookup_insert_eq. }
      by rw list_fmap_insert.
  - rw /assign_group_name Sg. cbn [sl_len]. case_bool_decide; [|contradiction].
    eexists; split; [done|].
    set (v := mkEnvVarGroup _ _). split.
    + rw -Hsnap. apply snapshot_with_group_arrays.
      apply arr_read_ext. intros l Hl. rw /arr_set /= lookup_alter_ne //.
      intros ->. rw Hb in Hl. exact (live_slice_fresh _ _ _ Lg Hlg Hl).
    + rw {1}/GetEnvVarGroups.
      change (get_blueprint (with_group_arrays _ _) r)
        with (get_blueprint h1 r).
      cbn [group_arrays with_group_arrays]. rw Sg Mg arr_set_whole.
      rw -{1}(length_insert (GetEnvVarGroups h (Some p)) i v) arr_read_whole.
      { by rw lookup_insert_eq. }
      by rw list_fmap_insert.
Qed.

Lemma CopyBlueprint_names_isolated_witness :
  live_blueprint sample_heap 1%positive = true
  ∧ (0 < length (GetServices sample_heap (Some 1%positive)))%nat
  ∧ ∃ h2,
      assign_service_name (CopyBlueprint sample_heap (Some 1%positive)).1
        (CopyBlueprint sample_heap (Some 1%positive)).2 0 "renamed" = Some h2
      ∧ snapshot h2 1%positive = snapshot sample_heap 1%positive.
Proof.
  split; [vm_compute; reflexivity|]. split; [vm_compute; lia|].
  destruct (CopyBlueprint_names_isolated sample_heap 1%positive 0 "renamed")
    as (Hs & _); [vm_compute; reflexivity|].
  destruct Hs as (h2 & E & Hsn & _); [vm_compute; lia|].
  exists h2. split; [exact E|exact Hsn].
Defined.

(** ** When [ValidateBlueprint] reports nothing *)

Lemma app_singleton_not_nil {A} (xs : list A) (x : A) : xs ++ [x] ≠ [].
Proof. by destruct xs. Qed.

(** A loop that appends an entry for each element with a defect ends
    with no entry exactly when it started with none and no element has
    the defect. *)
Lemma foldl_errors_nil {A} (f : list string → A → list string)
    (ok : A → Prop) (xs : list A) (errors : list string) :
  (∀ acc x, f acc x = [] ↔ acc = [] ∧ ok x) →
  foldl f errors xs = [] ↔ errors = [] ∧ Forall ok xs.
Proof.
  intros Hf. revert errors. induction xs as [|x xs IH]; intros errors.
  - simpl. split; [by intros ->|by intros [-> _]].
  - rw /= IH Hf Forall_cons. tauto.
Qed.

Lemma check_duplicates_nil_from {A} (name : A → string) (what : string)
    (xs : list A) (errors : list string) (names : gmap string bool) :
  (foldl (λ '(errors, names) x,
            let errors :=
              if map_bool names (name x)
              then errors ++ [what +:+ name x]
              else errors in
            (errors, <[name x := true]> names))
         (errors, names) xs).1 = []
  ↔ errors = [] ∧ NoDup (name <$> xs)
    ∧ ∀ n, n ∈ name <$> xs → map_bool names n = false.
Proof.
  revert errors names. induction xs as [|x xs IH]; intros errors names.
  - simpl. split; [intros ->; split_and!; [done|constructor|]|by intros [-> _]].
    by intros n ?%elem_of_nil.
  - cbn [foldl]. rw IH fmap_cons NoDup_cons. clear IH.
    assert (∀ n, map_bool (<[name x:=true]> names) n = false
                 ↔ n ≠ name x ∧ map_bool names n = false) as Hins.
    { intros n. rw /map_bool. destruct (decide (n = name x)) as [->|Hn].
      - rw lookup_insert_eq /=. intuition congruence.
      - rw lookup_insert_ne; [congruence|]. tauto. }
    split.
    + intros (He & Hnd & Hall).
      assert (map_bool names (name x) = false ∧ errors = []) as [Hx ->].
      { destruct (map_bool names (name x)); [|done].
        by apply app_singleton_not_nil in He. }
      split_and!; [done| |done|].
      * intros Hin. by destruct (proj1 (Hins _) (Hall _ Hin)).
      * intros n [->|Hin]%elem_of_cons; [done|].
        by destruct (proj1 (Hins _) (Hall _ Hin)).
    + intros (-> & [Hnin Hnd] & Hall).
      rw (Hall (name x)); [left|]. split_and!; [done..|].
      intros n Hin. apply Hins. split; [by intros ->|].
      apply Hall. by right.
Qed.

Lemma check_duplicates_nil {A} (name : A → string) (what : string)
    (xs : list A) (errors : list string) :
  check_duplicates name what xs errors = []
  ↔ errors = [] ∧ NoDup (name <$> xs).
Proof.
  rw /check_duplicates check_duplicates_nil_from.
  split; [tauto|]. intros [-> Hnd]. split_and!; [done..|].
  intros n _. by rw /map_bool lookup_empty.
Qed.

Lemma check_service_nil (errors : list string) (service : Service) :
  check_service errors service = [] ↔ errors = [] ∧ complete_service service.
Proof.
  rw /check_service /complete_service.
  destruct (svc_Runtime service) as [rt|];
    repeat case_bool_decide; simpl;
    split; try (by intros ?%app_singleton_not_nil);
    try (intros (-> & ? & ? & [?|?]); done);
    try (intros ->; split_and!; try done; by (left + right)).
Qed.

Lemma ValidateBlueprint_some_nil (h : heap) (p : loc) :
  ValidateBlueprint h (Some p) = [] ↔ valid_blueprint h (Some p).
Proof.
  rw /ValidateBlueprint /valid_blueprint /GetServices /GetDatabases
     /GetEnvVarGroups.
  rw (foldl_errors_nil _ (λ g, eg_Name g ≠ "")).
  { intros acc g. case_bool_decide as E.
    - split; [by intros ?%app_singleton_not_nil|by intros [_ ?]].
    - tauto. }
  rw (foldl_errors_nil _ (λ d, db_Name d ≠ "")).
  { intros acc d. case_bool_decide as E.
    - split; [by intros ?%app_singleton_not_nil|by intros [_ ?]].
    - tauto. }
  rw (foldl_errors_nil _ complete_service); [apply check_service_nil|].
  rw !check_duplicates_nil. intuition done.
Qed.

(** X3. [ValidateBlueprint] returns no error exactly for a blueprint
    whose names are distinct within each kind and non-empty, and whose
    services all have a type and, unless of type keyvalue, a runtime; a
    nil blueprint always gets an error. *)
Theorem ValidateBlueprint_nil_iff (h : heap) (bp : option loc) :
  ValidateBlueprint h bp = [] ↔ bp ≠ None ∧ valid_blueprint h bp.
Proof.
  destruct bp as [p|]; [|split; [done|by intros [? _]]].
  rw ValidateBlueprint_some_nil. split; [done|tauto].
Qed.

(** ** Conflicts, and validity of a merge *)

Lemma FindConflicts_eq_spec (h : heap) (base overlay : option loc) :
  FindConflicts h base overlay = conflicts_spec h base overlay.
Proof.
  destruct base as [b|], overlay as [o|]; rw /conflicts_spec /=.
  - rw !report_conflicts_spec /= -app_assoc //.
  - done.
  - rw !collisions_nil_l //.
  - done.
Qed.

Lemma collisions_nil (bs os : list string) :
  collisions bs os = [] ↔ ∀ n, n ∈ bs → n ∉ os.
Proof.
  split.
  - intros E n Hb Ho.
    assert (n ∈ collisions bs os) as Hin by by apply collisions_elem.
    rw E in Hin. by apply elem_of_nil in Hin.
  - intros H. destruct (collisions bs os) as [|n ns] eqn:E; [done|].
    assert (n ∈ collisions bs os) as [Hb Ho]%collisions_elem
      by (rw E; left).
    by destruct (H n Hb).
Qed.

Lemma conflicts_spec_nil (h : heap) (base overlay : option loc) :
  conflicts_spec h base overlay = [] ↔ disjoint_names h base overlay.
Proof.
  rw /conflicts_spec /disjoint_names -!collisions_nil.
  split.
  - intros (Hs & (Hd & Hg)%app_eq_nil)%app_eq_nil.
    by apply fmap_nil_inv in Hs, Hd, Hg.
  - by intros (-> & -> & ->).
Qed.

Lemma disjoint_names_sym (h : heap) (base overlay : option loc) :
  disjoint_names h base overlay → disjoint_names h overlay base.
Proof.
  intros (Hs & Hd & Hg).
  split_and!; intros n Ho Hb; [by apply (Hs n)|by apply (Hd n)|by apply (Hg n)].
Qed.

(** X4. [FindConflicts] reports nothing exactly when no name of a kind is
    defined by both blueprints; whether it reports something does not
    depend on which of the two is given as the base. *)
Theorem FindConflicts_nil_iff (h : heap) (base overlay : option loc) :
  (FindConflicts h base overlay = [] ↔ disjoint_names h base overlay)
  ∧ (FindConflicts h base overlay = [] ↔ FindConflicts h overlay base = []).
Proof.
  rw !FindConflicts_eq_spec !conflicts_spec_nil.
  split; [done|]. split; apply disjoint_names_sym.
Qed.

Lemma valid_blueprint_app (h h' : heap) (base overlay : option loc) (r : loc) :
  merge_post h base overlay h' r →
  valid_blueprint h base → valid_blueprint h overlay →
  disjoint_names h base overlay →
  valid_blueprint h' (Some r).
Proof.
  intros [Es Ed Eg _ _ _ _ _ _ _] (Ns & Nd & Ng & Fs & Fd & Fg)
         (Ns' & Nd' & Ng' & Fs' & Fd' & Fg') (Ds & Dd & Dg).
  rw /valid_blueprint Es Ed Eg !fmap_app !NoDup_app !Forall_app.
  split_and!; done.
Qed.

(** X5. Merging two blueprints that pass [ValidateBlueprint] and share no
    name succeeds, and the result passes [ValidateBlueprint]. *)
Theorem MergeBlueprints_valid (h : heap) (base overlay : loc) :
  ValidateBlueprint h (Some base) = [] →
  ValidateBlueprint h (Some overlay) = [] →
  FindConflicts h (Some base) (Some overlay) = [] →
  ∃ h' r, MergeBlueprints h (Some base) (Some overlay) = (h', Merged r)
          ∧ ValidateBlueprint h' (Some r) = [].
Proof.
  intros Hb%ValidateBlueprint_some_nil Ho%ValidateBlueprint_some_nil Hc.
  destruct (MergeBlueprints_succeeds _ _ _ Hc) as (h' & r & E).
  exists h', r. split; [done|].
  apply ValidateBlueprint_some_nil.
  apply (valid_blueprint_app h h' (Some base) (Some overlay) r); try done.
  - by apply MergeBlueprints_post.
  - apply conflicts_spec_nil. by rw -FindConflicts_eq_spec.
Qed.

Lemma MergeBlueprints_valid_witness :
  ValidateBlueprint stack_heap (Some 1%positive) = []
  ∧ ValidateBlueprint stack_heap (Some 2%positive) = []
  ∧ FindConflicts stack_heap (Some 1%positive) (Some 2%positive) = []
  ∧ ∃ h' r,
      MergeBlueprints stack_heap (Some 1%positive) (Some 2%positive)
      = (h', Merged r)
      ∧ ValidateBlueprint h' (Some r) = [].
Proof.
  split; [vm_compute; reflexivity|]. split; [vm_compute; reflexivity|].
  split; [vm_compute; reflexivity|].
  apply (MergeBlueprints_valid stack_heap 1%positive 2%positive);
    vm_compute; reflexivity.
Defined.

(** ** Validity of a prefixed blueprint *)

Lemma string_app_nil_inv (a b : string) : a +:+ b = "" → b = "".
Proof. destruct a as [|c a]; [exact id|]. intros [=]. Qed.

Lemma prefixed_empty (ss : list Service) (ds : list Database)
    (gs : list EnvVarGroup) :
  prefixed_service "" <$> ss = ss ∧ prefixed_database "" <$> ds = ds
  ∧ prefixed_group "" <$> gs = gs.
Proof.
  split_and!.
  - induction ss as [|[] ss IH]; [done|]. by rw fmap_cons IH.
  - induction ds as [|[] ds IH]; [done|]. by rw fmap_cons IH.
  - induction gs as [|[] gs IH]; [done|]. by rw fmap_cons IH.
Qed.

(** [PrefixBlueprint] on a blueprint that is not nil returns, whatever
    the prefix, and the entries of the result carry the prefixed names. *)
Lemma PrefixBlueprint_entries (h : heap) (d : loc) (prefix : string) :
  ∃ h' r,
    PrefixBlueprint h (Some d) prefix = Some (h', r)
    ∧ GetServices h' (Some r) = prefixed_service prefix <$> GetServices h (Some d)
    ∧ GetDatabases h' (Some r)
      = prefixed_database prefix <$> GetDatabases h (Some d)
    ∧ GetEnvVarGroups h' (Some r)
      = prefixed_group prefix <$> GetEnvVarGroups h (Some d).
Proof.
  destruct (decide (prefix = "")) as [->|Hne];
    [|exact (PrefixBlueprint_post h d prefix Hne)].
  pose proof (CopyBlueprint_post h d) as Hc.
  rw /PrefixBlueprint. cbn [orb bool_decide decide_rel]. 
  rw (bool_decide_eq_false_2 (Some d = None)) //.
  rw (bool_decide_eq_true_2 ("" = "")) //. cbn [orb].
  destruct (CopyBlueprint h (Some d)) as [h' r]. cbn [fst snd] in Hc.
  exists h', r. split; [done|].
  rw (copy_post_services _ _ _ _ Hc) (copy_post_databases _ _ _ _ Hc)
     (copy_post_groups _ _ _ _ Hc).
  destruct (prefixed_empty (GetServices h (Some d)) (GetDatabases h (Some d))
              (GetEnvVarGroups h (Some d))) as (-> & -> & ->).
  done.
Qed.

Lemma valid_blueprint_prefixed (h h' : heap) (d r : loc) (prefix : string) :
  GetServices h' (Some r) = prefixed_service prefix <$> GetServices h (Some d) →
  GetDatabases h' (Some r)
  = prefixed_database prefix <$> GetDatabases h (Some d) →
  GetEnvVarGroups h' (Some r)
  = prefixed_group prefix <$> GetEnvVarGroups h (Some d) →
  valid_blueprint h (Some d) → valid_blueprint h' (Some r).
Proof.
  intros Es Ed Eg (Ns & Nd & Ng & Fs & Fd & Fg).
  assert (Inj (=) (=) (String.append prefix)) as Hinj.
  { intros a b. apply string_app_inj. }
  rw /valid_blueprint Es Ed Eg. clear Es Ed Eg.
  revert Ns Nd Ng Fs Fd Fg.
  generalize (GetServices h (Some d)) (GetDatabases h (Some d))
             (GetEnvVarGroups h (Some d)).
  intros ss ds gs Ns Nd Ng Fs Fd Fg.
  rw -!list_fmap_compose !Forall_fmap.
  split_and!.
  - change (NoDup ((String.append prefix ∘ svc_Name) <$> ss)).
    rw list_fmap_compose. by apply (NoDup_fmap_2 _).
  - change (NoDup ((String.append prefix ∘ db_Name) <$> ds)).
    rw list_fmap_compose. by apply (NoDup_fmap_2 _).
  - change (NoDup ((String.append prefix ∘ eg_Name) <$> gs)).
    rw list_fmap_compose. by apply (NoDup_fmap_2 _).
  - eapply Forall_impl; [exact Fs|]. intros s (Hn & Ht & Hr).
    split_and!; [|done..]. by intros ?%string_app_nil_inv.
  - eapply Forall_impl; [exact Fd|]. intros x Hn.
    by intros ?%string_app_nil_inv.
  - eapply Forall_impl; [exact Fg|]. intros x Hn.
    by intros ?%string_app_nil_inv.
Qed.

(** X6. A blueprint that passes [ValidateBlueprint] still passes it after
    [PrefixBlueprint], whatever the prefix. *)
Theorem PrefixBlueprint_valid (h : heap) (d : loc) (prefix : string) :
  ValidateBlueprint h (Some d) = [] →
  ∃ h' r, PrefixBlueprint h (Some d) prefix = Some (h', r)
          ∧ ValidateBlueprint h' (Some r) = [].
Proof.
  intros Hv%ValidateBlueprint_some_nil.
  destruct (PrefixBlueprint_entries h d prefix) as (h' & r & E & Es & Ed & Eg).
  exists h', r. split; [done|]. apply ValidateBlueprint_some_nil.
  by apply (valid_blueprint_prefixed h h' d r prefix).
Qed.

Lemma PrefixBlueprint_valid_witness :
  ValidateBlueprint stack_heap (Some 1%positive) = []
  ∧ ∃ h' r, PrefixBlueprint stack_heap (Some 1%positive) "prod-" = Some (h', r)
            ∧ ValidateBlueprint h' (Some r) = [].
Proof.
  split; [vm_compute; reflexivity|].
  apply (PrefixBlueprint_valid stack_heap 1%positive "prod-").
  vm_compute. reflexivity.
Defined.

(** ** Prefixing as a way out of a conflict *)

Lemma HasPrefix_app (prefix s : string) : HasPrefix (prefix +:+ s) prefix = true.
Proof.
  rw /HasPrefix. induction prefix as [|c prefix IH].
  - by destruct s.
  - change (String.prefix (String c prefix) (String c (prefix +:+ s)) = true).
    cbn [String.prefix]. by destruct (Ascii.ascii_dec c c).
Qed.

Lemma names_avoid_prefix_elem (h : heap) (bp : option loc) (prefix n : string) :
  names_avoid_prefix h bp prefix = true →
  n ∈ (svc_Name <$> GetServices h bp) ++ (db_Name <$> GetDatabases h bp)
      ++ (eg_Name <$> GetEnvVarGroups h bp) →
  ∀ m, n ≠ prefix +:+ m.
Proof.
  rw /names_avoid_prefix forallb_forall. intros Hall Hin m ->.
  apply list_elem_of_In, Hall in Hin. by rw HasPrefix_app in Hin.
Qed.



(** ** Looking an entry up by name *)

Lemma find_named_from {A} (name : A → string) (n : string) (k : nat)
    (xs : list A) :
  find_named name n k xs = shifted k (find_named name n 0 xs).
Proof.
  revert k. induction xs as [|x xs IH]; intros k; [done|].
  cbn [find_named]. case_bool_decide.
  - by rw /shifted /= Nat.add_0_r.
  - rw (IH (S k)) (IH 1). destruct (find_named name n 0 xs) as [i|]; [|done].
    rw /shifted /=. f_equal. lia.
Qed.

Lemma find_named_first {A} (name : A → string) (n : string) (xs : list A) :
  first_named (name <$> xs) n (find_named name n 0 xs).
Proof.
  induction xs as [|x xs IH]; [apply not_elem_of_nil|].
  cbn [find_named]. case_bool_decide as Hx.
  - split; [by rw /= Hx|apply not_elem_of_nil].
  - rw find_named_from. destruct (find_named name n 0 xs) as [i|]; simpl in *.
    + destruct IH as [Hi Hn]. split; [done|].
      rw not_elem_of_cons. by split; [congruence|].
    + rw not_elem_of_cons. by split; [congruence|].
Qed.

Lemma find_named_names {A B} (f : A → string) (g : B → string) (n m : string)
    (xs : list A) (ys : list B) (k : nat) :
  Forall2 (λ x y, f x = n ↔ g y = m) xs ys →
  find_named f n k xs = find_named g m k ys.
Proof.
  intros H. revert k. induction H as [|x y xs ys Hxy _ IH]; intros k; [done|].
  cbn [find_named]. rw (IH (S k)).
  repeat case_bool_decide; tauto.
Qed.

Lemma find_named_app_from {A} (name : A → string) (n : string) (k : nat)
    (xs ys : list A) :
  find_named name n k (xs ++ ys)
  = match find_named name n k xs with
    | Some i => Some i
    | None => find_named name n (k + length xs) ys
    end.
Proof.
  revert k. induction xs as [|x xs IH]; intros k.
  - by rw /= Nat.add_0_r.
  - cbn [find_named app length]. case_bool_decide; [done|].
    rw (IH (S k)). by replace (S k + length xs) with (k + S (length xs)) by lia.
Qed.

Lemma find_named_app {A} (name : A → string) (n : string) (xs ys : list A) :
  find_named name n 0 (xs ++ ys)
  = match find_named name n 0 xs with
    | Some i => Some i
    | None => shifted (length xs) (find_named name n 0 ys)
    end.
Proof. by rw find_named_app_from -find_named_from. Qed.

Lemma find_named_None {A} (name : A → string) (n : string) (xs : list A) :
  find_named name n 0 xs = None ↔ n ∉ name <$> xs.
Proof.
  pose proof (find_named_first name n xs) as H.
  destruct (find_named name n 0 xs) as [i|]; simpl in H; [|done].
  split; [done|]. intros Hn. destruct H as [Hi _].
  by apply list_elem_of_lookup_2 in Hi.
Qed.

(** X8. [FindService], [FindDatabase] and [FindEnvVarGroup] return nil
    exactly when the blueprint has no entry of that kind with the name,
    and otherwise the pointer to the first such entry. *)
Theorem Find_first (h : heap) (bp : option loc) (n : string) :
  first_named (svc_Name <$> GetServices h bp) n (FindService h bp n)
  ∧ first_named (db_Name <$> GetDatabases h bp) n (FindDatabase h bp n)
  ∧ first_named (eg_Name <$> GetEnvVarGroups h bp) n (FindEnvVarGroup h bp n).
Proof.
  destruct bp as [p|].
  - split_and!; apply find_named_first.
  - split_and!; apply not_elem_of_nil.
Qed.

(** X9. An entry found under the name [n] in a blueprint is found at the
    same position under [prefix + n] in the prefixed blueprint, and an
    entry that is missing is still missing. *)
Theorem Find_prefixed (h : heap) (d : loc) (prefix n : string) :
  ∃ h' r,
    PrefixBlueprint h (Some d) prefix = Some (h', r)
    ∧ FindService h' (Some r) (prefix +:+ n) = FindService h (Some d) n
    ∧ FindDatabase h' (Some r) (prefix +:+ n) = FindDatabase h (Some d) n
    ∧ FindEnvVarGroup h' (Some r) (prefix +:+ n)
      = FindEnvVarGroup h (Some d) n.
Proof.
  destruct (PrefixBlueprint_entries h d prefix) as (h' & r & E & Es & Ed & Eg).
  exists h', r. split; [done|].
  rw /FindService /FindDatabase /FindEnvVarGroup.
  rw -/(GetServices h' (Some r)) -/(GetDatabases h' (Some r))
     -/(GetEnvVarGroups h' (Some r)) Es Ed Eg.
  split_and!; apply find_named_names, Forall2_fmap_l, Forall_Forall2_diag,
    Forall_forall; intros x _; simpl;
    (split; [by intros ?%string_app_inj|by intros ->]).
Qed.

(** X10. In a merged blueprint a name is found where the base has it, and
    otherwise where the overlay has it, after the entries of the base; the
    two cannot both have it. *)
Theorem Find_merged (h : heap) (base overlay : option loc) (h' : heap)
    (r : loc) (n : string) :
  MergeBlueprints h base overlay = (h', Merged r) →
  (FindService h base n = None ∨ FindService h overlay n = None)
  ∧ FindService h' (Some r) n
    = match FindService h base n with
      | Some i => Some i
      | None => shifted (length (GetServices h base)) (FindService h overlay n)
      end
  ∧ FindDatabase h' (Some r) n
    = match FindDatabase h base n with
      | Some i => Some i
      | None => shifted (length (GetDatabases h base)) (FindDatabase h overlay n)
      end
  ∧ FindEnvVarGroup h' (Some r) n
    = match FindEnvVarGroup h base n with
      | Some i => Some i
      | None =>
        shifted (length (GetEnvVarGroups h base)) (FindEnvVarGroup h overlay n)
      end.
Proof.
  intros E.
  pose proof (MergeBlueprints_merged_no_conflicts _ _ _ _ _ E) as Hc.
  rw FindConflicts_eq_spec conflicts_spec_nil in Hc. destruct Hc as (Ds & _).
  destruct (MergeBlueprints_post _ _ _ _ _ E) as [Es Ed Eg _ _ _ _ _ _ _].
  assert (∀ bp, FindService h bp n = find_named svc_Name n 0 (GetServices h bp))
    as Fs by by intros [?|].
  assert (∀ bp, FindDatabase h bp n = find_named db_Name n 0 (GetDatabases h bp))
    as Fd by by intros [?|].
  assert (∀ bp, FindEnvVarGroup h bp n
                = find_named eg_Name n 0 (GetEnvVarGroups h bp))
    as Fg by by intros [?|].
  rw !Fs !Fd !Fg. split_and!.
  - rw !find_named_None.
    destruct (decide (n ∈ svc_Name <$> GetServices h base)) as [Hin|Hin];
      [right; by apply Ds|by left].
  - rw /FindService -/(GetServices h' (Some r)) Es. apply find_named_app.
  - rw /FindDatabase -/(GetDatabases h' (Some r)) Ed. apply find_named_app.
  - rw /FindEnvVarGroup -/(GetEnvVarGroups h' (Some r)) Eg.
    apply find_named_app.
Qed.

Lemma Find_merged_witness :
  let h' := (MergeBlueprints stack_heap (Some 1%positive) (Some 2%positive)).1 in
  MergeBlueprints stack_heap (Some 1%positive) (Some 2%positive)
  = (h', Merged 3%positive)
  ∧ FindService h' (Some 3%positive) "worker" = Some 2
  ∧ FindDatabase h' (Some 3%positive) "db" = Some 0
  ∧ FindEnvVarGroup h' (Some 3%positive) "worker" = None.
Proof.
  intros h'.
  assert (MergeBlueprints stack_heap (Some 1%positive) (Some 2%positive)
          = (h', Merged 3%positive)) as E by (vm_compute; reflexivity).
  split; [exact E|].
  destruct (Find_merged stack_heap (Some 1%positive) (Some 2%positive) h'
              3%positive "worker" E) as (_ & Hs & _ & Hg).
  destruct (Find_merged stack_heap (Some 1%positive) (Some 2%positive) h'
              3%positive "db" E) as (_ & _ & Hd & _).
  split; [rw Hs; vm_compute; reflexivity|].
  split; [rw Hd; vm_compute; reflexivity|].
  rw Hg. vm_compute. reflexivity.
Defined.

(** ** The value of a merged blueprint *)

Lemma snapshot_of_eq (h : heap) (bp : option loc) :
  snapshot_of h bp
  = mkBlueprintSnap (snap_service h <$> GetServices h bp)
      (snap_database h <$> GetDatabases h bp)
      (snap_group h <$> GetEnvVarGroups h bp)
      (pv_Generation <$> previews_of h bp)
      (expire_days_of h bp).
Proof. by destruct bp. Qed.

Lemma alloc_blueprint_nested (h : heap) (b : Blueprint) :
  same_nested h (alloc_blueprint h b).1.
Proof. by rw /same_nested. Qed.

(** [MergeBlueprints] leaves every store below the three collections as
    it was, whether it succeeds or not. *)
Lemma MergeBlueprints_nested (h : heap) (base overlay : option loc) :
  same_nested h (MergeBlueprints h base overlay).1.
Proof.
  destruct base as [pb|], overlay as [po|]; rw /MergeBlueprints.
  - case_bool_decide as Hc; [by rw /same_nested|].
    repeat match goal with
           | |- context [go_append ?m ?s ?xs] =>
             destruct (go_append m s xs) as [? ?]
           end.
    by rw /same_nested.
  - pose proof (copy_post_nested _ _ _ _ (CopyBlueprint_post h pb)) as Hn.
    by destruct (CopyBlueprint h (Some pb)).
  - pose proof (copy_post_nested _ _ _ _ (CopyBlueprint_post h po)) as Hn.
    by destruct (CopyBlueprint h (Some po)).
  - by rw /same_nested.
Qed.

Lemma merge_post_snapshot (h : heap) (base overlay : option loc)
    (h' : heap) (r : loc) :
  merge_post h base overlay h' r → same_nested h h' →
  snapshot h' r
  = mkBlueprintSnap
      (bs_Services (snapshot_of h base) ++ bs_Services (snapshot_of h overlay))
      (bs_Databases (snapshot_of h base) ++ bs_Databases (snapshot_of h overlay))
      (bs_EnvVarGroups (snapshot_of h base)
       ++ bs_EnvVarGroups (snapshot_of h overlay))
      (match bs_Previews (snapshot_of h overlay) with
       | Some g => Some g
       | None => bs_Previews (snapshot_of h base)
       end)
      (match bs_PreviewsExpireAfterDays (snapshot_of h overlay) with
       | Some n => Some n
       | None => bs_PreviewsExpireAfterDays (snapshot_of h base)
       end).
Proof.
  intros [Es Ed Eg Ep Ei _ _ _ _ _] Hn.
  rw snapshot_eq !snapshot_of_eq Es Ed Eg Ep Ei !fmap_app.
  cbn [bs_Services bs_Databases bs_EnvVarGroups bs_Previews
       bs_PreviewsExpireAfterDays].
  f_equal.
  - f_equal; apply list_fmap_ext; intros; by apply snap_service_ext.
  - f_equal; apply list_fmap_ext; intros; by apply snap_database_ext.
  - f_equal; apply list_fmap_ext; intros; by apply snap_group_ext.
  - by destruct (previews_of h overlay).
Qed.

(** X11. The blueprint that [MergeBlueprints] returns has, with every
    pointer followed, the services, databases and env-groups of the base
    followed by those of the overlay, each entry with the value it has in
    its input, and the overlay's preview settings where the overlay has
    them and the base's otherwise. *)
Theorem MergeBlueprints_snapshot (h : heap) (base overlay : option loc)
    (h' : heap) (r : loc) :
  MergeBlueprints h base overlay = (h', Merged r) →
  snapshot h' r
  = mkBlueprintSnap
      (bs_Services (snapshot_of h base) ++ bs_Services (snapshot_of h overlay))
      (bs_Databases (snapshot_of h base) ++ bs_Databases (snapshot_of h overlay))
      (bs_EnvVarGroups (snapshot_of h base)
       ++ bs_EnvVarGroups (snapshot_of h overlay))
      (match bs_Previews (snapshot_of h overlay) with
       | Some g => Some g
       | None => bs_Previews (snapshot_of h base)
       end)
      (match bs_PreviewsExpireAfterDays (snapshot_of h overlay) with
       | Some n => Some n
       | None => bs_PreviewsExpireAfterDays (snapshot_of h base)
       end).
Proof.
  intros E. apply merge_post_snapshot; [by apply MergeBlueprints_post|].
  pose proof (MergeBlueprints_nested h base overlay) as Hn. by rw E in Hn.
Qed.

Lemma MergeBlueprints_snapshot_witness :
  let h' := (MergeBlueprints stack_heap (Some 1%positive) (Some 2%positive)).1 in
  MergeBlueprints stack_heap (Some 1%positive) (Some 2%positive)
  = (h', Merged 3%positive)
  ∧ ss_Name <$> bs_Services (snapshot h' 3%positive) = ["api"; "cache"; "worker"]
  ∧ bs_Previews (snapshot h' 3%positive) = Some "automatic"
  ∧ bs_PreviewsExpireAfterDays (snapshot h' 3%positive) = Some 7%Z.
Proof.
  intros h'.
  assert (MergeBlueprints stack_heap (Some 1%positive) (Some 2%positive)
          = (h', Merged 3%positive)) as E by (vm_compute; reflexivity).
  split; [exact E|].
  rw (MergeBlueprints_snapshot stack_heap (Some 1%positive) (Some 2%positive)
        h' 3%positive E).
  vm_compute. split_and!; reflexivity.
Defined.

(** ** External references *)

Lemma checkEnvVarReferences_split (eS eD eG : gmap string bool) (h : heap)
    (envVars : list EnvVar) (S D G : gmap string bool) :
  checkEnvVarReferences eS eD eG h envVars (S, D, G)
  = (foldl (check_reference eS ev_FromService
              (λ p, fs_Name (cell_get (fromsvc_cells h) p))) S envVars,
     foldl (check_reference eD ev_FromDatabase
              (λ p, fd_Name (cell_get (fromdb_cells h) p))) D envVars,
     foldl (check_reference eG ev_FromGroup (cell_get (string_cells h)))
           G envVars).
Proof.
  rw /checkEnvVarReferences. revert S D G.
  induction envVars as [|e es IH]; intros S D G; [done|].
  cbn [foldl]. by rw IH.
Qed.

Lemma check_reference_dom (existing : gmap string bool)
    (get : EnvVar → option loc) (read : loc → string)
    (envVars : list EnvVar) (external : gmap string bool) (n : string) :
  n ∈ dom (foldl (check_reference existing get read) external envVars)
  ↔ n ∈ dom external
    ∨ (n ∈ read <$> omap get envVars ∧ map_bool existing n = false).
Proof.
  revert external. induction envVars as [|e es IH]; intros external.
  - simpl. split; [by left|]. intros [?|[?%elem_of_nil ?]]; done.
  - cbn [foldl]. rw IH. clear IH. rw /check_reference.
    assert (omap get (e :: es)
            = match get e with Some p => p :: omap get es | None => omap get es end)
      as -> by done.
    destruct (get e) as [p|]; [|done].
    rw fmap_cons elem_of_cons.
    destruct (map_bool existing (read p)) eqn:Hex; simpl.
    + intuition congruence.
    + rw dom_insert elem_of_union elem_of_singleton. intuition congruence.
Qed.

Lemma foldl_foldl_bind {A B C} (f : A → C → A) (g : B → list C) (xs : list B)
    (a : A) :
  foldl (λ acc x, foldl f acc (g x)) a xs = foldl f a (xs ≫= g).
Proof.
  revert a. induction xs as [|x xs IH]; intros a; [done|].
  by rw /= IH foldl_app.
Qed.

Lemma map_keys_spec (m : gmap string bool) :
  (∀ n, n ∈ map_keys m ↔ n ∈ dom m) ∧ NoDup (map_keys m).
Proof.
  rw /map_keys.
  apply (map_fold_weak_ind
           (λ r (m : gmap string bool), (∀ n, n ∈ r ↔ n ∈ dom m) ∧ NoDup r)).
  - split; [|constructor]. intros n. rw dom_empty elem_of_nil. set_solver.
  - intros i x m' r Hi [Hin Hnd]. split.
    + intros n. rw elem_of_app Hin dom_insert elem_of_union !elem_of_singleton.
      rw list_elem_of_singleton. tauto.
    + apply NoDup_app. split_and!; [done| |apply NoDup_singleton].
      intros n Hn ->%list_elem_of_singleton.
      apply Hin, elem_of_dom in Hn as [? ?]. congruence.
Qed.

Lemma checkEnvVarReferences_loop {B} (eS eD eG : gmap string bool) (h : heap)
    (g : B → list EnvVar) (xs : list B)
    (external : gmap string bool * gmap string bool * gmap string bool) :
  foldl (λ external x, checkEnvVarReferences eS eD eG h (g x) external)
        external xs
  = checkEnvVarReferences eS eD eG h (xs ≫= g) external.
Proof. rw /checkEnvVarReferences. apply foldl_foldl_bind. Qed.

Lemma checkEnvVarReferences_app (eS eD eG : gmap string bool) (h : heap)
    (es1 es2 : list EnvVar)
    (external : gmap string bool * gmap string bool * gmap string bool) :
  checkEnvVarReferences eS eD eG h es2
    (checkEnvVarReferences eS eD eG h es1 external)
  = checkEnvVarReferences eS eD eG h (es1 ++ es2) external.
Proof. by rw /checkEnvVarReferences foldl_app. Qed.

(** The two loops over services and env-groups visit the entries of
    [all_envvars], and the three maps are filled independently. *)
Lemma GetExternalReferences_eq (h : heap) (p : loc) :
  GetExternalReferences h (Some p)
  = (map_keys
       (foldl (check_reference (collect_names svc_Name (GetServices h (Some p)))
                 ev_FromService (λ q, fs_Name (cell_get (fromsvc_cells h) q)))
              ∅ (all_envvars h (Some p))),
     map_keys
       (foldl (check_reference (collect_names db_Name (GetDatabases h (Some p)))
                 ev_FromDatabase (λ q, fd_Name (cell_get (fromdb_cells h) q)))
              ∅ (all_envvars h (Some p))),
     map_keys
       (foldl (check_reference
                 (collect_names eg_Name (GetEnvVarGroups h (Some p)))
                 ev_FromGroup (cell_get (string_cells h)))
              ∅ (all_envvars h (Some p)))).
Proof.
  rw /GetExternalReferences. cbv zeta.
  rw !checkEnvVarReferences_loop checkEnvVarReferences_app.
  by rw checkEnvVarReferences_split.
Qed.

Lemma external_names_spec {A} (name : A → string) (xs : list A)
    (get : EnvVar → option loc) (read : loc → string) (es : list EnvVar)
    (n : string) :
  (n ∈ map_keys (foldl (check_reference (collect_names name xs) get read) ∅ es)
   ↔ n ∈ read <$> omap get es ∧ n ∉ name <$> xs)
  ∧ NoDup (map_keys
             (foldl (check_reference (collect_names name xs) get read) ∅ es)).
Proof.
  destruct (map_keys_spec
              (foldl (check_reference (collect_names name xs) get read) ∅ es))
    as [Hin Hnd].
  split; [|done].
  rw Hin check_reference_dom dom_empty elem_of_empty map_bool_collect_names.
  rw bool_decide_eq_false. tauto.
Qed.

Lemma GetExternalReferences_elem (h : heap) (bp : option loc) (n : string) :
  (n ∈ (GetExternalReferences h bp).1.1
   ↔ n ∈ referenced_services h bp ∧ n ∉ svc_Name <$> GetServices h bp)
  ∧ (n ∈ (GetExternalReferences h bp).1.2
     ↔ n ∈ referenced_databases h bp ∧ n ∉ db_Name <$> GetDatabases h bp)
  ∧ (n ∈ (GetExternalReferences h bp).2
     ↔ n ∈ referenced_groups h bp ∧ n ∉ eg_Name <$> GetEnvVarGroups h bp).
Proof.
  destruct bp as [p|].
  2:{ rw /referenced_services /referenced_databases /referenced_groups /=.
      split_and!;
        (split; [by intros ?%elem_of_nil|by intros [?%elem_of_nil _]]). }
  rw GetExternalReferences_eq. cbn [fst snd].
  rw /referenced_services /referenced_databases /referenced_groups.
  split_and!; apply external_names_spec.
Qed.

(** X12. [GetExternalReferences] returns, for each kind, the names that
    some [EnvVar] entry of a service or an env-group of the blueprint
    refers to and that the blueprint does not define for that kind, each
    name once; for a nil blueprint it returns nothing. *)
Theorem GetExternalReferences_spec (h : heap) (bp : option loc) (n : string) :
  (n ∈ (GetExternalReferences h bp).1.1
   ↔ n ∈ referenced_services h bp ∧ n ∉ svc_Name <$> GetServices h bp)
  ∧ (n ∈ (GetExternalReferences h bp).1.2
     ↔ n ∈ referenced_databases h bp ∧ n ∉ db_Name <$> GetDatabases h bp)
  ∧ (n ∈ (GetExternalReferences h bp).2
     ↔ n ∈ referenced_groups h bp ∧ n ∉ eg_Name <$> GetEnvVarGroups h bp)
  ∧ NoDup (GetExternalReferences h bp).1.1
  ∧ NoDup (GetExternalReferences h bp).1.2
  ∧ NoDup (GetExternalReferences h bp).2.
Proof.
  destruct (GetExternalReferences_elem h bp n) as (Hs & Hd & Hg).
  split_and!; [done..| | |]; destruct bp as [p|];
    try apply NoDup_nil_2; rw GetExternalReferences_eq; cbn [fst snd];
    apply external_names_spec; exact "".
Qed.

Lemma referenced_elem_or (get : EnvVar → option loc) (read : loc → string)
    (es es1 es2 : list EnvVar) (n : string) :
  (∀ e, e ∈ es ↔ e ∈ es1 ∨ e ∈ es2) →
  n ∈ read <$> omap get es
  ↔ n ∈ read <$> omap get es1 ∨ n ∈ read <$> omap get es2.
Proof.
  intros H. rw !list_elem_of_fmap. split.
  - intros (p & -> & (e & He & Hp)%list_elem_of_omap).
    apply H in He as [He|He]; [left|right]; exists p; (split; [done|]);
      apply list_elem_of_omap; eauto.
  - intros [(p & -> & (e & He & Hp)%list_elem_of_omap)
           |(p & -> & (e & He & Hp)%list_elem_of_omap)];
      exists p; (split; [done|]); apply list_elem_of_omap; exists e;
      (split; [apply H; auto|done]).
Qed.

Lemma all_envvars_merged (h : heap) (base overlay : option loc) (h' : heap)
    (r : loc) (e : EnvVar) :
  merge_post h base overlay h' r → same_nested h h' →
  e ∈ all_envvars h' (Some r)
  ↔ e ∈ all_envvars h base ∨ e ∈ all_envvars h overlay.
Proof.
  intros [Es _ Eg _ _ _ _ _ _ _] (He & _).
  rw /all_envvars Es Eg He !bind_app !elem_of_app. tauto.
Qed.

(** X13. After a successful merge, a name is an external reference of the
    merged blueprint exactly when it is an external reference of the base
    that the overlay does not define, or one of the overlay that the base
    does not define: the merge resolves the references between the two. *)
Theorem GetExternalReferences_merged (h : heap) (base overlay : option loc)
    (h' : heap) (r : loc) (n : string) :
  MergeBlueprints h base overlay = (h', Merged r) →
  (n ∈ (GetExternalReferences h' (Some r)).1.1
   ↔ (n ∈ (GetExternalReferences h base).1.1
      ∧ n ∉ svc_Name <$> GetServices h overlay)
     ∨ (n ∈ (GetExternalReferences h overlay).1.1
        ∧ n ∉ svc_Name <$> GetServices h base))
  ∧ (n ∈ (GetExternalReferences h' (Some r)).1.2
     ↔ (n ∈ (GetExternalReferences h base).1.2
        ∧ n ∉ db_Name <$> GetDatabases h overlay)
       ∨ (n ∈ (GetExternalReferences h overlay).1.2
          ∧ n ∉ db_Name <$> GetDatabases h base))
  ∧ (n ∈ (GetExternalReferences h' (Some r)).2
     ↔ (n ∈ (GetExternalReferences h base).2
        ∧ n ∉ eg_Name <$> GetEnvVarGroups h overlay)
       ∨ (n ∈ (GetExternalReferences h overlay).2
          ∧ n ∉ eg_Name <$> GetEnvVarGroups h base)).
Proof.
  intros E. pose proof (MergeBlueprints_nested h base overlay) as Hn.
  rw E in Hn. cbn [fst] in Hn.
  pose proof (MergeBlueprints_post _ _ _ _ _ E) as Hm.
  pose proof (λ e, all_envvars_merged h base overlay h' r e Hm Hn) as Hes.
  destruct Hm as [Es Ed Eg _ _ _ _ _ _ _].
  destruct Hn as (_ & _ & Hfd & Hfs & Hst & _).
  destruct (GetExternalReferences_elem h' (Some r) n) as (-> & -> & ->).
  destruct (GetExternalReferences_elem h base n) as (-> & -> & ->).
  destruct (GetExternalReferences_elem h overlay n) as (-> & -> & ->).
  rw /referenced_services /referenced_databases /referenced_groups.
  rw Hfd Hfs Hst Es Ed Eg !fmap_app !not_elem_of_app.
  rw (referenced_elem_or ev_FromService _ _ _ _ n Hes).
  rw (referenced_elem_or ev_FromDatabase _ _ _ _ n Hes).
  rw (referenced_elem_or ev_FromGroup _ _ _ _ n Hes).
  tauto.
Qed.

Lemma GetExternalReferences_merged_witness :
  let h' := (MergeBlueprints stack_heap (Some 1%positive) (Some 2%positive)).1 in
  MergeBlueprints stack_heap (Some 1%positive) (Some 2%positive)
  = (h', Merged 3%positive)
  ∧ "db" ∈ (GetExternalReferences stack_heap (Some 2%positive)).1.2
  ∧ ("db" ∉ (GetExternalReferences h' (Some 3%positive)).1.2)
  ∧ "legacy-db" ∈ (GetExternalReferences h' (Some 3%positive)).1.2.
Proof.
  intros h'.
  assert (MergeBlueprints stack_heap (Some 1%positive) (Some 2%positive)
          = (h', Merged 3%positive)) as E by (vm_compute; reflexivity).
  split; [exact E|]. split; [vm_compute; left|].
  destruct (GetExternalReferences_merged stack_heap (Some 1%positive)
              (Some 2%positive) h' 3%positive "db" E) as (_ & Hdb & _).
  destruct (GetExternalReferences_merged stack_heap (Some 1%positive)
              (Some 2%positive) h' 3%positive "legacy-db" E) as (_ & Hl & _).
  split.
  - rw Hdb. intros [[Hin _]|[_ Hn]].
    + vm_compute in Hin. inversion Hin as [|? ? ? Hin']. inversion Hin'.
    + apply Hn. vm_compute. left.
  - apply Hl. left. vm_compute. split; [left|].
    intros Hin. inversion Hin as [|? ? ? Hin']. inversion Hin'.
Defined.

(** ** What [PrefixBlueprint] leaves of its argument *)

Lemma PrefixBlueprint_frame_any (h : heap) (d : loc) (prefix : string) :
  ∃ h' r,
    PrefixBlueprint h (Some d) prefix = Some (h', r)
    ∧ blueprints h ⊆ blueprints h'
    ∧ service_arrays h ⊆ service_arrays h'
    ∧ database_arrays h ⊆ database_arrays h'
    ∧ group_arrays h ⊆ group_arrays h'
    ∧ previews_cells h ⊆ previews_cells h'
    ∧ int_cells h ⊆ int_cells h'.
Proof.
  destruct (decide (prefix = "")) as [->|Hne].
  - pose proof (copy_post_extends _ _ _ _ (CopyBlueprint_post h d))
      as (Xb & Xs & Xd & Xg & _ & _ & _ & _ & _ & _ & Xp & Xi).
    rw /PrefixBlueprint.
    rw (bool_decide_eq_false_2 (Some d = None)) //.
    rw (bool_decide_eq_true_2 ("" = "")) //. cbn [orb].
    destruct (CopyBlueprint h (Some d)) as [h' r]. by exists h', r.
  - destruct (PrefixBlueprint_frame h d prefix Hne)
      as (h' & r & E & Xb & Xs & Xd & Xg & _ & _ & Xp & Xi).
    by exists h', r.
Qed.



(** ** Prefixing with a separator, and prefixing twice *)

Lemma string_app_assoc (a b c : string) : (a +:+ b) +:+ c = a +:+ (b +:+ c).
Proof.
  induction a as [|x a IH]; [done|]. exact (f_equal (String x) IH).
Qed.

Lemma string_app_not_nil_r (a b : string) : b ≠ "" → a +:+ b ≠ "".
Proof. intros Hb E. by apply string_app_nil_inv in E. Qed.

(** X15. [PrefixBlueprintWithSeparator] puts the prefix and then the
    separator before every name, with "-" standing for an empty separator:
    even with an empty prefix the names of the result are never those of
    the argument. *)
Theorem PrefixBlueprintWithSeparator_names (h : heap) (d : loc)
    (prefix separator : string) :
  PrefixBlueprintWithSeparator h (Some d) prefix ""
  = PrefixBlueprintWithSeparator h (Some d) prefix "-"
  ∧ ∃ sep h' r,
      sep = (if bool_decide (separator = "") then "-" else separator)
      ∧ sep ≠ ""
      ∧ PrefixBlueprintWithSeparator h (Some d) prefix separator = Some (h', r)
      ∧ GetAllResourceNames h' (Some r)
        = ((λ n, prefix +:+ sep +:+ n) <$> (GetAllResourceNames h (Some d)).1.1,
           (λ n, prefix +:+ sep +:+ n) <$> (GetAllResourceNames h (Some d)).1.2,
           (λ n, prefix +:+ sep +:+ n) <$> (GetAllResourceNames h (Some d)).2).
Proof.
  split; [done|].
  exists (if bool_decide (separator = "") then "-" else separator).
  assert ((if bool_decide (separator = "") then "-" else separator) ≠ "")
    as Hsep by by case_bool_decide.
  rw /PrefixBlueprintWithSeparator. cbv zeta.
  set (sep := if bool_decide (separator = "") then "-" else separator) in *.
  destruct (PrefixBlueprint_names_post h d (prefix +:+ sep)
              (string_app_not_nil_r _ _ Hsep)) as (h' & r & E & En).
  exists h', r. split_and!; [done..|].
  rw En.
  assert (∀ xs : list string,
            String.append (prefix +:+ sep) <$> xs
            = (λ n, prefix +:+ sep +:+ n) <$> xs) as Hf.
  { intros xs. apply list_fmap_ext. intros. apply string_app_assoc. }
  by rw !Hf.
Qed.

(** X16. Prefixing with [p] and then with [q] gives the same entries as
    prefixing once with [q + p]. *)
Theorem PrefixBlueprint_twice (h : heap) (d : loc) (p q : string) :
  ∃ h1 r1 h2 r2 h3 r3,
    PrefixBlueprint h (Some d) p = Some (h1, r1)
    ∧ PrefixBlueprint h1 (Some r1) q = Some (h2, r2)
    ∧ PrefixBlueprint h (Some d) (q +:+ p) = Some (h3, r3)
    ∧ GetServices h2 (Some r2) = GetServices h3 (Some r3)
    ∧ GetDatabases h2 (Some r2) = GetDatabases h3 (Some r3)
    ∧ GetEnvVarGroups h2 (Some r2) = GetEnvVarGroups h3 (Some r3).
Proof.
  destruct (PrefixBlueprint_entries h d p) as (h1 & r1 & E1 & S1 & D1 & G1).
  destruct (PrefixBlueprint_entries h1 r1 q) as (h2 & r2 & E2 & S2 & D2 & G2).
  destruct (PrefixBlueprint_entries h d (q +:+ p))
    as (h3 & r3 & E3 & S3 & D3 & G3).
  exists h1, r1, h2, r2, h3, r3. split_and!; [done..| | |].
  - rw S2 S1 S3 -list_fmap_compose. apply list_fmap_ext. intros _ s _.
    rw /prefixed_service /=. by rw string_app_assoc.
  - rw D2 D1 D3 -list_fmap_compose. apply list_fmap_ext. intros _ s _.
    rw /prefixed_database /=. by rw string_app_assoc.
  - rw G2 G1 G3 -list_fmap_compose. apply list_fmap_ext. intros _ s _.
    rw /prefixed_group /=. by rw string_app_assoc.
Qed.

(** ** References of a prefixed blueprint *)

Lemma rewritten_name_external (prefix n : string) (defined : list string)
    (referenced : list string) :
  (n ∈ rewritten_name prefix defined <$> referenced
   ∧ n ∉ String.append prefix <$> defined)
  ↔ (n ∈ referenced ∧ n ∉ defined) ∧ n ∉ String.append prefix <$> defined.
Proof.
  split.
  - intros [(m & -> & Hm)%list_elem_of_fmap Hnd].
    rw /rewritten_name in Hnd |- *. case_bool_decide as Hdef.
    + exfalso. apply Hnd. by apply list_elem_of_fmap_2.
    + done.
  - intros [[Hr Hd] Hnd]. split; [|done]. apply list_elem_of_fmap.
    exists n. split; [|done]. by rw /rewritten_name bool_decide_eq_false_2.
Qed.

Lemma list_fmap_fmap_ext {A B C} (f : A → C) (g : B → C) (k : A → B)
    (l : list A) :
  (∀ x, x ∈ l → f x = g (k x)) → f <$> l = g <$> (k <$> l).
Proof.
  intros H. rw -list_fmap_compose. apply list_fmap_ext.
  intros i x Hx%list_elem_of_lookup_2. by apply H.
Qed.

Lemma PrefixBlueprint_referenced (h : heap) (d : loc) (prefix : string) :
  prefix ≠ "" →
  NoDup (omap ev_FromDatabase (all_envvars h (Some d))) →
  NoDup (omap ev_FromService (all_envvars h (Some d))) →
  NoDup (omap ev_FromGroup (all_envvars h (Some d))) →
  ∃ h' r,
    PrefixBlueprint h (Some d) prefix = Some (h', r)
    ∧ referenced_services h' (Some r)
      = rewritten_name prefix (svc_Name <$> GetServices h (Some d))
        <$> referenced_services h (Some d)
    ∧ referenced_databases h' (Some r)
      = rewritten_name prefix (db_Name <$> GetDatabases h (Some d))
        <$> referenced_databases h (Some d)
    ∧ referenced_groups h' (Some r)
      = rewritten_name prefix (eg_Name <$> GetEnvVarGroups h (Some d))
        <$> referenced_groups h (Some d).
Proof.
  intros Hp Hdb Hsvc Hgrp.
  destruct (PrefixBlueprint_references_unshared h d prefix Hp Hdb Hsvc Hgrp)
    as (h' & r & E & Ees & Hrefs).
  exists h', r. split; [done|].
  rw /referenced_services /referenced_databases /referenced_groups Ees.
  split_and!; apply list_fmap_fmap_ext;
    intros p (e & He & Hk)%list_elem_of_omap;
    destruct (Hrefs e He) as (Hd & Hs & Hg).
  - exact (f_equal fs_Name (Hs p Hk)).
  - exact (f_equal fd_Name (Hd p Hk)).
  - exact (Hg p Hk).
Qed.



(** ** Finding a name that is not taken *)

Lemma findAvailableName_from_spec (baseName : string)
    (existingNames : gmap string bool) (fuel : nat) (i : Z) :
  match findAvailableName_from fuel baseName existingNames i with
  | Some c =>
    ∃ k : nat, (k < fuel)%nat ∧ c = Sprintf_s_d baseName (i + Z.of_nat k)
      ∧ map_bool existingNames c = false
      ∧ ∀ j : nat, (j < k)%nat →
          map_bool existingNames (Sprintf_s_d baseName (i + Z.of_nat j)) = true
  | None =>
    ∀ j : nat, (j < fuel)%nat →
      map_bool existingNames (Sprintf_s_d baseName (i + Z.of_nat j)) = true
  end.
Proof.
  revert i. induction fuel as [|fuel IH]; intros i; [intros j; lia|].
  cbn [findAvailableName_from]. cbv zeta.
  destruct (map_bool existingNames (Sprintf_s_d baseName i)) eqn:Hi;
    cbn [negb].
  - specialize (IH (i + 1)%Z).
    destruct (findAvailableName_from fuel baseName existingNames (i + 1))
      as [c|].
    + destruct IH as (k & Hk & -> & Hc & Hj). exists (S k).
      replace (i + Z.of_nat (S k))%Z with (i + 1 + Z.of_nat k)%Z by lia.
      split_and!; [lia|done..|].
      intros [|j] Hlt; [by rw Z.add_0_r|].
      replace (i + Z.of_nat (S j))%Z with (i + 1 + Z.of_nat j)%Z by lia.
      apply Hj. lia.
    + intros [|j] Hlt; [by rw Z.add_0_r|].
      replace (i + Z.of_nat (S j))%Z with (i + 1 + Z.of_nat j)%Z by lia.
      apply IH. lia.
  - exists 0%nat. rw Z.add_0_r. split_and!; [lia|done..|]. intros j; lia.
Qed.

(** Candidates that are all taken are distinct keys of the map, so there
    are no more of them than the map has entries. *)
Lemma taken_names_bound (baseName : string) (existingNames : gmap string bool)
    (i : Z) (n : nat) :
  (∀ j : nat, (j < n)%nat →
     map_bool existingNames (Sprintf_s_d baseName (i + Z.of_nat j)) = true) →
  (n ≤ size existingNames)%nat.
Proof.
  intros Hall.
  set (f := λ j : nat, Sprintf_s_d baseName (i + Z.of_nat j)).
  assert (Inj (=) (=) f) as Hinj.
  { intros a b E. rw /f /Sprintf_s_d in E.
    apply string_app_inj, string_app_inj, (inj pretty) in E. lia. }
  assert (f <$> seq 0 n ⊆+ elements (dom existingNames)) as Hsub.
  { apply NoDup_submseteq; [apply (NoDup_fmap_2 _), NoDup_seq|].
    intros x (j & -> & Hj%elem_of_seq)%list_elem_of_fmap.
    apply elem_of_elements, elem_of_dom.
    specialize (Hall j ltac:(lia)). rw /map_bool in Hall. fold (f j) in Hall.
    destruct (existingNames !! f j); [done|discriminate]. }
  apply submseteq_length in Hsub. rw length_fmap length_seq in Hsub.
  by rw -size_dom.
Qed.

(** X18. [findAvailableName] returns once it has tried more candidates
    than the map has entries: it returns the first of "base-2", "base-3",
    ... that the map does not hold as true, which is among the first
    [len(existingNames) + 1] candidates. *)
Theorem findAvailableName_returns (baseName : string)
    (existingNames : gmap string bool) (fuel : nat) :
  (size existingNames < fuel)%nat →
  ∃ k : nat,
    (k ≤ size existingNames)%nat
    ∧ findAvailableName fuel baseName existingNames
      = Some (Sprintf_s_d baseName (2 + Z.of_nat k))
    ∧ map_bool existingNames (Sprintf_s_d baseName (2 + Z.of_nat k)) = false
    ∧ ∀ j : nat, (j < k)%nat →
        map_bool existingNames (Sprintf_s_d baseName (2 + Z.of_nat j)) = true.
Proof.
  intros Hfuel. rw /findAvailableName.
  pose proof (findAvailableName_from_spec baseName existingNames fuel 2) as H.
  destruct (findAvailableName_from fuel baseName existingNames 2) as [c|].
  - destruct H as (k & Hk & -> & Hc & Hj). exists k. split_and!; try done.
    by apply (taken_names_bound baseName existingNames 2).
  - apply taken_names_bound in H. lia.
Qed.

Lemma findAvailableName_returns_witness :
  (size (<["api-2" := true]> (<["api-3" := true]> (∅ : gmap string bool))) < 3)%nat
  ∧ findAvailableName 3 "api"
      (<["api-2" := true]> (<["api-3" := true]> (∅ : gmap string bool)))
    = Some "api-4".
Proof.
  split; [vm_compute; lia|].
  destruct (findAvailableName_returns "api"
              (<["api-2" := true]> (<["api-3" := true]> (∅ : gmap string bool)))
              3) as (k & Hk & E & _); [vm_compute; lia|].
  vm_compute. reflexivity.
Defined.

(** ** Merging three blueprints *)

Lemma disjoint_names_app_l (h h1 : heap) (a b c : option loc) (ab : loc) :
  GetServices h1 (Some ab) = GetServices h a ++ GetServices h b →
  GetDatabases h1 (Some ab) = GetDatabases h a ++ GetDatabases h b →
  GetEnvVarGroups h1 (Some ab) = GetEnvVarGroups h a ++ GetEnvVarGroups h b →
  GetServices h1 c = GetServices h c →
  GetDatabases h1 c = GetDatabases h c →
  GetEnvVarGroups h1 c = GetEnvVarGroups h c →
  disjoint_names h1 (Some ab) c
  ↔ disjoint_names h a c ∧ disjoint_names h b c.
Proof.
  intros Es Ed Eg Cs Cd Cg.
  rw /disjoint_names Es Ed Eg Cs Cd Cg !fmap_app.
  setoid_rewrite elem_of_app. split.
  - intros (Hs & Hd & Hg). split_and!; eauto.
  - intros [(Hs & Hd & Hg) (Hs' & Hd' & Hg')].
    split_and!; intros n [?|?]; eauto.
Qed.

Lemma MergeBlueprints_disjoint (h : heap) (base overlay : option loc)
    (h' : heap) (r : loc) :
  MergeBlueprints h base overlay = (h', Merged r) →
  disjoint_names h base overlay.
Proof.
  intros E%MergeBlueprints_merged_no_conflicts.
  apply conflicts_spec_nil. by rw -FindConflicts_eq_spec.
Qed.

Lemma disjoint_names_succeeds (h : heap) (base overlay : option loc) :
  disjoint_names h base overlay →
  ∃ h' r, MergeBlueprints h base overlay = (h', Merged r).
Proof.
  intros Hd%conflicts_spec_nil. apply MergeBlueprints_succeeds.
  by rw FindConflicts_eq_spec.
Qed.

(** X19. Merging is associative: when [a] merged with [b] and the result
    merged with [c] succeed, so do [b] merged with [c] and [a] merged with
    that, and the two final blueprints are equal field by field. *)
Theorem MergeBlueprints_assoc (h : heap) (a b c : loc) (h1 : heap) (ab : loc)
    (h2 : heap) (abc : loc) :
  live_blueprint h a = true → live_blueprint h c = true →
  MergeBlueprints h (Some a) (Some b) = (h1, Merged ab) →
  MergeBlueprints h1 (Some ab) (Some c) = (h2, Merged abc) →
  ∃ h3 bc h4 a_bc,
    MergeBlueprints h (Some b) (Some c) = (h3, Merged bc)
    ∧ MergeBlueprints h3 (Some a) (Some bc) = (h4, Merged a_bc)
    ∧ snapshot h4 a_bc = snapshot h2 abc.
Proof.
  intros La Lc E1 E2.
  pose proof (MergeBlueprints_post _ _ _ _ _ E1) as P1.
  pose proof (MergeBlueprints_nested h (Some a) (Some b)) as N1.
  rw E1 in N1. cbn [fst] in N1.
  pose proof (MergeBlueprints_post _ _ _ _ _ E2) as P2.
  pose proof (MergeBlueprints_nested h1 (Some ab) (Some c)) as N2.
  rw E2 in N2. cbn [fst] in N2.
  destruct (live_blueprint_extends h h1 c Lc (mp_extends _ _ _ _ _ P1))
    as (_ & Cs & Cd & Cg & _).
  pose proof (live_blueprint_snapshot h h1 c Lc (mp_extends _ _ _ _ _ P1) N1)
    as Sc.
  pose proof (MergeBlueprints_disjoint _ _ _ _ _ E1) as Dab.
  pose proof (MergeBlueprints_disjoint _ _ _ _ _ E2) as Dabc.
  apply (disjoint_names_app_l h h1 (Some a) (Some b) (Some c) ab
           (mp_services _ _ _ _ _ P1) (mp_databases _ _ _ _ _ P1)
           (mp_groups _ _ _ _ _ P1) Cs Cd Cg) in Dabc as [Dac Dbc].
  destruct (disjoint_names_succeeds h (Some b) (Some c) Dbc) as (h3 & bc & E3).
  pose proof (MergeBlueprints_post _ _ _ _ _ E3) as P3.
  pose proof (MergeBlueprints_nested h (Some b) (Some c)) as N3.
  rw E3 in N3. cbn [fst] in N3.
  destruct (live_blueprint_extends h h3 a La (mp_extends _ _ _ _ _ P3))
    as (_ & As & Ad & Ag & _).
  pose proof (live_blueprint_snapshot h h3 a La (mp_extends _ _ _ _ _ P3) N3)
    as Sa.
  assert (disjoint_names h3 (Some a) (Some bc)) as Da_bc.
  { apply disjoint_names_sym.
    apply (disjoint_names_app_l h h3 (Some b) (Some c) (Some a) bc
             (mp_services _ _ _ _ _ P3) (mp_databases _ _ _ _ _ P3)
             (mp_groups _ _ _ _ _ P3) As Ad Ag).
    split; by apply disjoint_names_sym. }
  destruct (disjoint_names_succeeds h3 (Some a) (Some bc) Da_bc)
    as (h4 & a_bc & E4).
  pose proof (MergeBlueprints_post _ _ _ _ _ E4) as P4.
  pose proof (MergeBlueprints_nested h3 (Some a) (Some bc)) as N4.
  rw E4 in N4. cbn [fst] in N4.
  exists h3, bc, h4, a_bc. split_and!; [done..|].
  rw (merge_post_snapshot _ _ _ _ _ P4 N4) (merge_post_snapshot _ _ _ _ _ P2 N2).
  cbn [snapshot_of].
  rw Sa Sc (merge_post_snapshot _ _ _ _ _ P3 N3)
     (merge_post_snapshot _ _ _ _ _ P1 N1).
  cbn [snapshot_of bs_Services bs_Databases bs_EnvVarGroups bs_Previews
       bs_PreviewsExpireAfterDays].
  rw !app_assoc.
  by destruct (bs_Previews (snapshot h c)),
       (bs_PreviewsExpireAfterDays (snapshot h c)).
Qed.

Lemma MergeBlueprints_assoc_witness :
  let h1 := (MergeBlueprints sample_heap (Some 1%positive) (Some 2%positive)).1 in
  let h2 := (MergeBlueprints h1 (Some 6%positive) (Some 3%positive)).1 in
  live_blueprint sample_heap 1%positive = true
  ∧ live_blueprint sample_heap 3%positive = true
  ∧ MergeBlueprints sample_heap (Some 1%positive) (Some 2%positive)
    = (h1, Merged 6%positive)
  ∧ MergeBlueprints h1 (Some 6%positive) (Some 3%positive)
    = (h2, Merged 7%positive)
  ∧ ∃ h3 bc h4 a_bc,
      MergeBlueprints sample_heap (Some 2%positive) (Some 3%positive)
      = (h3, Merged bc)
      ∧ MergeBlueprints h3 (Some 1%positive) (Some bc) = (h4, Merged a_bc)
      ∧ snapshot h4 a_bc = snapshot h2 7%positive.
Proof.
  intros h1 h2.
  assert (live_blueprint sample_heap 1%positive = true) as La
    by (vm_compute; reflexivity).
  assert (live_blueprint sample_heap 3%positive = true) as Lc
    by (vm_compute; reflexivity).
  assert (MergeBlueprints sample_heap (Some 1%positive) (Some 2%positive)
          = (h1, Merged 6%positive)) as E1 by (vm_compute; reflexivity).
  assert (MergeBlueprints h1 (Some 6%positive) (Some 3%positive)
          = (h2, Merged 7%positive)) as E2 by (vm_compute; reflexivity).
  split; [exact La|]. split; [exact Lc|]. split; [exact E1|].
  split; [exact E2|].
  exact (MergeBlueprints_assoc sample_heap 1%positive 2%positive 3%positive
           h1 6%positive h2 7%positive La Lc E1 E2).
Defined.
